(** * Event-to-Intelligence pipeline: a shallow embedding

    The relational state of [db/schema.sql] is modelled as a record of
    tables, each table a list of rows.  SQL statements issued by the
    engines become functions over that record; JavaScript control flow
    around them is transcribed statement by statement.

    Conventions:
    - [TEXT] and [UUID] columns read by the application are [string]s;
    - surrogate keys produced by [gen_random_uuid()] are integers drawn
      fresh with respect to the table they are inserted into;
    - [TIMESTAMPTZ] values are integers counting microseconds from
      2000-01-01 00:00:00 UTC, as PostgreSQL stores them, and [NOW()] is
      a parameter of every statement that mentions it;
    - JavaScript integers (counts, percentages) are [Z]; the average
      completion, the one fractional quantity, is an exact rational;
    - calls to [broadcastToWorkspace] are collected in a list, in the
      order in which they are made;
    - a statement that can violate a constraint returns a [result], and
      the caller's [catch] is the [Err] branch. *)

From Stdlib Require Import List ZArith QArith Qround Bool Lia Lqa.
From Stdlib Require Import Permutation.
From Stdlib Require Import Ascii String DecimalString.
From Stdlib Require Import Floats Uint63.
Import ListNotations.

Local Open Scope string_scope.
Local Open Scope list_scope.
Local Open Scope Z_scope.

(* ------------------------------------------------------------------ *)
(** ** Generic list helpers used by the SQL fragments *)

Module Sql.

(** [DISTINCT]: keeps the first occurrence of every value.  The
    database fixes no order for the values of [ARRAY_AGG(DISTINCT ...)]
    nor for the rows of a query without [ORDER BY]; lists stand for them
    in one such order, and a statement that compares broadcasts or
    arrays across runs is made up to [Aux.same_calls]. *)
Fixpoint distinct_by {A} (eqb : A -> A -> bool) (l : list A) : list A :=
  match l with
  | [] => []
  | x :: r => x :: filter (fun y => negb (eqb y x)) (distinct_by eqb r)
  end.

Definition distinct : list string -> list string := distinct_by String.eqb.
Definition distinctZ : list Z -> list Z := distinct_by Z.eqb.

Definition mem (x : string) (l : list string) : bool :=
  existsb (String.eqb x) l.

(** [GROUP BY key]: one group per distinct key, in order of first
    appearance, each holding the rows that carry the key. *)
Definition group_by {A} (key : A -> string) (rows : list A)
  : list (string * list A) :=
  map (fun k => (k, filter (fun r => String.eqb (key r) k) rows))
      (distinct (map key rows)).

(** [l JOIN r ON on]. *)
Definition join {A B} (on : A -> B -> bool) (l : list A) (r : list B)
  : list (A * B) :=
  flat_map (fun a => map (pair a) (filter (on a) r)) l.

(** [COUNT(...)] as an integer. *)
Definition count {A} (l : list A) : Z := Z.of_nat (List.length l).

(** One hour as a [TIMESTAMPTZ] difference. *)
Definition hour : Z := 3600000000.

(** [($n || ' hours')::INTERVAL]. *)
Definition hours (n : Z) : Z := n * hour.

(** [INTERVAL '7 days']. *)
Definition seven_days : Z := 7 * 24 * hour.

(** The range of [TIMESTAMPTZ]: from 4714-11-24 BC up to, and excluding,
    294277-01-01. *)
Definition MIN_TIMESTAMP : Z := -211813488000000000.
Definition END_TIMESTAMP : Z := 9223371331200000000.

Definition timestamptz (t : Z) : bool :=
  (MIN_TIMESTAMP <=? t) && (t <? END_TIMESTAMP).

(** [NOW() - ($n || ' hours')::INTERVAL].  The subtraction raises
    [timestamp out of range] (SQLSTATE 22008) when its result is no
    [TIMESTAMPTZ]; [None] stands for that. *)
Definition now_minus_hours (now n : Z) : option Z :=
  if timestamptz (now - hours n) then Some (now - hours n) else None.

(** The ranges of [BIGINT] and [INTEGER]. *)
Definition bigint (z : Z) : bool :=
  (-9223372036854775808 <=? z) && (z <=? 9223372036854775807).

Definition integer (z : Z) : bool :=
  (-2147483648 <=? z) && (z <=? 2147483647).

(** A [TEXT] value holds no zero byte. *)
Fixpoint text (s : string) : bool :=
  match s with
  | EmptyString => true
  | String c r => negb (Ascii.eqb c Ascii.zero) && text r
  end.

(** [gen_random_uuid()]: an identifier not yet present in the column. *)
Definition gen_random_uuid (used : list Z) : Z :=
  1 + fold_right Z.max 0 used.

(** The hard-coded trunk names of [IN ('main','master')]. *)
Definition is_trunk (branch : string) : bool :=
  String.eqb branch "main" || String.eqb branch "master".

End Sql.

(* ------------------------------------------------------------------ *)
(** ** Schema (src/db/schema.sql) *)

Inductive severity := LOW | MEDIUM | HIGH.
Inductive blocker_type :=
  FILE_CONFLICT_RISK | DEPENDENCY_BLOCK | INACTIVITY | ALIGNMENT_DRIFT.
Inductive feature_status := ACTIVE | BLOCKED | COMPLETE.
Inductive pr_status := PR_open | PR_merged | PR_closed.

Definition severity_eqb (a b : severity) : bool :=
  match a, b with
  | LOW, LOW | MEDIUM, MEDIUM | HIGH, HIGH => true
  | _, _ => false
  end.

Definition blocker_type_eqb (a b : blocker_type) : bool :=
  match a, b with
  | FILE_CONFLICT_RISK, FILE_CONFLICT_RISK
  | DEPENDENCY_BLOCK, DEPENDENCY_BLOCK
  | INACTIVITY, INACTIVITY
  | ALIGNMENT_DRIFT, ALIGNMENT_DRIFT => true
  | _, _ => false
  end.

Definition feature_status_eqb (a b : feature_status) : bool :=
  match a, b with
  | ACTIVE, ACTIVE | BLOCKED, BLOCKED | COMPLETE, COMPLETE => true
  | _, _ => false
  end.

Definition pr_status_eqb (a b : pr_status) : bool :=
  match a, b with
  | PR_open, PR_open | PR_merged, PR_merged | PR_closed, PR_closed => true
  | _, _ => false
  end.

Record workspace := mkWorkspace {
  ws_id : string;
  ws_github_repo_id : Z;
  ws_health_score : Z;
  ws_activity_window_hours : Z
}.

Record user := mkUser {
  u_workspace_id : string;
  u_github_username : string;
  u_user_uid : string
}.

Record feature := mkFeature {
  f_id : string;
  f_workspace_id : string;
  f_name : string;
  f_status : feature_status;
  f_completion_percentage : Z
}.

Record feature_dependency := mkFeatureDependency {
  fd_feature_id : string;
  fd_depends_on_feature_id : string
}.

Record file_activity_row := mkFileActivity {
  fa_id : Z;
  fa_workspace_id : string;
  fa_branch_name : string;
  fa_file_path : string;
  fa_last_commit_hash : string;
  fa_updated_at : Z
}.

Record blocker := mkBlocker {
  b_id : Z;
  b_workspace_id : string;
  b_type : blocker_type;
  b_reference_id : string;
  b_description : string;
  b_severity : severity;
  b_resolved : bool;
  b_created_at : Z
}.

Record pull_request := mkPullRequest {
  pr_id : string;
  pr_workspace_id : string;
  pr_number : Z;
  pr_source_branch : string;
  pr_target_branch : string;
  pr_state : pr_status
}.

Record pr_file := mkPrFile {
  pf_pr_id : string;
  pf_file_path : string
}.

Record webhook_delivery := mkWebhookDelivery {
  wd_delivery_id : string;
  wd_repo_id : Z;
  wd_branch_name : string;
  wd_commit_hash : string;
  wd_duration_ms : option Z;
  wd_processed_at : Z
}.

Record db := mkDb {
  workspaces : list workspace;
  users : list user;
  features : list feature;
  feature_dependencies : list feature_dependency;
  file_activity : list file_activity_row;
  blockers : list blocker;
  pull_requests : list pull_request;
  pr_files : list pr_file;
  webhook_deliveries : list webhook_delivery
}.

Definition set_workspaces (d : db) (x : list workspace) : db :=
  mkDb x (users d) (features d) (feature_dependencies d) (file_activity d)
       (blockers d) (pull_requests d) (pr_files d) (webhook_deliveries d).

Definition set_features (d : db) (x : list feature) : db :=
  mkDb (workspaces d) (users d) x (feature_dependencies d) (file_activity d)
       (blockers d) (pull_requests d) (pr_files d) (webhook_deliveries d).

Definition set_file_activity (d : db) (x : list file_activity_row) : db :=
  mkDb (workspaces d) (users d) (features d) (feature_dependencies d) x
       (blockers d) (pull_requests d) (pr_files d) (webhook_deliveries d).

Definition set_blockers (d : db) (x : list blocker) : db :=
  mkDb (workspaces d) (users d) (features d) (feature_dependencies d)
       (file_activity d) x (pull_requests d) (pr_files d)
       (webhook_deliveries d).

Definition set_webhook_deliveries (d : db) (x : list webhook_delivery) : db :=
  mkDb (workspaces d) (users d) (features d) (feature_dependencies d)
       (file_activity d) (blockers d) (pull_requests d) (pr_files d) x.

(* ------------------------------------------------------------------ *)
(** ** engines/severityClassifier.js (src/unnamed/part_006) *)

Module SeverityClassifier.

(** The [signals] object handed to [classifySeverity] and
    [buildDescription]. *)
Record signals := mkSignals {
  branchCount : Z;
  branches : list string;
  touchesMain : bool;
  prCount : Z;
  prNumbers : list Z
}.

Definition classifySeverity (s : signals) : severity :=
  if 2 <=? prCount s then HIGH
  else if touchesMain s then HIGH
  else if 3 <=? branchCount s then HIGH
  else if 2 <=? branchCount s then MEDIUM
  else LOW.

End SeverityClassifier.

(* ------------------------------------------------------------------ *)
(** ** websocket/wsManager.js (src/websocket/wsManager.js) *)

Module WsManager.

Inductive risk_level := HEALTHY | WARNING | CRITICAL.

(** The payloads handed to [broadcastToWorkspace]. *)
Inductive event :=
| CONFLICT_WARNING (file : string) (branches : list string) (sev : severity)
| BLOCKER_CREATED (featureId featureName : string) (blockedBy : list string)
| HEALTH_UPDATE (score : Z) (riskLevel : risk_level).

(** One call [broadcastToWorkspace(workspaceId, payload)]. *)
Definition broadcast := (string * event)%type.

(** A connected socket: its [userUid] and its [readyState]. *)
Record socket := mkSocket {
  userUid : string;
  readyState : Z
}.

(** [workspaceClients]: workspace id to the sockets registered for it. *)
Definition clients := list (string * list socket).

Definition get (m : clients) (workspaceId : string) : option (list socket) :=
  option_map snd (find (fun e => String.eqb (fst e) workspaceId) m).

(** What one call puts on the wire: a message per socket whose
    [readyState] is 1 (OPEN). *)
Definition broadcastToWorkspace (m : clients) (call : broadcast)
  : list (socket * event) :=
  match get m (fst call) with
  | None => []
  | Some cs =>
      map (fun ws => (ws, snd call))
          (filter (fun ws => readyState ws =? 1) cs)
  end.

(** The messages sent by a sequence of calls. *)
Definition deliver (m : clients) (calls : list broadcast)
  : list (socket * event) :=
  flat_map (broadcastToWorkspace m) calls.

End WsManager.

(* ------------------------------------------------------------------ *)
(** ** websocket/wsManager.js: the registry of sockets *)

Module WsRegistry.
Import WsManager.

(** A JavaScript [Map] with string keys, in insertion order; the keys of
    a [Map] are distinct. *)
Definition map_get {V} (k : string) (m : list (string * V)) : option V :=
  option_map snd (find (fun e => String.eqb (fst e) k) m).

Definition map_has {V} (k : string) (m : list (string * V)) : bool :=
  existsb (fun e => String.eqb (fst e) k) m.

(** The value stored under [k], when there is one, becomes [f] of it. *)
Fixpoint map_update {V} (k : string) (f : V -> V) (m : list (string * V))
  : list (string * V) :=
  match m with
  | [] => []
  | e :: r =>
      if String.eqb (fst e) k then (fst e, f (snd e)) :: r
      else e :: map_update k f r
  end.

Definition map_set {V} (k : string) (v : V) (m : list (string * V))
  : list (string * V) :=
  if map_has k m then map_update k (fun _ => v) m else m ++ [(k, v)].

Definition map_delete {V} (k : string) (m : list (string * V))
  : list (string * V) :=
  filter (fun e => negb (String.eqb (fst e) k)) m.

(** A JavaScript [Set] of socket objects, in insertion order.  A socket
    object is known by its reference. *)
Definition set_add (x : Z) (s : list Z) : list Z :=
  if existsb (Z.eqb x) s then s else s ++ [x].

Definition set_delete (x : Z) (s : list Z) : list Z :=
  filter (fun y => negb (y =? x)) s.

(** The two module-level maps. *)
Record registry := mkRegistry {
  workspaceClients : list (string * list Z);
  userWorkspaceIndex : list (string * string)
}.

(** The maps when the module is loaded. *)
Definition empty : registry := mkRegistry [] [].

(** [if (wid)] for a string. *)
Definition truthy (s : string) : bool := negb (String.eqb s "").

Definition registerUserWorkspace (st : registry) (userUid workspaceId : string)
  (ws : Z) : registry :=
  let idx := map_set userUid workspaceId (userWorkspaceIndex st) in
  let wc :=
    if map_has workspaceId (workspaceClients st) then workspaceClients st
    else map_set workspaceId [] (workspaceClients st) in
  mkRegistry (map_update workspaceId (set_add ws) wc) idx.

(** [sockets] gives the object behind a reference. *)
Definition _removeClient (sockets : Z -> socket) (st : registry) (ws : Z)
  : registry :=
  let wid := map_get (userUid (sockets ws)) (userWorkspaceIndex st) in
  let wc :=
    match wid with
    | Some w =>
        if truthy w then map_update w (set_delete ws) (workspaceClients st)
        else workspaceClients st
    | None => workspaceClients st
    end in
  mkRegistry wc (map_delete (userUid (sockets ws)) (userWorkspaceIndex st)).

(** The sockets registered for a workspace. *)
Definition members (st : registry) (workspaceId : string) : list Z :=
  match map_get workspaceId (workspaceClients st) with
  | Some s => s
  | None => []
  end.

(** The sockets [broadcastToWorkspace] sends the message to, in the
    order of sending. *)
Definition recipients (sockets : Z -> socket) (st : registry)
  (workspaceId : string) : list Z :=
  match map_get workspaceId (workspaceClients st) with
  | None => []
  | Some [] => []
  | Some (x :: s) => filter (fun ws => readyState (sockets ws) =? 1) (x :: s)
  end.

(** [workspaceClients] with every reference replaced by its object. *)
Definition view (sockets : Z -> socket) (st : registry) : clients :=
  map (fun e => (fst e, map sockets (snd e))) (workspaceClients st).

End WsRegistry.

(* ------------------------------------------------------------------ *)
(** ** routes/aiAlignment.js (src/unnamed/part_000): the rate limiter *)

Module AiAlignment.
Import WsRegistry.

Definition RATE_LIMIT_WINDOW_MS : Z := 60000.
Definition RATE_LIMIT_MAX_CALLS : Z := 10.

(** An entry [{ count, windowStart }] of [_rateLimitMap]. *)
Record entry := mkEntry {
  count : Z;
  windowStart : Z
}.

(** [_rateLimitMap]: workspace id to its entry. *)
Definition rate_limit_map := list (string * entry).

(** [checkRateLimit(workspaceId)] at the instant [now] ([Date.now()]):
    the answer and the map after the call. *)
Definition checkRateLimit (m : rate_limit_map) (workspaceId : string)
  (now : Z) : bool * rate_limit_map :=
  match map_get workspaceId m with
  | None => (true, map_set workspaceId (mkEntry 1 now) m)
  | Some e =>
      if now - windowStart e >? RATE_LIMIT_WINDOW_MS
      then (true, map_set workspaceId (mkEntry 1 now) m)
      else if count e >=? RATE_LIMIT_MAX_CALLS
      then (false, m)
      else (true,
            map_update workspaceId
              (fun x => mkEntry (count x + 1) (windowStart x)) m)
  end.

(** Calls for one workspace at the given instants, one after the
    other. *)
Fixpoint check_all (m : rate_limit_map) (workspaceId : string)
  (instants : list Z) : list bool * rate_limit_map :=
  match instants with
  | [] => ([], m)
  | now :: rest =>
      let r := checkRateLimit m workspaceId now in
      let rs := check_all (snd r) workspaceId rest in
      (fst r :: fst rs, snd rs)
  end.

End AiAlignment.

(* ------------------------------------------------------------------ *)
(** ** Storage-layer outcome of a statement *)

Inductive result (A : Type) :=
| Ok (a : A)
| Err (code : string).
Arguments Ok {A} a.
Arguments Err {A} code.

Definition bind {A B} (r : result A) (k : A -> result B) : result B :=
  match r with
  | Ok a => k a
  | Err c => Err c
  end.

Notation "x <- r ;; k" := (bind r (fun x => k))
  (at level 61, r at next level, right associativity).

(* ------------------------------------------------------------------ *)
(** ** engines/blockerService.js (src/unnamed/part_005) *)

Module BlockerService.
Import SeverityClassifier.

(** JavaScript number-to-string for integers. *)
Definition string_of_Z (z : Z) : string :=
  DecimalString.NilZero.string_of_int (Z.to_int z).

(** The key of the partial unique index [idx_blockers_unique_active]. *)
Definition same_key (w : string) (t : blocker_type) (r : string)
  (b : blocker) : bool :=
  String.eqb (b_workspace_id b) w
  && blocker_type_eqb (b_type b) t
  && String.eqb (b_reference_id b) r.

Definition active_with_key (w : string) (t : blocker_type) (r : string)
  (b : blocker) : bool :=
  same_key w t r b && negb (b_resolved b).

(** [INSERT INTO blockers (...) VALUES (..., false, created_at)]: fails
    with unique violation 23505 when an unresolved row already carries
    the key. *)
Definition insert_blocker (d : db) (w : string) (t : blocker_type)
  (r desc : string) (sev : severity) (created_at : Z) : result db :=
  if existsb (active_with_key w t r) (blockers d)
  then Err "23505"
  else Ok (set_blockers d
         (blockers d ++
          [mkBlocker (Sql.gen_random_uuid (map b_id (blockers d)))
                     w t r desc sev false created_at])).

(** [UPDATE blockers SET severity = $1, description = $2 WHERE id = $3]. *)
Definition update_severity (d : db) (sev : severity) (desc : string)
  (id : Z) : db :=
  set_blockers d
    (map (fun b =>
            if b_id b =? id
            then mkBlocker (b_id b) (b_workspace_id b) (b_type b)
                   (b_reference_id b) desc sev (b_resolved b)
                   (b_created_at b)
            else b)
         (blockers d)).

Definition mark_resolved (b : blocker) : blocker :=
  mkBlocker (b_id b) (b_workspace_id b) (b_type b) (b_reference_id b)
            (b_description b) (b_severity b) true (b_created_at b).

Definition upsertConflictBlocker (d : db)
  (workspaceId filePath : string) (sev : severity) (description : string)
  (now : Z) : result db :=
  let existing :=
    find (active_with_key workspaceId FILE_CONFLICT_RISK filePath)
         (blockers d) in
  match existing with
  | Some current =>
      if negb (severity_eqb (b_severity current) sev)
      then Ok (update_severity d sev description (b_id current))
      else Ok d
  | None =>
      insert_blocker d workspaceId FILE_CONFLICT_RISK filePath
                     description sev now
  end.

(** First arm of the [NOT IN] subquery: files still conflicting across
    branches. *)
Definition stale_branch_files (d : db) (w : string) (windowHours now : Z)
  : list string :=
  map fst
    (filter
       (fun g => 1 <? Sql.count (Sql.distinct (map fa_branch_name (snd g))))
       (Sql.group_by fa_file_path
          (filter
             (fun r => String.eqb (fa_workspace_id r) w
                       && negb (Sql.is_trunk (fa_branch_name r))
                       && (now - Sql.hours windowHours <? fa_updated_at r))
             (file_activity d)))).

(** Second arm: files still conflicting across open pull requests. *)
Definition stale_pr_files (d : db) (w : string) : list string :=
  map fst
    (filter
       (fun g =>
          1 <? Sql.count (Sql.distinct (map (fun j => pr_id (snd j)) (snd g))))
       (Sql.group_by (fun j => pf_file_path (fst j))
          (filter
             (fun j => String.eqb (pr_workspace_id (snd j)) w
                       && pr_status_eqb (pr_state (snd j)) PR_open)
             (Sql.join (fun pf pr => String.eqb (pr_id pr) (pf_pr_id pf))
                       (pr_files d) (pull_requests d))))).

(** The whole subquery: the two arms under [UNION]. *)
Definition still_conflicting (d : db) (w : string) (windowHours now : Z)
  : list string :=
  Sql.distinct (stale_branch_files d w windowHours now ++ stale_pr_files d w).

Definition resolveStaleBlockers (d : db) (workspaceId : string)
  (windowHours now : Z) : db :=
  set_blockers d
    (map (fun b =>
            if String.eqb (b_workspace_id b) workspaceId
               && blocker_type_eqb (b_type b) FILE_CONFLICT_RISK
               && negb (b_resolved b)
               && negb (Sql.mem (b_reference_id b)
                          (still_conflicting d workspaceId windowHours now))
            then mark_resolved b
            else b)
         (blockers d)).

(** The separator of [parts.join], a middle dot between two spaces. *)
Definition middle_dot : string :=
  String (ascii_of_nat 32)
    (String (ascii_of_nat 194)
       (String (ascii_of_nat 183) (String (ascii_of_nat 32) EmptyString))).

Definition buildDescription (filePath : string) (s : signals) : string :=
  let parts :=
    (if 1 <? branchCount s
     then [(string_of_Z (branchCount s) ++ " branches ("
            ++ String.concat ", " (branches s) ++ ")")%string]
     else [])
    ++ (if 1 <? prCount s
        then [(string_of_Z (prCount s) ++ " open PRs (#"
               ++ String.concat ", #" (map string_of_Z (prNumbers s))
               ++ ")")%string]
        else [])
    ++ (if touchesMain s then ["includes main"] else []) in
  ("Conflict risk on " ++ filePath ++ ": "
   ++ String.concat middle_dot parts)%string.

End BlockerService.

(* ------------------------------------------------------------------ *)
(** ** engines/conflictEngine.js (src/engines/conflictEngine.js) *)

Module ConflictEngine.
Import SeverityClassifier WsManager BlockerService.

(** A result row of [BRANCH_OVERLAP_QUERY]. *)
Record branch_row := mkBranchRow {
  br_file_path : string;
  br_branch_count : Z;
  br_branches : list string;
  br_touches_main : bool
}.

(** A result row of [PR_OVERLAP_QUERY]. *)
Record pr_row := mkPrRow {
  prr_file_path : string;
  prr_pr_count : Z;
  prr_pr_numbers : list Z;
  prr_source_branches : list string
}.

(** The rows of [BRANCH_OVERLAP_QUERY] for a window whose start is a
    timestamp; [transaction] raises before it is read otherwise.  Groups
    and branch names are listed in order of first appearance in the
    table. *)
Definition BRANCH_OVERLAP_QUERY (d : db) (w : string) (windowHours now : Z)
  : list branch_row :=
  map (fun g =>
         mkBranchRow
           (fst g)
           (Sql.count (Sql.distinct (map fa_branch_name (snd g))))
           (Sql.distinct (map fa_branch_name (snd g)))
           (existsb (fun r => Sql.is_trunk (fa_branch_name r)) (snd g)))
    (filter
       (fun g => 1 <? Sql.count (Sql.distinct (map fa_branch_name (snd g))))
       (Sql.group_by fa_file_path
          (filter
             (fun r => String.eqb (fa_workspace_id r) w
                       && negb (Sql.is_trunk (fa_branch_name r))
                       && (now - Sql.hours windowHours <? fa_updated_at r))
             (file_activity d)))).

(** The rows of [PR_OVERLAP_QUERY], groups and aggregated values in
    order of first appearance in the join. *)
Definition PR_OVERLAP_QUERY (d : db) (w : string) : list pr_row :=
  map (fun g =>
         mkPrRow
           (fst g)
           (Sql.count (Sql.distinct (map (fun j => pr_id (snd j)) (snd g))))
           (Sql.distinctZ (map (fun j => pr_number (snd j)) (snd g)))
           (Sql.distinct (map (fun j => pr_source_branch (snd j)) (snd g))))
    (filter
       (fun g =>
          1 <? Sql.count (Sql.distinct (map (fun j => pr_id (snd j)) (snd g))))
       (Sql.group_by (fun j => pf_file_path (fst j))
          (filter
             (fun j => String.eqb (pr_workspace_id (snd j)) w
                       && pr_status_eqb (pr_state (snd j)) PR_open)
             (Sql.join (fun pf pr => String.eqb (pr_id pr) (pf_pr_id pf))
                       (pr_files d) (pull_requests d))))).

(** [conflictMap]: a JavaScript [Map], iterated in insertion order;
    [set] on a present key keeps the key's position. *)
Definition conflict_map := list (string * signals).

Fixpoint map_set (m : conflict_map) (k : string) (v : signals)
  : conflict_map :=
  match m with
  | [] => [(k, v)]
  | (k', v') :: r =>
      if String.eqb k' k then (k, v) :: r else (k', v') :: map_set r k v
  end.

Definition map_get (m : conflict_map) (k : string) : option signals :=
  option_map snd (find (fun e => String.eqb (fst e) k) m).

(** Step 3: merge signals per file. *)
Definition merge_signals (branchRows : list branch_row)
  (prRows : list pr_row) : conflict_map :=
  let m1 :=
    fold_left
      (fun m row =>
         map_set m (br_file_path row)
           (mkSignals (br_branch_count row) (br_branches row)
                      (br_touches_main row) 0 []))
      branchRows [] in
  fold_left
    (fun m row =>
       let existing :=
         match map_get m (prr_file_path row) with
         | Some s => s
         | None => mkSignals 0 [] false 0 []
         end in
       map_set m (prr_file_path row)
         (mkSignals (branchCount existing) (branches existing)
                    (touchesMain existing)
                    (prr_pr_count row) (prr_pr_numbers row)))
    prRows m1.

(** An element of [newBlockers]. *)
Record new_blocker := mkNewBlocker {
  nb_filePath : string;
  nb_severity : severity;
  nb_signals : signals
}.

(** Step 4: classify severity and upsert blockers, in map order. *)
Fixpoint upsert_entries (d : db) (workspaceId : string)
  (entries : conflict_map) (now : Z) : result (db * list new_blocker) :=
  match entries with
  | [] => Ok (d, [])
  | (filePath, sig) :: rest =>
      let sev := classifySeverity sig in
      let description := buildDescription filePath sig in
      d1 <- upsertConflictBlocker d workspaceId filePath sev description now ;;
      r <- upsert_entries d1 workspaceId rest now ;;
      Ok (fst r, mkNewBlocker filePath sev sig :: snd r)
  end.

(** [SELECT activity_window_hours FROM workspaces WHERE id = $1], with the
    [?? 72] default. *)
Definition window_hours (d : db) (workspaceId : string) : Z :=
  match find (fun w => String.eqb (ws_id w) workspaceId) (workspaces d) with
  | Some w => ws_activity_window_hours w
  | None => 72
  end.

(** The transaction body between [BEGIN] and [COMMIT].  The branch
    overlap query, the first statement to compute the start of the
    activity window, raises when that instant is no [TIMESTAMPTZ]. *)
Definition transaction (d : db) (workspaceId : string) (now : Z)
  : result (db * list new_blocker) :=
  let windowHours := window_hours d workspaceId in
  match Sql.now_minus_hours now windowHours with
  | None => Err "22008"
  | Some _ =>
      let branchResult :=
        BRANCH_OVERLAP_QUERY d workspaceId windowHours now in
      let prResult := PR_OVERLAP_QUERY d workspaceId in
      let conflictMap := merge_signals branchResult prResult in
      r <- upsert_entries d workspaceId conflictMap now ;;
      Ok (resolveStaleBlockers (fst r) workspaceId windowHours now, snd r)
  end.

(** [runConflictEngine]: the database after the call and the calls made
    to [broadcastToWorkspace].  [now] is the transaction's [NOW()]. *)
Definition runConflictEngine (d : db) (workspaceId : string)
  (modifiedFiles : list string) (triggerBranch : string) (now : Z)
  : db * list broadcast :=
  match modifiedFiles with
  | [] => (d, [])
  | _ :: _ =>
      match transaction d workspaceId now with
      | Ok (d', newBlockers) =>
          (d', map (fun nb =>
                      (workspaceId,
                       CONFLICT_WARNING (nb_filePath nb)
                         (branches (nb_signals nb)) (nb_severity nb)))
                   newBlockers)
      | Err _ => (d, [])
      end
  end.

End ConflictEngine.

(* ------------------------------------------------------------------ *)
(** ** engines/healthEngine.js (src/unnamed/part_004) *)

Module HealthEngine.
Import WsManager.

(** ASCII case folding, as applied by [ILIKE] to both operands. *)
Definition lower_char (c : ascii) : ascii :=
  let n := nat_of_ascii c in
  if (Nat.leb 65 n && Nat.leb n 90)%bool then ascii_of_nat (n + 32) else c.

Fixpoint lower (s : string) : string :=
  match s with
  | EmptyString => EmptyString
  | String c r => String (lower_char c) (lower r)
  end.

(** [LIKE] pattern matching over single-byte characters: [%] matches any
    run of characters, [_] any one character, a backslash takes the next
    pattern character literally.  Case is folded for ASCII letters only;
    [Aux.ascii_text] names the strings on which this is the database's
    matching.  A pattern ending in a lone backslash is rejected by the
    database; it does not arise for patterns that end in [%]. *)
Fixpoint MatchText (p s : string) {struct p} : bool :=
  match p with
  | EmptyString =>
      match s with EmptyString => true | String _ _ => false end
  | String c p' =>
      if Ascii.eqb c "%" then
        (fix any (t : string) : bool :=
           MatchText p' t
           || match t with
              | EmptyString => false
              | String _ t' => any t'
              end) s
      else if Ascii.eqb c "_" then
        match s with
        | EmptyString => false
        | String _ s' => MatchText p' s'
        end
      else if Ascii.eqb c "\" then
        match p' with
        | EmptyString => false
        | String e p'' =>
            match s with
            | EmptyString => false
            | String x s' => Ascii.eqb x e && MatchText p'' s'
            end
        end
      else
        match s with
        | EmptyString => false
        | String x s' => Ascii.eqb x c && MatchText p' s'
        end
  end.

(** [text ILIKE pattern]. *)
Definition ilike (text pattern : string) : bool :=
  MatchText (lower pattern) (lower text).

(** [COALESCE(AVG(completion_percentage), 0)] over the workspace's
    features, as an exact rational. *)
Definition _getFeatureCompletionAvg (d : db) (workspaceId : string) : Q :=
  let fs := filter (fun f => String.eqb (f_workspace_id f) workspaceId)
                   (features d) in
  match fs with
  | [] => inject_Z 0
  | _ :: _ =>
      Qdiv (inject_Z (fold_right Z.add 0 (map f_completion_percentage fs)))
           (inject_Z (Sql.count fs))
  end.

(** [{ total, conflict }]. *)
Definition _getBlockerCounts (d : db) (workspaceId : string) : Z * Z :=
  let active :=
    filter (fun b => String.eqb (b_workspace_id b) workspaceId
                     && negb (b_resolved b))
           (blockers d) in
  (Sql.count active,
   Sql.count
     (filter (fun b => blocker_type_eqb (b_type b) FILE_CONFLICT_RISK)
             active)).

Definition _getInactiveMemberCount (d : db) (workspaceId : string) (now : Z)
  : Z :=
  Sql.count
    (filter
       (fun u =>
          String.eqb (u_workspace_id u) workspaceId
          && negb
               (existsb
                  (fun fa =>
                     String.eqb (fa_workspace_id fa) workspaceId
                     && (now - Sql.seven_days <=? fa_updated_at fa)
                     && ilike (fa_branch_name fa)
                              ("%" ++ u_github_username u ++ "%")%string)
                  (file_activity d)))
       (users d)).

(** [Math.round]: the nearest integer, ties towards positive infinity. *)
Definition Math_round (x : Q) : Z := Qfloor (Qplus x (1 # 2)).

Definition raw_score (featureAvg : Q) (total conflict inactiveCount : Z)
  : Q :=
  Qminus
    (Qminus
       (Qminus (Qmult featureAvg (4 # 10)) (inject_Z (total * 5)))
       (inject_Z (conflict * 3)))
    (inject_Z (inactiveCount * 5)).

Definition score_of_raw (raw : Q) : Z :=
  Z.min 100 (Z.max 0 (Math_round raw)).

Definition risk_of_score (score : Z) : risk_level :=
  if 80 <=? score then HEALTHY
  else if 50 <=? score then WARNING
  else CRITICAL.

(** [recalculate]: the database after the call, the calls made to
    [broadcastToWorkspace], and the returned [{ score, riskLevel }]. *)
Definition recalculate (d : db) (workspaceId : string) (now : Z)
  : db * list broadcast * (Z * risk_level) :=
  let featureAvg := _getFeatureCompletionAvg d workspaceId in
  let blockerCounts := _getBlockerCounts d workspaceId in
  let inactiveCount := _getInactiveMemberCount d workspaceId now in
  let raw := raw_score featureAvg (fst blockerCounts) (snd blockerCounts)
                       inactiveCount in
  let score := score_of_raw raw in
  let riskLevel := risk_of_score score in
  (set_workspaces d
     (map (fun w =>
             if String.eqb (ws_id w) workspaceId
             then mkWorkspace (ws_id w) (ws_github_repo_id w) score
                              (ws_activity_window_hours w)
             else w)
          (workspaces d)),
   [(workspaceId, HEALTH_UPDATE score riskLevel)],
   (score, riskLevel)).

End HealthEngine.

(* ------------------------------------------------------------------ *)
(** ** engines/featureEngine.js (src/unnamed/part_003, second half) *)

Module FeatureEngine.
Import WsManager BlockerService.

(** A row of the dependency query. *)
Record dep_row := mkDepRow {
  dr_depends_on_feature_id : string;
  dr_status : feature_status;
  dr_name : string
}.

(** [SELECT fd.depends_on_feature_id, f2.status, f2.name
     FROM feature_dependencies fd
     JOIN features f2 ON f2.id = fd.depends_on_feature_id
     WHERE fd.feature_id = $1 AND f2.status != 'COMPLETE']. *)
Definition incomplete_dependencies (d : db) (featureId : string)
  : list dep_row :=
  map (fun j =>
         mkDepRow (fd_depends_on_feature_id (fst j))
                  (f_status (snd j)) (f_name (snd j)))
    (filter
       (fun j => String.eqb (fd_feature_id (fst j)) featureId
                 && negb (feature_status_eqb (f_status (snd j)) COMPLETE))
       (Sql.join
          (fun fd f2 => String.eqb (f_id f2) (fd_depends_on_feature_id fd))
          (feature_dependencies d) (features d))).

(** [UPDATE features SET status = st WHERE id = $1]. *)
Definition update_status (d : db) (featureId : string) (st : feature_status)
  : db :=
  set_features d
    (map (fun f =>
            if String.eqb (f_id f) featureId
            then mkFeature (f_id f) (f_workspace_id f) (f_name f) st
                           (f_completion_percentage f)
            else f)
         (features d)).

(** [UPDATE features SET completion_percentage = $1 WHERE id = $2]. *)
Definition update_completion (d : db) (pct : Z) (featureId : string) : db :=
  set_features d
    (map (fun f =>
            if String.eqb (f_id f) featureId
            then mkFeature (f_id f) (f_workspace_id f) (f_name f)
                           (f_status f) pct
            else f)
         (features d)).

(** [INSERT INTO blockers ... VALUES ($1, 'DEPENDENCY_BLOCK', $2, $3,
    'HIGH', false) ON CONFLICT (workspace_id, type, reference_id)
    WHERE resolved = false DO NOTHING]. *)
Definition insert_dependency_block (d : db) (workspaceId featureId : string)
  (description : string) (now : Z) : db :=
  if existsb (active_with_key workspaceId DEPENDENCY_BLOCK featureId)
             (blockers d)
  then d
  else set_blockers d
         (blockers d ++
          [mkBlocker (Sql.gen_random_uuid (map b_id (blockers d)))
                     workspaceId DEPENDENCY_BLOCK featureId description
                     HIGH false now]).

(** [UPDATE blockers SET resolved = true WHERE workspace_id = $1
    AND type = 'DEPENDENCY_BLOCK' AND reference_id = $2]. *)
Definition resolve_dependency_block (d : db) (workspaceId featureId : string)
  : db :=
  set_blockers d
    (map (fun b =>
            if same_key workspaceId DEPENDENCY_BLOCK featureId b
            then mark_resolved b
            else b)
         (blockers d)).

Definition double_quote : string := String (ascii_of_nat 34) EmptyString.

(** The body of the [for (const feature of featuresResult.rows)] loop.
    [feature] is the row as loaded before the loop started. *)
Definition process_feature (d : db) (workspaceId : string) (feature : feature)
  (now : Z) : db * list broadcast :=
  let depResult := incomplete_dependencies d (f_id feature) in
  let r :=
    match depResult with
    | _ :: _ =>
        let d1 := update_status d (f_id feature) BLOCKED in
        let blockingNames := String.concat ", " (map dr_name depResult) in
        let d2 :=
          insert_dependency_block d1 workspaceId (f_id feature)
            ("Feature " ++ double_quote ++ f_name feature ++ double_quote
             ++ " blocked by: " ++ blockingNames)%string now in
        (d2, [(workspaceId,
               BLOCKER_CREATED (f_id feature) (f_name feature)
                               (map dr_name depResult))])
    | [] =>
        if feature_status_eqb (f_status feature) BLOCKED
        then
          let d1 := update_status d (f_id feature) ACTIVE in
          (resolve_dependency_block d1 workspaceId (f_id feature), [])
        else (d, [])
    end in
  let newPct := Z.min 95 (f_completion_percentage feature + 5) in
  (update_completion (fst r) newPct (f_id feature), snd r).

(** The features the run iterates over, in the order of the table: the
    query has no [ORDER BY]. *)
Definition featuresResult (d : db) (workspaceId : string) : list feature :=
  filter (fun f => String.eqb (f_workspace_id f) workspaceId
                   && negb (feature_status_eqb (f_status f) COMPLETE))
         (features d).

Definition process_all (d : db) (workspaceId : string) (fs : list feature)
  (now : Z) : db * list broadcast :=
  fold_left
    (fun acc f =>
       let r := process_feature (fst acc) workspaceId f now in
       (fst r, snd acc ++ snd r))
    fs (d, []).

Definition runFeatureEngine (d : db) (workspaceId : string)
  (modifiedFiles : list string) (commitHash : string) (now : Z)
  : db * list broadcast :=
  match modifiedFiles with
  | [] => (d, [])
  | _ :: _ =>
      let r := process_all d workspaceId (featuresResult d workspaceId) now in
      let h := HealthEngine.recalculate (fst r) workspaceId now in
      (fst (fst h), snd r ++ snd (fst h))
  end.

End FeatureEngine.

(* ------------------------------------------------------------------ *)
(** ** routes/webhook.js (src/routes/workspace.js, second half) *)

Module Webhook.
Import WsManager.

Record commit := mkCommit {
  added : option (list string);
  modified : option (list string);
  removed : option (list string)
}.

Record repository := mkRepository {
  repo_id : option Z;
  full_name : option string
}.

(** The JSON push payload, [req.body]. *)
Record payload := mkPayload {
  ref : option string;
  after : option string;
  before : option string;
  commits : option (list commit);
  repo : option repository;
  head_commit : option commit
}.

Record request := mkRequest {
  x_github_event : option string;
  x_github_delivery : option string;
  x_hub_signature_256 : option string;
  rawBody : string;
  body : payload
}.

Inductive response_body :=
| MissingHeaders
| Ignored (event : string)
| InvalidSignature
| InvalidPayload
| Duplicate (deliveryId : string)
| WorkspaceNotFound (repoId : Z)
| BranchDeleted (branch : string)
| Processing (deliveryId : string)
| InternalServerError.

Record response := mkResponse {
  status : Z;
  json : response_body
}.

(** The arguments of the engines scheduled by [setImmediate]. *)
Record dispatch := mkDispatch {
  dp_workspaceId : string;
  dp_modifiedFiles : list string;
  dp_branch : string;
  dp_commitHash : string
}.

Definition ZERO_SHA : string := "0000000000000000000000000000000000000000".

(** JavaScript truthiness of an optional string and of an optional
    number. *)
Definition truthy (o : option string) : bool :=
  match o with
  | Some s => negb (String.eqb s "")
  | None => false
  end.

Definition truthyZ (o : option Z) : bool :=
  match o with
  | Some z => negb (z =? 0)
  | None => false
  end.

Definition or_empty (o : option (list string)) : list string :=
  match o with
  | Some l => l
  | None => []
  end.

Definition drop (n : nat) (s : string) : string :=
  String.substring n (String.length s - n) s.

(** [s.replace(pat, rep)] with a string pattern: the first occurrence
    only. *)
Fixpoint replace (pat rep s : string) : string :=
  if String.prefix pat s
  then (rep ++ drop (String.length pat) s)%string
  else match s with
       | EmptyString => EmptyString
       | String c r => String c (replace pat rep r)
       end.

(** [added], [modified] and [removed] of one commit, concatenated. *)
Definition commit_files (c : commit) : list string :=
  or_empty (added c) ++ or_empty (modified c) ++ or_empty (removed c).

Section Handler.

(** [crypto.createHmac('sha256', secret).update(body).digest('hex')]. *)
Variable hmac_sha256_hex : string -> string -> string.

(** [process.env.GITHUB_WEBHOOK_SECRET]. *)
Variable secret : option string.

Definition verifySignature (req : request) : bool :=
  match secret with
  | None => true
  | Some key =>
      if String.eqb key "" then true
      else
        match x_hub_signature_256 req with
        | None => false
        | Some sig =>
            if String.eqb sig "" then false
            else
              let expected :=
                ("sha256=" ++ hmac_sha256_hex key (rawBody req))%string in
              if negb (Nat.eqb (String.length sig) (String.length expected))
              then false
              else String.eqb sig expected
        end
  end.

(** [INSERT INTO webhook_deliveries ... ON CONFLICT (delivery_id)
    DO NOTHING RETURNING delivery_id]: the table afterwards and
    [rowCount]. *)
Definition insert_delivery (d : db) (deliveryId : string) (repoId : Z)
  (branch commitHash : string) (now : Z) : db * Z :=
  if existsb (fun r => String.eqb (wd_delivery_id r) deliveryId)
             (webhook_deliveries d)
  then (d, 0)
  else (set_webhook_deliveries d
          (webhook_deliveries d ++
           [mkWebhookDelivery deliveryId repoId branch commitHash None now]),
        1).

(** [SELECT id FROM workspaces WHERE github_repo_id = $1 LIMIT 1]. *)
Definition workspace_by_repo (d : db) (repoId : Z) : option string :=
  option_map ws_id
    (find (fun w => ws_github_repo_id w =? repoId) (workspaces d)).

(** [DELETE FROM file_activity WHERE workspace_id = $1
    AND branch_name = $2]. *)
Definition delete_branch_activity (d : db) (workspaceId branch : string)
  : db :=
  set_file_activity d
    (filter (fun r => negb (String.eqb (fa_workspace_id r) workspaceId
                            && String.eqb (fa_branch_name r) branch))
            (file_activity d)).

Definition same_activity (workspaceId branch filePath : string)
  (r : file_activity_row) : bool :=
  String.eqb (fa_workspace_id r) workspaceId
  && String.eqb (fa_branch_name r) branch
  && String.eqb (fa_file_path r) filePath.

(** One row of the batch [INSERT INTO file_activity ... ON CONFLICT
    (workspace_id, branch_name, file_path) DO UPDATE SET
    last_commit_hash, updated_at]. *)
Definition upsert_file_activity (workspaceId branch commitHash : string)
  (now : Z) (rows : list file_activity_row) (filePath : string)
  : list file_activity_row :=
  if existsb (same_activity workspaceId branch filePath) rows
  then map (fun r =>
              if same_activity workspaceId branch filePath r
              then mkFileActivity (fa_id r) (fa_workspace_id r)
                     (fa_branch_name r) (fa_file_path r) commitHash now
              else r)
           rows
  else rows ++
       [mkFileActivity (Sql.gen_random_uuid (map fa_id rows))
                       workspaceId branch filePath commitHash now].

(** [UPDATE webhook_deliveries SET duration_ms = $1
    WHERE delivery_id = $2]. *)
Definition record_duration (d : db) (durationMs : Z) (deliveryId : string)
  : db :=
  set_webhook_deliveries d
    (map (fun r =>
            if String.eqb (wd_delivery_id r) deliveryId
            then mkWebhookDelivery (wd_delivery_id r) (wd_repo_id r)
                   (wd_branch_name r) (wd_commit_hash r) (Some durationMs)
                   (wd_processed_at r)
            else r)
         (webhook_deliveries d)).

(** Steps 1 to 4: the checks made before the transaction opens.  On
    success, the delivery id, [ref], [after] and [repository.id]. *)
Definition gate (req : request)
  : response + (string * string * string * Z) :=
  match x_github_event req, x_github_delivery req with
  | Some eventType, Some deliveryId =>
      if String.eqb eventType "" || String.eqb deliveryId ""
      then inl (mkResponse 400 MissingHeaders)
      else if negb (String.eqb eventType "push")
      then inl (mkResponse 200 (Ignored eventType))
      else if negb (verifySignature req)
      then inl (mkResponse 401 InvalidSignature)
      else
        match ref (body req), after (body req), repo (body req) with
        | Some r, Some a, Some rp =>
            match repo_id rp with
            | Some rid =>
                if String.eqb r "" || String.eqb a "" || (rid =? 0)
                   || negb (truthy (full_name rp))
                then inl (mkResponse 400 InvalidPayload)
                else inr (deliveryId, r, a, rid)
            | None => inl (mkResponse 400 InvalidPayload)
            end
        | _, _, _ => inl (mkResponse 400 InvalidPayload)
        end
  | _, _ => inl (mkResponse 400 MissingHeaders)
  end.

(** Step 5d: the modified files of the push. *)
Definition extract_files (req : request) (isForcePush : bool)
  : list string :=
  match commits (body req) with
  | Some (c :: cs) => Sql.distinct (flat_map commit_files (c :: cs))
  | _ =>
      match head_commit (body req) with
      | Some hc => if isForcePush then Sql.distinct (commit_files hc) else []
      | None => []
      end
  end.

(** [router.post('/github')], as its [try] block runs when no statement
    raises: the response, the committed database and the engine run
    scheduled after the response, if any.  [now] is the transaction's
    [NOW()], [durationMs] the elapsed time recorded.  The [catch] block
    is added by [Route.post_github]. *)
Definition handler (d : db) (req : request) (now durationMs : Z)
  : response * db * option dispatch :=
  match gate req with
  | inl resp => (resp, d, None)
  | inr (deliveryId, r, commitHash, repoId) =>
      let branch := replace "refs/heads/" "" r in
      let isDeletedBranch := String.eqb commitHash ZERO_SHA in
      let isNewBranch :=
        match before (body req) with
        | Some b => String.eqb b ZERO_SHA
        | None => false
        end in
      let isEmpty :=
        match commits (body req) with
        | Some (_ :: _) => false
        | _ => true
        end in
      let isForcePush :=
        negb isNewBranch && negb isDeletedBranch && isEmpty in
      let dedup := insert_delivery d deliveryId repoId branch commitHash now in
      if snd dedup =? 0
      then (mkResponse 200 (Duplicate deliveryId), fst dedup, None)
      else
        let d1 := fst dedup in
        match workspace_by_repo d1 repoId with
        | None => (mkResponse 200 (WorkspaceNotFound repoId), d1, None)
        | Some workspaceId =>
            if isDeletedBranch
            then (mkResponse 200 (BranchDeleted branch),
                  delete_branch_activity d1 workspaceId branch, None)
            else
              let modifiedFiles := extract_files req isForcePush in
              let d2 :=
                set_file_activity d1
                  (fold_left
                     (upsert_file_activity workspaceId branch commitHash now)
                     modifiedFiles (file_activity d1)) in
              let d3 := record_duration d2 durationMs deliveryId in
              (mkResponse 200 (Processing deliveryId), d3,
               if negb (String.eqb workspaceId "")
                  && negb (Nat.eqb (List.length modifiedFiles) 0)
               then Some (mkDispatch workspaceId modifiedFiles branch
                                     commitHash)
               else None)
        end
  end.

End Handler.

(** The [setImmediate] callback: the Conflict Engine, then the Feature
    Engine. *)
Definition run_engines (d : db) (dp : dispatch) (now : Z)
  : db * list broadcast :=
  let c := ConflictEngine.runConflictEngine d (dp_workspaceId dp)
             (dp_modifiedFiles dp) (dp_branch dp) now in
  let f := FeatureEngine.runFeatureEngine (fst c) (dp_workspaceId dp)
             (dp_modifiedFiles dp) (dp_commitHash dp) now in
  (fst f, snd c ++ snd f).

End Webhook.

(* ------------------------------------------------------------------ *)
(** ** The specification's vocabulary

    Definitions that follow the words of the specification, against
    which the transcribed code above is compared. *)

Module Spec.
Import SeverityClassifier.

(** Decision precedence of the classifier, first match wins. *)
Definition severity_by_precedence (s : signals) : severity :=
  if Z_le_dec 2 (prCount s) then HIGH
  else if bool_dec (touchesMain s) true then HIGH
  else if Z_le_dec 3 (branchCount s) then HIGH
  else if Z.eq_dec (branchCount s) 2 then MEDIUM
  else LOW.

(** I1: at most one unresolved blocker per (workspace, type, reference). *)
Definition blocker_uniqueness (bs : list blocker) : Prop :=
  forall w t r,
    (List.length (filter (BlockerService.active_with_key w t r) bs) <= 1)%nat.

(** A non-trunk branch of workspace [w] touched file [p] within the
    window. *)
Definition live_branch (d : db) (w : string) (windowHours now : Z)
  (p branch : string) : Prop :=
  exists r, In r (file_activity d)
            /\ fa_workspace_id r = w
            /\ fa_file_path r = p
            /\ fa_branch_name r = branch
            /\ branch <> "main" /\ branch <> "master"
            /\ now - Sql.hours windowHours < fa_updated_at r.

(** File [p] is listed by the open pull request [id] of workspace [w]. *)
Definition in_open_pr (d : db) (w p id : string) : Prop :=
  exists pf pr, In pf (pr_files d) /\ In pr (pull_requests d)
                /\ pf_pr_id pf = id /\ pr_id pr = id
                /\ pf_file_path pf = p
                /\ pr_workspace_id pr = w /\ pr_state pr = PR_open.

(** The current conflict set: at least two distinct live non-trunk
    branches, or at least two open pull requests. *)
Definition in_conflict_set (d : db) (w : string) (windowHours now : Z)
  (p : string) : Prop :=
  (exists b1 b2, b1 <> b2
                 /\ live_branch d w windowHours now p b1
                 /\ live_branch d w windowHours now p b2)
  \/ (exists i1 i2, i1 <> i2 /\ in_open_pr d w p i1 /\ in_open_pr d w p i2).

(** The raw health value:
    0.4 avg - 5 activeBlockerTotal - 3 conflictBlockerCount
    - 5 inactiveMemberCount. *)
Definition health_raw (avg : Q) (total conflict inactive : Z) : Q :=
  ((4 # 10) * avg - 5 * inject_Z total - 3 * inject_Z conflict
   - 5 * inject_Z inactive)%Q.

(** Feature [fid] has an upstream dependency whose status is not
    COMPLETE. *)
Definition has_incomplete_upstream (d : db) (fid : string) : Prop :=
  exists dep g,
    In dep (feature_dependencies d) /\ In g (features d)
    /\ fd_feature_id dep = fid
    /\ f_id g = fd_depends_on_feature_id dep
    /\ f_status g <> COMPLETE.

(** [n] is [x] rounded half-up. *)
Definition rounds_to (x : Q) (n : Z) : Prop :=
  Qle (Qminus (inject_Z n) (1 # 2)) x /\ Qlt x (Qplus (inject_Z n) (1 # 2)).

Definition clamp (n lo hi : Z) : Z :=
  if n <? lo then lo else if hi <? n then hi else n.

(** [needle] occurs in [hay], ignoring ASCII case. *)
Definition contains_ci (hay needle : string) : Prop :=
  exists pre post,
    HealthEngine.lower hay
    = (pre ++ HealthEngine.lower needle ++ post)%string.

(** [n] is the number of the elements of [l] that satisfy [P]. *)
Inductive counts {A : Type} (P : A -> Prop) : list A -> Z -> Prop :=
| counts_nil : counts P [] 0
| counts_in (x : A) (l : list A) (n : Z) :
    P x -> counts P l n -> counts P (x :: l) (n + 1)
| counts_out (x : A) (l : list A) (n : Z) :
    ~ P x -> counts P l n -> counts P (x :: l) n.

(** [s] is the sum of [v] over the elements of [l] that satisfy [P]. *)
Inductive sums {A : Type} (P : A -> Prop) (v : A -> Z)
  : list A -> Z -> Prop :=
| sums_nil : sums P v [] 0
| sums_in (x : A) (l : list A) (s : Z) :
    P x -> sums P v l s -> sums P v (x :: l) (v x + s)
| sums_out (x : A) (l : list A) (s : Z) :
    ~ P x -> sums P v l s -> sums P v (x :: l) s.

(** featureCompletionAvg: the mean completion percentage across the
    features of the workspace, 0 if it has none. *)
Definition mean_completion (d : db) (w : string) (avg : Q) : Prop :=
  exists n s,
    counts (fun f => f_workspace_id f = w) (features d) n
    /\ sums (fun f => f_workspace_id f = w) f_completion_percentage
            (features d) s
    /\ ((n = 0 /\ (avg == 0)%Q)
        \/ (0 < n /\ (avg == inject_Z s / inject_Z n)%Q)).

(** activeBlockerTotal counts the unresolved blockers of the workspace,
    conflictBlockerCount those of type FILE_CONFLICT_RISK among them. *)
Definition unresolved_blocker (w : string) (b : blocker) : Prop :=
  b_workspace_id b = w /\ b_resolved b = false.

Definition unresolved_conflict_blocker (w : string) (b : blocker) : Prop :=
  unresolved_blocker w b /\ b_type b = FILE_CONFLICT_RISK.

(** inactiveMemberCount counts the members of the workspace for whom no
    FileActivity row of the workspace, updated within the last seven
    days, has a branch name containing the member's username, ignoring
    case. *)
Definition inactive_member (d : db) (w : string) (now : Z) (u : user)
  : Prop :=
  u_workspace_id u = w
  /\ ~ exists fa, In fa (file_activity d)
                  /\ fa_workspace_id fa = w
                  /\ now - Sql.seven_days <= fa_updated_at fa
                  /\ contains_ci (fa_branch_name fa) (u_github_username u).

End Spec.

(* ------------------------------------------------------------------ *)
(** ** Auxiliary notions used in the statements and proofs *)

Module Aux.
Import SeverityClassifier BlockerService ConflictEngine.

(** [d'] differs from [d] in the blockers table at most. *)
Definition only_blockers (d d' : db) : Prop :=
  d' = set_blockers d (blockers d').

(** Primary key of the blockers table. *)
Definition blockers_pk (d : db) : Prop := NoDup (map b_id (blockers d)).

(** At the instant [now] the start of the workspace's activity window is
    a [TIMESTAMPTZ], so that the engine's queries do not raise. *)
Definition window_starts (d : db) (w : string) (now : Z) : Prop :=
  Sql.timestamptz (now - Sql.hours (window_hours d w)) = true.

(** The row-wise effect of [UPDATE blockers SET severity, description
    WHERE id]. *)
Definition recolour (sev : severity) (desc : string) (id : Z) (b : blocker)
  : blocker :=
  if b_id b =? id
  then mkBlocker (b_id b) (b_workspace_id b) (b_type b) (b_reference_id b)
                 desc sev (b_resolved b) (b_created_at b)
  else b.

(** Rows of another workspace or another type. *)
Definition other (w : string) (b : blocker) : bool :=
  negb (String.eqb (b_workspace_id b) w
        && blocker_type_eqb (b_type b) FILE_CONFLICT_RISK).

(** The list [newBlockers] is determined by the conflict map alone. *)
Definition new_blockers_of (entries : conflict_map) : list new_blocker :=
  map (fun e => mkNewBlocker (fst e) (classifySeverity (snd e)) (snd e))
      entries.

(** The first unresolved FILE_CONFLICT_RISK blocker of [(w, f)] exists
    and carries severity [s]. *)
Definition settled (bs : list blocker) (w f : string) (s : severity) : Prop :=
  exists b, find (active_with_key w FILE_CONFLICT_RISK f) bs = Some b
            /\ b_severity b = s.

(** Two calls to [broadcastToWorkspace] that differ at most in the order
    of the elements of an array they carry: the order of
    [ARRAY_AGG(DISTINCT ...)] and of the rows of a query without
    [ORDER BY] is left to the database. *)
Definition same_call (a b : WsManager.broadcast) : Prop :=
  fst a = fst b
  /\ match snd a, snd b with
     | WsManager.CONFLICT_WARNING f bs s,
       WsManager.CONFLICT_WARNING f' bs' s' =>
         f = f' /\ Permutation bs bs' /\ s = s'
     | WsManager.BLOCKER_CREATED i n l, WsManager.BLOCKER_CREATED i' n' l' =>
         i = i' /\ n = n' /\ Permutation l l'
     | WsManager.HEALTH_UPDATE s r, WsManager.HEALTH_UPDATE s' r' =>
         s = s' /\ r = r'
     | _, _ => False
     end.

(** The same calls, up to the order in which they are made. *)
Definition same_calls (xs ys : list WsManager.broadcast) : Prop :=
  exists zs, Permutation xs zs /\ Forall2 same_call zs ys.

(** The [CONFLICT_WARNING] calls made for a conflict map. *)
Definition warnings_of (w : string) (entries : conflict_map)
  : list WsManager.broadcast :=
  map (fun e =>
         (w, WsManager.CONFLICT_WARNING (fst e) (branches (snd e))
               (classifySeverity (snd e))))
      entries.

(** [q] is a prefix of [t]. *)
Fixpoint starts_with (q t : string) : bool :=
  match q, t with
  | EmptyString, _ => true
  | String a q', String b t' => Ascii.eqb b a && starts_with q' t'
  | String _ _, EmptyString => false
  end.

(** [needle] occurs in [hay]. *)
Fixpoint occurs (needle hay : string) : bool :=
  starts_with needle hay
  || match hay with
     | EmptyString => false
     | String _ hay' => occurs needle hay'
     end.

(** No character of [s] is special in a [LIKE] pattern. *)
Fixpoint literal (s : string) : bool :=
  match s with
  | EmptyString => true
  | String c r =>
      negb (Ascii.eqb c "%") && negb (Ascii.eqb c "_")
      && negb (Ascii.eqb c "\") && literal r
  end.

(** Every character of [s] is an ASCII character. *)
Fixpoint ascii_text (s : string) : bool :=
  match s with
  | EmptyString => true
  | String c r => Nat.ltb (nat_of_ascii c) 128 && ascii_text r
  end.

(** The usernames of the workspace's members are ASCII and hold none of
    the characters special in a [LIKE] pattern, and so are the branch
    names of its FileActivity rows ASCII: there [ILIKE] folds case as
    [lower] does and the pattern built from a username matches exactly
    the names that contain it. *)
Definition plain_names (d : db) (w : string) : Prop :=
  (forall u, In u (users d) -> u_workspace_id u = w ->
             literal (u_github_username u) = true
             /\ ascii_text (u_github_username u) = true)
  /\ (forall fa, In fa (file_activity d) -> fa_workspace_id fa = w ->
                 ascii_text (fa_branch_name fa) = true).

(** Primary key of the features table. *)
Definition features_pk (d : db) : Prop := NoDup (map f_id (features d)).

(** The row-wise effect of one loop iteration of the Feature Engine on
    the features table: the row of [fid] takes status [st], when one is
    given, and completion [pct]. *)
Definition touch (fid : string) (st : option feature_status) (pct : Z)
  (g : feature) : feature :=
  if String.eqb (f_id g) fid
  then mkFeature (f_id g) (f_workspace_id g) (f_name g)
         (match st with Some x => x | None => f_status g end) pct
  else g.

(** The status the loop body decides for a feature. *)
Definition decided_status (d : db) (f : feature) : option feature_status :=
  match FeatureEngine.incomplete_dependencies d (f_id f) with
  | _ :: _ => Some BLOCKED
  | [] => if feature_status_eqb (f_status f) BLOCKED then Some ACTIVE
          else None
  end.

(** What the dependency query can see of a feature row. *)
Definition complete_key (g : feature) : string * bool :=
  (f_id g, feature_status_eqb (f_status g) COMPLETE).

(** Every DEPENDENCY_BLOCK blocker of [(w, fid)] is resolved. *)
Definition all_resolved (w fid : string) (bs : list blocker) : Prop :=
  forall b, In b bs -> same_key w DEPENDENCY_BLOCK fid b = true ->
            b_resolved b = true.

(** Delivery [id] is in the delivery log. *)
Definition logged (id : string) (d : db) : Prop :=
  exists row, In row (webhook_deliveries d) /\ wd_delivery_id row = id.

(** No FileActivity row enters or leaves the workspace's activity window
    between the instants [now1] and [now2]. *)
Definition same_window (d : db) (w : string) (now1 now2 : Z) : Prop :=
  Forall
    (fun r =>
       (now1 - Sql.hours (window_hours d w) <? fa_updated_at r)
       = (now2 - Sql.hours (window_hours d w) <? fa_updated_at r))
    (file_activity d).

(** The double nearest to 0.4, the factor of [recalculate]. *)
Definition double_0_4 : float := 0x1.999999999999ap-2%float.

(** At the average [1.25 * (2 j + 1)], where the exact product with 0.4
    is the tie [j + 0.5], the product computed in binary64 is that tie. *)
Definition tie_exact (j : nat) : bool :=
  let jf := PrimFloat.of_uint63 (Uint63.of_Z (Z.of_nat j)) in
  PrimFloat.eqb
    (PrimFloat.mul
       (PrimFloat.mul 1.25%float
          (PrimFloat.add (PrimFloat.mul 2%float jf) 1%float))
       double_0_4)
    (PrimFloat.add jf 0.5%float).

(** A decision procedure for I1. *)
Fixpoint unique_activeb (bs : list blocker) : bool :=
  match bs with
  | [] => true
  | b :: r =>
      (b_resolved b
       || negb (existsb (active_with_key (b_workspace_id b) (b_type b)
                                         (b_reference_id b)) r))
      && unique_activeb r
  end.

End Aux.

(* ------------------------------------------------------------------ *)
(** ** A sample database *)

Module Fixtures.
Import WsManager.

(** The instant at which the sample runs take place: 100 hours. *)
Definition t_now : Z := 100 * Sql.hour.

Definition demo_workspaces : list workspace :=
  [ mkWorkspace "w1" 42 100 72; mkWorkspace "w2" 43 100 72 ].

Definition demo_users : list user :=
  [ mkUser "w1" "alice" "u-alice"; mkUser "w1" "a_b" "u-ab" ].

Definition demo_features : list feature :=
  [ mkFeature "F1" "w1" "login" COMPLETE 100;
    mkFeature "F2" "w1" "profile" BLOCKED 50;
    mkFeature "F3" "w1" "search" ACTIVE 93;
    mkFeature "F4" "w1" "export" ACTIVE 0 ].

Definition demo_dependencies : list feature_dependency :=
  [ mkFeatureDependency "F2" "F1"; mkFeatureDependency "F4" "F3" ].

Definition demo_file_activity : list file_activity_row :=
  [ mkFileActivity 1 "w1" "feat-1" "a.js" "c1" (99 * Sql.hour);
    mkFileActivity 2 "w1" "feat-2" "a.js" "c2" (98 * Sql.hour);
    mkFileActivity 3 "w1" "main" "a.js" "c3" (99 * Sql.hour);
    mkFileActivity 4 "w1" "feat-1" "x.md" "c0" (1 * Sql.hour);
    mkFileActivity 5 "w1" "feat-2" "x.md" "c0" (2 * Sql.hour) ].

Definition demo_blockers : list blocker :=
  [ mkBlocker 1 "w1" FILE_CONFLICT_RISK "x.md" "Conflict risk on x.md"
              MEDIUM false (3 * Sql.hour);
    mkBlocker 2 "w1" DEPENDENCY_BLOCK "F2" "Feature blocked" HIGH false
              (3 * Sql.hour);
    mkBlocker 3 "w2" FILE_CONFLICT_RISK "a.js" "Conflict risk on a.js"
              LOW false (3 * Sql.hour);
    mkBlocker 4 "w1" FILE_CONFLICT_RISK "a.js" "Conflict risk on a.js"
              LOW true (3 * Sql.hour) ].

Definition demo_pull_requests : list pull_request :=
  [ mkPullRequest "p10" "w1" 10 "feat-1" "main" PR_open;
    mkPullRequest "p11" "w1" 11 "feat-2" "main" PR_open;
    mkPullRequest "p12" "w1" 12 "feat-9" "main" PR_closed ].

Definition demo_pr_files : list pr_file :=
  [ mkPrFile "p10" "core.ts"; mkPrFile "p11" "core.ts";
    mkPrFile "p12" "core.ts"; mkPrFile "p12" "z.ts" ].

Definition demo : db :=
  mkDb demo_workspaces demo_users demo_features demo_dependencies
       demo_file_activity demo_blockers demo_pull_requests demo_pr_files [].

(** A member whose username holds an underscore, and recent activity on
    a branch that does not contain that username. *)
Definition wildcard_db : db :=
  mkDb demo_workspaces [ mkUser "w1" "a_b" "u-ab" ] [] []
       [ mkFileActivity 1 "w1" "feature/axb" "src/app.js" "c9" t_now ]
       [] [] [] [].

(** Workspace w1 with two features, two unresolved blockers of which
    one is a conflict, and two members of whom [alice] has pushed, an
    hour before [t_now], to a branch named after her. *)
Definition health_db : db :=
  mkDb demo_workspaces
       [ mkUser "w1" "alice" "u-alice"; mkUser "w1" "bob" "u-bob";
         mkUser "w2" "carol" "u-carol" ]
       [ mkFeature "G1" "w1" "login" ACTIVE 100;
         mkFeature "G2" "w1" "search" ACTIVE 95;
         mkFeature "G3" "w2" "export" ACTIVE 10 ]
       []
       [ mkFileActivity 1 "w1" "feat/Alice-login" "a.js" "c1"
                        (t_now - Sql.hour) ]
       [ mkBlocker 1 "w1" FILE_CONFLICT_RISK "a.js" "Conflict risk on a.js"
                   MEDIUM false (3 * Sql.hour);
         mkBlocker 2 "w1" DEPENDENCY_BLOCK "G2" "Feature blocked" HIGH false
                   (3 * Sql.hour);
         mkBlocker 3 "w1" DEPENDENCY_BLOCK "G1" "Feature blocked" HIGH true
                   (3 * Sql.hour);
         mkBlocker 4 "w2" FILE_CONFLICT_RISK "a.js" "Conflict risk on a.js"
                   LOW false (3 * Sql.hour) ]
       [] [] [].

(** A database with the two workspaces and nothing else. *)
Definition fresh_db : db := mkDb demo_workspaces [] [] [] [] [] [] [] [].

(** The push of the duplicate-delivery scenario: delivery [d1], one commit
    touching [a.js] on branch [feat] of the repository of workspace w1. *)
Definition push_d1 : Webhook.request :=
  Webhook.mkRequest (Some "push") (Some "d1") (Some "sha256=abc") "{...}"
    (Webhook.mkPayload (Some "refs/heads/feat") (Some "abc") (Some "ab0")
       (Some [ Webhook.mkCommit None (Some ["a.js"]) None ])
       (Some (Webhook.mkRepository (Some 42) (Some "acme/app")))
       None).

(** A push for a repository no workspace is onboarded for. *)
Definition push_unknown : Webhook.request :=
  Webhook.mkRequest (Some "push") (Some "d7") (Some "sha256=abc") "{...}"
    (Webhook.mkPayload (Some "refs/heads/feat") (Some "abc") (Some "ab0")
       (Some [ Webhook.mkCommit None (Some ["a.js"]) None ])
       (Some (Webhook.mkRepository (Some 999) (Some "acme/other")))
       None).

(** A push whose [repository.id] is 2^63, one more than a [BIGINT]
    holds, and a well-formed push under the same delivery id. *)
Definition push_out_of_range : Webhook.request :=
  Webhook.mkRequest (Some "push") (Some "d8") (Some "sha256=abc") "{...}"
    (Webhook.mkPayload (Some "refs/heads/feat") (Some "abc") (Some "ab0")
       (Some [ Webhook.mkCommit None (Some ["a.js"]) None ])
       (Some (Webhook.mkRepository (Some 9223372036854775808)
                                   (Some "acme/app")))
       None).

Definition push_d8 : Webhook.request :=
  Webhook.mkRequest (Some "push") (Some "d8") (Some "sha256=abc") "{...}"
    (Webhook.mkPayload (Some "refs/heads/feat") (Some "abc") (Some "ab0")
       (Some [ Webhook.mkCommit None (Some ["a.js"]) None ])
       (Some (Webhook.mkRepository (Some 42) (Some "acme/app")))
       None).

(** The same database once a workspace for repository 999 exists. *)
Definition onboard_999 (d : db) : db :=
  set_workspaces d (workspaces d ++ [ mkWorkspace "w9" 999 100 72 ]).

(** Workspace w1 with [a.js] touched on two feature branches, ten and
    five minutes before [t_now], and a push of [a.js] on a third. *)
Definition overlap_db : db :=
  mkDb demo_workspaces [] [] []
       [ mkFileActivity 1 "w1" "feat-1" "a.js" "c1" (t_now - 600000000);
         mkFileActivity 2 "w1" "feat-2" "a.js" "c2" (t_now - 300000000) ]
       [] [] [] [].

Definition push_feat3 : Webhook.request :=
  Webhook.mkRequest (Some "push") (Some "d3") (Some "sha256=abc") "{...}"
    (Webhook.mkPayload (Some "refs/heads/feat-3") (Some "c3") (Some "c0")
       (Some [ Webhook.mkCommit (Some ["a.js"]) None None ])
       (Some (Webhook.mkRepository (Some 42) (Some "acme/app")))
       None).

(** A push that deletes branch [feat-1] of the repository of w1. *)
Definition delete_feat1 : Webhook.request :=
  Webhook.mkRequest (Some "push") (Some "d9") (Some "sha256=abc") "{...}"
    (Webhook.mkPayload (Some "refs/heads/feat-1")
       (Some Webhook.ZERO_SHA) (Some "c1") (Some [])
       (Some (Webhook.mkRepository (Some 42) (Some "acme/app")))
       None).

(** A stand-in for the HMAC, and the configured secret. *)
Definition demo_hmac (key body : string) : string := "abc".
Definition demo_secret : option string := Some "topsecret".

(** One dashboard socket, open, registered for workspace w1. *)
Definition demo_clients : clients := [ ("w1", [ mkSocket "u-alice" 1 ]) ].

End Fixtures.

(* ------------------------------------------------------------------ *)
(** ** Vocabulary of the ingestion, engine and health properties *)

Module Vocabulary.
Import SeverityClassifier BlockerService ConflictEngine Webhook.

(** The columns of the unique constraint on [file_activity]. *)
Definition activity_key (r : file_activity_row) : string * string * string :=
  (fa_workspace_id r, fa_branch_name r, fa_file_path r).

(** [isForcePush], as the handler computes it from the payload. *)
Definition is_force_push (req : request) (commitHash : string) : bool :=
  negb (match before (body req) with
        | Some b => String.eqb b ZERO_SHA
        | None => false
        end)
  && negb (String.eqb commitHash ZERO_SHA)
  && match commits (body req) with
     | Some (_ :: _) => false
     | _ => true
     end.

(** [modifiedFiles], as the handler computes it. *)
Definition pushed_files (req : request) (commitHash : string) : list string :=
  extract_files req (is_force_push req commitHash).

(** The row the handler inserts into the delivery log. *)
Definition delivery_row (id : string) (rid : Z) (r a : string) (now : Z)
  : webhook_delivery :=
  mkWebhookDelivery id rid (replace "refs/heads/" "" r) a None now.

(** The database once the delivery row is inserted. *)
Definition with_delivery (d : db) (id : string) (rid : Z) (r a : string)
  (now : Z) : db :=
  set_webhook_deliveries d
    (webhook_deliveries d ++ [delivery_row id rid r a now]).

(** Severities in increasing order. *)
Definition severity_rank (s : severity) : Z :=
  match s with LOW => 0 | MEDIUM => 1 | HIGH => 2 end.

(** How a blocker row may change over time: identity, key and creation
    time stay, and a resolved row stays as it is. *)
Definition evolves (b b' : blocker) : Prop :=
  b_id b' = b_id b
  /\ b_workspace_id b' = b_workspace_id b
  /\ b_type b' = b_type b
  /\ b_reference_id b' = b_reference_id b
  /\ b_created_at b' = b_created_at b
  /\ (b_resolved b = true -> b' = b).

(** The table [bs'] holds every row of [bs], in place and evolved, and
    possibly further rows after them. *)
Definition grows (bs bs' : list blocker) : Prop :=
  exists kept added, bs' = kept ++ added /\ Forall2 evolves bs kept.

(** What an entry of the conflict map can look like, once the pull
    request rows of [seen] have been merged in. *)
Definition entry_ok (seen : list string) (e : string * signals) : Prop :=
  touchesMain (snd e) = false
  /\ (In (fst e) seen -> 2 <= prCount (snd e))
  /\ (~ In (fst e) seen -> prCount (snd e) = 0 /\ 2 <= branchCount (snd e)).

(** The value [raw] of [recalculate]. *)
Definition health_raw_of (d : db) (w : string) (now : Z) : Q :=
  HealthEngine.raw_score
    (HealthEngine._getFeatureCompletionAvg d w)
    (fst (HealthEngine._getBlockerCounts d w))
    (snd (HealthEngine._getBlockerCounts d w))
    (HealthEngine._getInactiveMemberCount d w now).

(** The database with one more row in the blockers table. *)
Definition with_blocker (d : db) (b : blocker) : db :=
  set_blockers d (blockers d ++ [b]).

(** What a blocker row takes off the raw health value of workspace
    [w]. *)
Definition blocker_penalty (w : string) (b : blocker) : Z :=
  if String.eqb (b_workspace_id b) w && negb (b_resolved b)
  then if blocker_type_eqb (b_type b) FILE_CONFLICT_RISK then 8 else 5
  else 0.

(** [CHECK (completion_percentage BETWEEN 0 AND 100)]. *)
Definition completion_check (d : db) : Prop :=
  Forall (fun f => 0 <= f_completion_percentage f <= 100) (features d).

(** The row-wise effect of [UPDATE workspaces SET health_score = $1
    WHERE id = $2]. *)
Definition store_score (w : string) (score : Z) (x : workspace) : workspace :=
  if String.eqb (ws_id x) w
  then mkWorkspace (ws_id x) (ws_github_repo_id x) score
                   (ws_activity_window_hours x)
  else x.
(** The names of the incomplete upstream features of [fid], as the
    dependency query lists them. *)
Definition blocking_names (d : db) (fid : string) : list string :=
  map FeatureEngine.dr_name (FeatureEngine.incomplete_dependencies d fid).

(** The dependency query returns a row for the feature. *)
Definition has_deps (d : db) (f : feature) : bool :=
  match blocking_names d (f_id f) with [] => false | _ :: _ => true end.

(** The [BLOCKER_CREATED] call made for a blocked feature. *)
Definition blocked_event (d : db) (w : string) (f : feature)
  : WsManager.broadcast :=
  (w, WsManager.BLOCKER_CREATED (f_id f) (f_name f)
        (blocking_names d (f_id f))).

(** What the dependency query reads of a feature row. *)
Definition name_key (g : feature) : string * string * bool :=
  (f_id g, f_name g, feature_status_eqb (f_status g) COMPLETE).

End Vocabulary.

(* ------------------------------------------------------------------ *)
(** ** routes/webhook.js: the route with its [catch] block *)

Module Route.
Import Webhook Vocabulary.

Section Route.
Variable hmac_sha256_hex : string -> string -> string.
Variable secret : option string.

(** The [INSERT] of step 5a raises when [repository.id] is no [BIGINT]
    or a string parameter is no [TEXT]; it does so whether or not the
    delivery id is already logged. *)
Definition insert_raises (deliveryId branch commitHash : string)
  (repoId : Z) : bool :=
  negb (Sql.bigint repoId && Sql.text deliveryId && Sql.text branch
        && Sql.text commitHash).

(** Some statement of the [try] block raises: the [INSERT] of step 5a,
    or, on the path that reaches them, the batch upsert of step 5e (a
    file path that is no [TEXT]) or the [UPDATE] of step 5f (a duration
    that is no [INTEGER]). *)
Definition try_raises (d : db) (req : request) (durationMs : Z) : bool :=
  match gate hmac_sha256_hex secret req with
  | inl _ => false
  | inr (deliveryId, r, commitHash, repoId) =>
      insert_raises deliveryId (replace "refs/heads/" "" r) commitHash repoId
      || (negb (existsb (fun x => String.eqb (wd_delivery_id x) deliveryId)
                        (webhook_deliveries d))
          && match workspace_by_repo d repoId with
             | None => false
             | Some _ =>
                 negb (String.eqb commitHash ZERO_SHA)
                 && (negb (forallb Sql.text (pushed_files req commitHash))
                     || negb (Sql.integer durationMs))
             end)
  end.

(** [router.post('/github')] with its [catch]: when a statement of the
    [try] block raises, the transaction is rolled back, the answer is
    500 and no engine run is scheduled; otherwise the block runs to its
    end as [handler] describes. *)
Definition post_github (d : db) (req : request) (now durationMs : Z)
  : response * db * option dispatch :=
  if try_raises d req durationMs
  then (mkResponse 500 InternalServerError, d, None)
  else handler hmac_sha256_hex secret d req now durationMs.

End Route.

End Route.

(* ------------------------------------------------------------------ *)
(** * Properties *)

(** ** Severity classifier *)

Module SeverityProperties.
Import SeverityClassifier.

(** C8. [classifySeverity] follows first-match-wins precedence on every
    input: [prCount >= 2] gives HIGH; else [touchesMain] gives HIGH; else
    [branchCount >= 3] gives HIGH; else [branchCount = 2] gives MEDIUM;
    else LOW.  The four boundary inputs of the specification evaluate to
    HIGH, HIGH, MEDIUM and LOW. *)
Theorem classifySeverity_precedence :
  (forall s, classifySeverity s = Spec.severity_by_precedence s)
  /\ (forall bs ns, classifySeverity (mkSignals 1 bs false 2 ns) = HIGH)
  /\ (forall bs tm pc ns, classifySeverity (mkSignals 3 bs tm pc ns) = HIGH)
  /\ (forall bs ns, classifySeverity (mkSignals 2 bs false 0 ns) = MEDIUM)
  /\ (forall bs ns, classifySeverity (mkSignals 1 bs false 1 ns) = LOW).
Proof.
  repeat split.
  - intros [bc bs tm pc ns].
    unfold classifySeverity, Spec.severity_by_precedence; simpl.
    destruct (Z_le_dec 2 pc) as [Hp | Hp].
    + apply Z.leb_le in Hp; now rewrite Hp.
    + apply Z.leb_nle in Hp; rewrite Hp.
      destruct tm; simpl; [reflexivity |].
      destruct (bool_dec false true) as [E | _]; [discriminate E |].
      destruct (Z_le_dec 3 bc) as [Hb | Hb].
      * apply Z.leb_le in Hb; now rewrite Hb.
      * apply Z.leb_nle in Hb; rewrite Hb.
        destruct (Z.eq_dec bc 2) as [-> | Hne]; [reflexivity |].
        apply Z.leb_nle in Hb.
        destruct (2 <=? bc) eqn:E2; [| reflexivity].
        apply Z.leb_le in E2; lia.
  - intros bs tm pc ns; unfold classifySeverity; simpl.
    destruct (2 <=? pc); [reflexivity |]; destruct tm; reflexivity.
Qed.

End SeverityProperties.

(* ------------------------------------------------------------------ *)
(** ** Facts about the SQL helpers *)

Module SqlFacts.
Import Sql.

Lemma mem_In (x : string) (l : list string) : mem x l = true <-> In x l.
Proof.
  unfold mem; rewrite existsb_exists; split.
  - intros [y [Hy E]]; apply String.eqb_eq in E; now subst.
  - intros H; exists x; split; [exact H | apply String.eqb_refl].
Qed.

Lemma mem_false_not_In (x : string) (l : list string) :
  mem x l = false <-> ~ In x l.
Proof.
  rewrite <- mem_In; destruct (mem x l); split; congruence.
Qed.

Section Distinct.
Context {A : Type} (eqb : A -> A -> bool).
Hypothesis eqb_spec : forall x y, eqb x y = true <-> x = y.

Lemma distinct_by_In (x : A) (l : list A) :
  In x (distinct_by eqb l) <-> In x l.
Proof.
  induction l as [| a l IH]; simpl; [tauto |].
  rewrite filter_In, IH; split.
  - intros [E | [H _]]; auto.
  - intros [E | H]; auto.
    destruct (eqb x a) eqn:Hxa.
    + left; symmetry; now apply eqb_spec.
    + right; split; [exact H | reflexivity].
Qed.

Lemma distinct_by_NoDup (l : list A) : NoDup (distinct_by eqb l).
Proof.
  induction l as [| a l IH]; simpl; constructor.
  - rewrite filter_In; intros [_ H].
    assert (E : eqb a a = true) by now apply eqb_spec.
    rewrite E in H; discriminate.
  - now apply NoDup_filter.
Qed.

(** [COUNT(DISTINCT ...) > 1] holds exactly when two different values
    occur. *)
Lemma distinct_by_many (l : list A) :
  (1 <? count (distinct_by eqb l)) = true
  <-> exists x y, x <> y /\ In x l /\ In y l.
Proof.
  unfold count; rewrite Z.ltb_lt; split.
  - intros H.
    pose proof (distinct_by_NoDup l) as ND.
    destruct (distinct_by eqb l) as [| x [| y r]] eqn:E; simpl in H; try lia.
    exists x, y; repeat split.
    + inversion ND as [| ? ? Hx _]; subst; intros ->; apply Hx; now left.
    + apply distinct_by_In; rewrite E; now left.
    + apply distinct_by_In; rewrite E; right; now left.
  - intros [x [y [Hxy [Hx Hy]]]].
    apply distinct_by_In in Hx, Hy.
    pose proof (distinct_by_NoDup l) as ND.
    destruct (distinct_by eqb l) as [| a [| b r]]; simpl in *.
    + tauto.
    + destruct Hx as [-> | []], Hy as [-> | []]; congruence.
    + lia.
Qed.

End Distinct.

Lemma distinct_In (x : string) (l : list string) :
  In x (distinct l) <-> In x l.
Proof. apply distinct_by_In, String.eqb_eq. Qed.

Lemma distinct_NoDup (l : list string) : NoDup (distinct l).
Proof. apply distinct_by_NoDup, String.eqb_eq. Qed.

Lemma distinct_many (l : list string) :
  (1 <? count (distinct l)) = true <-> exists x y, x <> y /\ In x l /\ In y l.
Proof. apply distinct_by_many, String.eqb_eq. Qed.

Section GroupBy.
Context {A : Type} (key : A -> string).

Lemma group_by_In (rows : list A) (g : string * list A) :
  In g (group_by key rows) <->
  In (fst g) (map key rows)
  /\ snd g = filter (fun r => String.eqb (key r) (fst g)) rows.
Proof.
  unfold group_by; rewrite in_map_iff; split.
  - intros [k [<- Hk]]; simpl; split; [now apply distinct_In | reflexivity].
  - intros [Hk Hs]; exists (fst g); split.
    + destruct g; simpl in *; now subst.
    + now apply distinct_In.
Qed.

Lemma group_by_member (rows : list A) (g : string * list A) (r : A) :
  In g (group_by key rows) -> In r (snd g) ->
  In r rows /\ key r = fst g.
Proof.
  intros Hg Hr; apply group_by_In in Hg; destruct Hg as [_ Hs].
  rewrite Hs in Hr; apply filter_In in Hr; destruct Hr as [Hr E].
  split; [exact Hr | now apply String.eqb_eq].
Qed.

Lemma group_by_keys_NoDup (rows : list A) :
  NoDup (map fst (group_by key rows)).
Proof.
  unfold group_by; rewrite map_map; simpl; rewrite map_id.
  apply distinct_NoDup.
Qed.

End GroupBy.

Lemma gen_random_uuid_fresh (used : list Z) : ~ In (gen_random_uuid used) used.
Proof.
  unfold gen_random_uuid; intros H.
  assert (B : forall x, In x used -> x <= fold_right Z.max 0 used).
  { clear H; induction used as [| a l IH]; simpl; [tauto |].
    intros x [-> | Hx]; [lia |]; specialize (IH x Hx); lia. }
  specialize (B _ H); lia.
Qed.

End SqlFacts.

(* ------------------------------------------------------------------ *)
(** ** Branch-overlap query and the trunk rule *)

Module OverlapProperties.
Import SeverityClassifier BlockerService ConflictEngine.

Lemma map_set_touchesMain (m : conflict_map) (k : string) (v : signals) :
  Forall (fun e => touchesMain (snd e) = false) m ->
  touchesMain v = false ->
  Forall (fun e => touchesMain (snd e) = false) (map_set m k v).
Proof.
  intros Hm Hv; induction Hm as [| [k' v'] r Hh Ht IH]; simpl.
  - constructor; [exact Hv | constructor].
  - destruct (String.eqb k' k); constructor; auto.
Qed.

Lemma map_get_touchesMain (m : conflict_map) (k : string) (s : signals) :
  Forall (fun e => touchesMain (snd e) = false) m ->
  map_get m k = Some s -> touchesMain s = false.
Proof.
  unfold map_get; intros Hm H.
  destruct (find _ m) as [e |] eqn:E; [| discriminate].
  apply find_some in E; destruct E as [Hin _].
  rewrite Forall_forall in Hm; inversion H; subst; now apply Hm.
Qed.

Lemma branch_rows_touch_no_trunk (d : db) (w : string) (h now : Z) :
  Forall (fun row => br_touches_main row = false)
         (BRANCH_OVERLAP_QUERY d w h now).
Proof.
  apply Forall_forall; intros row Hrow.
  unfold BRANCH_OVERLAP_QUERY in Hrow.
  apply in_map_iff in Hrow; destruct Hrow as [g [<- Hg]]; simpl.
  apply filter_In in Hg; destruct Hg as [Hg _].
  destruct (existsb _ (snd g)) eqn:E; [| reflexivity].
  apply existsb_exists in E; destruct E as [r [Hr Ht]].
  destruct (SqlFacts.group_by_member _ _ _ _ Hg Hr) as [Hin _].
  apply filter_In in Hin; destruct Hin as [_ Hc].
  rewrite Ht in Hc; simpl in Hc.
  rewrite andb_false_r in Hc; discriminate.
Qed.

Lemma branch_rows_count (d : db) (w : string) (h now : Z) :
  Forall (fun row => 2 <= br_branch_count row)
         (BRANCH_OVERLAP_QUERY d w h now).
Proof.
  apply Forall_forall; intros row Hrow.
  unfold BRANCH_OVERLAP_QUERY in Hrow.
  apply in_map_iff in Hrow; destruct Hrow as [g [<- Hg]]; simpl.
  apply filter_In in Hg; destruct Hg as [_ Hc].
  apply Z.ltb_lt in Hc; lia.
Qed.

Lemma merge_signals_touchesMain (brs : list branch_row) (prs : list pr_row) :
  Forall (fun row => br_touches_main row = false) brs ->
  Forall (fun e => touchesMain (snd e) = false) (merge_signals brs prs).
Proof.
  intros Hb; unfold merge_signals.
  set (P := Forall (fun e : string * signals => touchesMain (snd e) = false)).
  assert (H1 : forall m, P m ->
            P (fold_left
                 (fun m row =>
                    map_set m (br_file_path row)
                      (mkSignals (br_branch_count row) (br_branches row)
                                 (br_touches_main row) 0 []))
                 brs m)).
  { induction Hb as [| row r Hrow _ IH]; simpl; intros m Hm; [exact Hm |].
    apply IH, map_set_touchesMain; auto. }
  assert (H2 : forall m, P m ->
            P (fold_left
                 (fun m row =>
                    let existing :=
                      match map_get m (prr_file_path row) with
                      | Some s => s
                      | None => mkSignals 0 [] false 0 []
                      end in
                    map_set m (prr_file_path row)
                      (mkSignals (branchCount existing) (branches existing)
                                 (touchesMain existing)
                                 (prr_pr_count row) (prr_pr_numbers row)))
                 prs m)).
  { induction prs as [| row r IH]; simpl; intros m Hm; [exact Hm |].
    apply IH, map_set_touchesMain; auto; simpl.
    destruct (map_get m (prr_file_path row)) as [s |] eqn:E; simpl.
    - eapply map_get_touchesMain; eauto.
    - reflexivity. }
  apply H2, H1; constructor.
Qed.

(** C6. Every result row of the branch-overlap query has
    [touches_main = false], because trunk branches are filtered out
    before the aggregate is taken.  Hence the signals built from such a
    row alone are classified by the branch count only (HIGH from three
    branches on, MEDIUM otherwise), and no entry of the engine's conflict
    map ever carries [touchesMain = true]. *)
Theorem branch_overlap_never_touches_main (d : db) (w : string) (h now : Z) :
  Forall (fun row =>
            br_touches_main row = false
            /\ classifySeverity
                 (mkSignals (br_branch_count row) (br_branches row)
                            (br_touches_main row) 0 [])
               = (if 3 <=? br_branch_count row then HIGH else MEDIUM))
         (BRANCH_OVERLAP_QUERY d w h now)
  /\ Forall (fun e => touchesMain (snd e) = false)
            (merge_signals (BRANCH_OVERLAP_QUERY d w h now)
                           (PR_OVERLAP_QUERY d w)).
Proof.
  split.
  - pose proof (branch_rows_touch_no_trunk d w h now) as Ht.
    pose proof (branch_rows_count d w h now) as Hc.
    rewrite Forall_forall in *; intros row Hrow.
    specialize (Ht row Hrow); specialize (Hc row Hrow).
    split; [exact Ht |].
    unfold classifySeverity; simpl; rewrite Ht.
    destruct (3 <=? br_branch_count row); [reflexivity |].
    apply Z.leb_le in Hc; now rewrite Hc.
  - apply merge_signals_touchesMain, branch_rows_touch_no_trunk.
Qed.

(** On the sample database [main] touched [a.js] within the window, yet
    the row for [a.js] reports two branches and no trunk. *)
Example branch_overlap_on_demo :
  BRANCH_OVERLAP_QUERY Fixtures.demo "w1" 72 Fixtures.t_now
  = [ mkBranchRow "a.js" 2 ["feat-1"; "feat-2"] false ].
Proof. vm_compute; reflexivity. Qed.

(** The description built for a file with both kinds of signal. *)
Example buildDescription_both :
  buildDescription "a.js"
    (mkSignals 3 ["feat-1"; "feat-2"; "feat-3"] false 2 [10; 11])
  = "Conflict risk on a.js: 3 branches (feat-1, feat-2, feat-3) · 2 open PRs (#10, #11)".
Proof. vm_compute; reflexivity. Qed.

End OverlapProperties.

(* ------------------------------------------------------------------ *)
(** ** Blocker store: uniqueness of unresolved blockers *)

Module BlockerFacts.
Import SeverityClassifier BlockerService.

Lemma blocker_type_eqb_eq (a b : blocker_type) :
  blocker_type_eqb a b = true <-> a = b.
Proof. destruct a, b; simpl; split; congruence. Qed.

Lemma severity_eqb_eq (a b : severity) : severity_eqb a b = true <-> a = b.
Proof. destruct a, b; simpl; split; congruence. Qed.

Lemma same_key_iff (w : string) (t : blocker_type) (r : string) (b : blocker) :
  same_key w t r b = true
  <-> b_workspace_id b = w /\ b_type b = t /\ b_reference_id b = r.
Proof.
  unfold same_key.
  rewrite !andb_true_iff, !String.eqb_eq, blocker_type_eqb_eq; tauto.
Qed.

Lemma active_with_key_iff (w : string) (t : blocker_type) (r : string)
  (b : blocker) :
  active_with_key w t r b = true
  <-> b_workspace_id b = w /\ b_type b = t /\ b_reference_id b = r
      /\ b_resolved b = false.
Proof.
  unfold active_with_key.
  rewrite andb_true_iff, same_key_iff, negb_true_iff; tauto.
Qed.

Lemma filter_map_le {A} (p : A -> bool) (f : A -> A) (l : list A) :
  (forall x, p (f x) = true -> p x = true) ->
  (List.length (filter p (map f l)) <= List.length (filter p l))%nat.
Proof.
  intros H; induction l as [| a l IH]; simpl; [lia |].
  destruct (p (f a)) eqn:E.
  - rewrite (H a E); simpl; lia.
  - destruct (p a); simpl; lia.
Qed.

(** A row-wise update that never turns a row into an unresolved row of a
    key it did not already hold unresolved keeps I1. *)
Lemma uniqueness_map (f : blocker -> blocker) (bs : list blocker) :
  (forall w t r b, active_with_key w t r (f b) = true ->
                   active_with_key w t r b = true) ->
  Spec.blocker_uniqueness bs -> Spec.blocker_uniqueness (map f bs).
Proof.
  intros Hf Hu w t r.
  pose proof (filter_map_le (active_with_key w t r) f bs (Hf w t r)).
  specialize (Hu w t r); lia.
Qed.

(** Appending an unresolved row whose key no unresolved row holds keeps
    I1. *)
Lemma uniqueness_append (bs : list blocker) (x : blocker) :
  existsb (active_with_key (b_workspace_id x) (b_type x) (b_reference_id x))
          bs = false ->
  Spec.blocker_uniqueness bs -> Spec.blocker_uniqueness (bs ++ [x]).
Proof.
  intros Hx Hu w t r.
  rewrite filter_app, length_app; simpl.
  destruct (active_with_key w t r x) eqn:E; simpl; [| specialize (Hu w t r); lia].
  apply active_with_key_iff in E; destruct E as [<- [<- [<- _]]].
  assert (N : filter (active_with_key (b_workspace_id x) (b_type x)
                        (b_reference_id x)) bs = []).
  { destruct (filter _ bs) as [| y l] eqn:F; [reflexivity |].
    assert (Hy : In y (filter (active_with_key (b_workspace_id x) (b_type x)
                                 (b_reference_id x)) bs))
      by (rewrite F; now left).
    apply filter_In in Hy; destruct Hy as [Hy Ha].
    assert (C : existsb (active_with_key (b_workspace_id x) (b_type x)
                           (b_reference_id x)) bs = true)
      by (apply existsb_exists; eauto).
    congruence. }
  rewrite N; simpl; lia.
Qed.

Lemma find_none_existsb {A} (p : A -> bool) (l : list A) :
  find p l = None -> existsb p l = false.
Proof.
  induction l as [| a l IH]; simpl; [reflexivity |].
  destruct (p a); [discriminate | exact IH].
Qed.

Lemma upsertConflictBlocker_ok (d : db) (w f : string) (sev : severity)
  (desc : string) (now : Z) :
  exists d', upsertConflictBlocker d w f sev desc now = Ok d'.
Proof.
  unfold upsertConflictBlocker, insert_blocker.
  destruct (find _ (blockers d)) as [cur |] eqn:E.
  - destruct (negb _); eauto.
  - rewrite (find_none_existsb _ _ E); eauto.
Qed.

Lemma upsertConflictBlocker_uniqueness (d d' : db) (w f : string)
  (sev : severity) (desc : string) (now : Z) :
  upsertConflictBlocker d w f sev desc now = Ok d' ->
  Spec.blocker_uniqueness (blockers d) ->
  Spec.blocker_uniqueness (blockers d').
Proof.
  unfold upsertConflictBlocker, insert_blocker; intros H Hu.
  destruct (find _ (blockers d)) as [cur |] eqn:E.
  - destruct (negb _); inversion H; subst; [| exact Hu].
    simpl; apply uniqueness_map; [| exact Hu].
    intros w' t' r' b; destruct (b_id b =? b_id cur); [| tauto].
    rewrite !active_with_key_iff; simpl; tauto.
  - pose proof (find_none_existsb _ _ E) as Hn; rewrite Hn in H.
    inversion H; subst; simpl.
    apply uniqueness_append; [exact Hn | exact Hu].
Qed.

Lemma insert_dependency_block_uniqueness (d : db) (w fid desc : string)
  (now : Z) :
  Spec.blocker_uniqueness (blockers d) ->
  Spec.blocker_uniqueness
    (blockers (FeatureEngine.insert_dependency_block d w fid desc now)).
Proof.
  unfold FeatureEngine.insert_dependency_block; intros Hu.
  destruct (existsb _ (blockers d)) eqn:E; [exact Hu |].
  simpl; apply uniqueness_append; [exact E | exact Hu].
Qed.

Lemma mark_resolved_inactive (w : string) (t : blocker_type) (r : string)
  (b : blocker) : active_with_key w t r (mark_resolved b) = false.
Proof. unfold active_with_key; simpl; apply andb_false_r. Qed.

Lemma resolve_dependency_block_uniqueness (d : db) (w fid : string) :
  Spec.blocker_uniqueness (blockers d) ->
  Spec.blocker_uniqueness
    (blockers (FeatureEngine.resolve_dependency_block d w fid)).
Proof.
  intros Hu; simpl; apply uniqueness_map; [| exact Hu].
  intros w' t' r' b; destruct (same_key w DEPENDENCY_BLOCK fid b); [| tauto].
  rewrite mark_resolved_inactive; discriminate.
Qed.

Lemma resolveStaleBlockers_uniqueness (d : db) (w : string) (h now : Z) :
  Spec.blocker_uniqueness (blockers d) ->
  Spec.blocker_uniqueness (blockers (resolveStaleBlockers d w h now)).
Proof.
  intros Hu; simpl; apply uniqueness_map; [| exact Hu].
  intros w' t' r' b.
  match goal with |- context [if ?c then _ else _] => destruct c end;
    [| tauto].
  rewrite mark_resolved_inactive; discriminate.
Qed.

End BlockerFacts.

(* ------------------------------------------------------------------ *)
(** ** The conflict set computed by the stale-resolution subquery *)

Module ConflictSetFacts.
Import Sql BlockerService.

Lemma is_trunk_false (b : string) :
  is_trunk b = false <-> b <> "main" /\ b <> "master".
Proof.
  unfold is_trunk; rewrite orb_false_iff, !String.eqb_neq; tauto.
Qed.

Lemma join_In {A B} (on : A -> B -> bool) (l : list A) (r : list B)
  (a : A) (b : B) :
  In (a, b) (join on l r) <-> In a l /\ In b r /\ on a b = true.
Proof.
  unfold join; rewrite in_flat_map; split.
  - intros [a' [Ha H]]; apply in_map_iff in H.
    destruct H as [b' [E Hb]]; inversion E; subst.
    apply filter_In in Hb; tauto.
  - intros [Ha [Hb Hon]]; exists a; split; [exact Ha |].
    apply in_map_iff; exists b; split; [reflexivity |].
    apply filter_In; tauto.
Qed.

Lemma pr_status_eqb_eq (a b : pr_status) : pr_status_eqb a b = true <-> a = b.
Proof. destruct a, b; simpl; split; congruence. Qed.

Lemma live_rows_In (d : db) (w : string) (h now : Z) (r : file_activity_row) :
  In r (filter
          (fun r => String.eqb (fa_workspace_id r) w
                    && negb (is_trunk (fa_branch_name r))
                    && (now - hours h <? fa_updated_at r))
          (file_activity d))
  <-> In r (file_activity d) /\ fa_workspace_id r = w
      /\ is_trunk (fa_branch_name r) = false
      /\ now - hours h < fa_updated_at r.
Proof.
  rewrite filter_In, !andb_true_iff, String.eqb_eq, negb_true_iff, Z.ltb_lt.
  tauto.
Qed.

Lemma stale_branch_files_In (d : db) (w : string) (h now : Z) (p : string) :
  In p (stale_branch_files d w h now) <->
  exists b1 b2, b1 <> b2
                /\ Spec.live_branch d w h now p b1
                /\ Spec.live_branch d w h now p b2.
Proof.
  unfold stale_branch_files.
  set (live := filter _ (file_activity d)).
  assert (L : forall g b,
             In g (group_by fa_file_path live) ->
             In b (map fa_branch_name (snd g)) ->
             Spec.live_branch d w h now (fst g) b).
  { intros g b Hg Hb; apply in_map_iff in Hb; destruct Hb as [r [<- Hr]].
    destruct (SqlFacts.group_by_member _ _ _ _ Hg Hr) as [Hin Hk].
    apply live_rows_In in Hin; destruct Hin as [Hin [Hw [Ht Hu]]].
    apply is_trunk_false in Ht; exists r; tauto. }
  assert (R : forall b, Spec.live_branch d w h now p b ->
             In p (map fa_file_path live)
             /\ In b (map fa_branch_name
                        (filter (fun r => String.eqb (fa_file_path r) p) live))).
  { intros b [r [Hin [Hw [Hp [Hb [Hm1 [Hm2 Hu]]]]]]].
    assert (Hl : In r live).
    { apply live_rows_In; repeat split; auto.
      apply is_trunk_false; rewrite Hb; tauto. }
    split; apply in_map_iff; exists r; split; auto.
    apply filter_In; split; [exact Hl | now apply String.eqb_eq]. }
  rewrite in_map_iff; split.
  - intros [g [<- Hg]]; apply filter_In in Hg; destruct Hg as [Hg Hc].
    apply SqlFacts.distinct_many in Hc; destruct Hc as [x [y [Hxy [Hx Hy]]]].
    exists x, y; repeat split; eauto.
  - intros [b1 [b2 [Hne [H1 H2]]]].
    destruct (R _ H1) as [Hk Hb1]; destruct (R _ H2) as [_ Hb2].
    exists (p, filter (fun r => String.eqb (fa_file_path r) p) live).
    split; [reflexivity |]; apply filter_In; split.
    + apply SqlFacts.group_by_In; simpl; tauto.
    + simpl; apply SqlFacts.distinct_many; exists b1, b2; tauto.
Qed.

Lemma stale_pr_files_In (d : db) (w : string) (p : string) :
  In p (stale_pr_files d w) <->
  exists i1 i2, i1 <> i2 /\ Spec.in_open_pr d w p i1 /\ Spec.in_open_pr d w p i2.
Proof.
  unfold stale_pr_files.
  set (open := filter _ (join _ (pr_files d) (pull_requests d))).
  assert (O : forall j, In j open <->
             In (fst j) (pr_files d) /\ In (snd j) (pull_requests d)
             /\ pr_id (snd j) = pf_pr_id (fst j)
             /\ pr_workspace_id (snd j) = w /\ pr_state (snd j) = PR_open).
  { intros [pf pr]; unfold open.
    rewrite filter_In, join_In, andb_true_iff, !String.eqb_eq, pr_status_eqb_eq.
    simpl; tauto. }
  assert (L : forall g i,
             In g (group_by (fun j => pf_file_path (fst j)) open) ->
             In i (map (fun j => pr_id (snd j)) (snd g)) ->
             Spec.in_open_pr d w (fst g) i).
  { intros g i Hg Hi; apply in_map_iff in Hi; destruct Hi as [j [<- Hj]].
    destruct (SqlFacts.group_by_member _ _ _ _ Hg Hj) as [Hin Hk].
    apply O in Hin; exists (fst j), (snd j); intuition congruence. }
  assert (R : forall i, Spec.in_open_pr d w p i ->
             In p (map (fun j => pf_file_path (fst j)) open)
             /\ In i (map (fun j => pr_id (snd j))
                        (filter (fun j => String.eqb (pf_file_path (fst j)) p)
                                open))).
  { intros i [pf [pr [Hpf [Hpr [E1 [E2 [Hp [Hw Hs]]]]]]]].
    assert (Hl : In (pf, pr) open) by (apply O; simpl; intuition congruence).
    split; apply in_map_iff; exists (pf, pr); split; auto.
    apply filter_In; split; [exact Hl | now apply String.eqb_eq]. }
  rewrite in_map_iff; split.
  - intros [g [<- Hg]]; apply filter_In in Hg; destruct Hg as [Hg Hc].
    apply SqlFacts.distinct_many in Hc; destruct Hc as [x [y [Hxy [Hx Hy]]]].
    exists x, y; repeat split; eauto.
  - intros [i1 [i2 [Hne [H1 H2]]]].
    destruct (R _ H1) as [Hk Hb1]; destruct (R _ H2) as [_ Hb2].
    exists (p, filter (fun j => String.eqb (pf_file_path (fst j)) p) open).
    split; [reflexivity |]; apply filter_In; split.
    + apply SqlFacts.group_by_In; simpl; tauto.
    + simpl; apply SqlFacts.distinct_many; exists i1, i2; tauto.
Qed.

(** The subquery lists exactly the paths of the conflict set. *)
Lemma still_conflicting_spec (d : db) (w : string) (h now : Z) (p : string) :
  mem p (still_conflicting d w h now) = true
  <-> Spec.in_conflict_set d w h now p.
Proof.
  unfold still_conflicting, Spec.in_conflict_set.
  rewrite SqlFacts.mem_In, SqlFacts.distinct_In, in_app_iff.
  rewrite stale_branch_files_In, stale_pr_files_In; tauto.
Qed.

Lemma still_conflicting_frame (d : db) (bs : list blocker) (w : string)
  (h now : Z) :
  still_conflicting (set_blockers d bs) w h now = still_conflicting d w h now.
Proof. reflexivity. Qed.

End ConflictSetFacts.

(* ------------------------------------------------------------------ *)
(** ** The Conflict Engine's transaction *)

Module EngineFacts.
Import Sql SeverityClassifier BlockerService ConflictEngine.
Import Aux BlockerFacts.

Lemma set_blockers_twice (d : db) (x y : list blocker) :
  set_blockers (set_blockers d x) y = set_blockers d y.
Proof. reflexivity. Qed.

Lemma blockers_set_blockers (d : db) (x : list blocker) :
  blockers (set_blockers d x) = x.
Proof. reflexivity. Qed.

Lemma only_blockers_refl (d : db) : only_blockers d d.
Proof. destruct d; reflexivity. Qed.

Lemma only_blockers_trans (a b c : db) :
  only_blockers a b -> only_blockers b c -> only_blockers a c.
Proof. unfold only_blockers; intros -> ->; reflexivity. Qed.

Lemma pk_same_row (l : list blocker) (x y : blocker) :
  NoDup (map b_id l) -> In x l -> In y l -> b_id x = b_id y -> x = y.
Proof.
  induction l as [| a l IH]; simpl; [tauto |].
  intros ND Hx Hy E; inversion ND as [| ? ? Hn ND']; subst.
  destruct Hx as [-> | Hx], Hy as [-> | Hy]; auto.
  - exfalso; apply Hn; rewrite E; now apply in_map.
  - exfalso; apply Hn; rewrite <- E; now apply in_map.
Qed.

Lemma recolour_id sev desc id b : b_id (recolour sev desc id b) = b_id b.
Proof. unfold recolour; destruct (b_id b =? id); reflexivity. Qed.

Lemma recolour_active sev desc id w t r b :
  active_with_key w t r (recolour sev desc id b) = active_with_key w t r b.
Proof. unfold recolour; destruct (b_id b =? id); reflexivity. Qed.

(** The three outcomes of [upsertConflictBlocker]. *)
Lemma upsert_cases (d d' : db) (w f : string) (sev : severity)
  (desc : string) (now : Z) :
  upsertConflictBlocker d w f sev desc now = Ok d' ->
  (exists cur,
      find (active_with_key w FILE_CONFLICT_RISK f) (blockers d) = Some cur
      /\ b_severity cur = sev /\ d' = d)
  \/ (exists cur,
      find (active_with_key w FILE_CONFLICT_RISK f) (blockers d) = Some cur
      /\ b_severity cur <> sev
      /\ d' = set_blockers d
                (map (recolour sev desc (b_id cur)) (blockers d)))
  \/ (find (active_with_key w FILE_CONFLICT_RISK f) (blockers d) = None
      /\ d' = set_blockers d
                (blockers d ++
                 [mkBlocker (gen_random_uuid (map b_id (blockers d)))
                            w FILE_CONFLICT_RISK f desc sev false now])).
Proof.
  unfold upsertConflictBlocker, insert_blocker; intros H.
  destruct (find _ (blockers d)) as [cur |] eqn:E.
  - destruct (severity_eqb (b_severity cur) sev) eqn:S; simpl in H;
      inversion H; subst.
    + left; exists cur; repeat split; now apply severity_eqb_eq.
    + right; left; exists cur; repeat split.
      intros C; apply severity_eqb_eq in C; congruence.
  - rewrite (find_none_existsb _ _ E) in H; inversion H; subst.
    right; right; split; reflexivity.
Qed.

Lemma upsert_frame d d' w f sev desc now :
  upsertConflictBlocker d w f sev desc now = Ok d' -> only_blockers d d'.
Proof.
  intros H; destruct (upsert_cases _ _ _ _ _ _ _ H)
    as [[c [_ [_ ->]]] | [[c [_ [_ ->]]] | [_ ->]]].
  - apply only_blockers_refl.
  - reflexivity.
  - reflexivity.
Qed.

Lemma upsert_pk d d' w f sev desc now :
  upsertConflictBlocker d w f sev desc now = Ok d' ->
  blockers_pk d -> blockers_pk d'.
Proof.
  unfold blockers_pk; intros H ND.
  destruct (upsert_cases _ _ _ _ _ _ _ H)
    as [[c [_ [_ ->]]] | [[c [_ [_ ->]]] | [_ ->]]]; simpl.
  - exact ND.
  - rewrite map_map.
    erewrite map_ext; [exact ND |]; intros; apply recolour_id.
  - rewrite map_app; simpl.
    apply NoDup_app; [exact ND | constructor; [intros [] | constructor] |].
    intros x Hx [<- | []]; revert Hx; apply SqlFacts.gen_random_uuid_fresh.
Qed.

Lemma filter_map_fixed {A} (p : A -> bool) (g : A -> A) (l : list A) :
  (forall x, In x l -> p x = true -> g x = x) ->
  (forall x, p (g x) = p x) ->
  filter p (map g l) = filter p l.
Proof.
  intros H1 H2; induction l as [| a l IH]; simpl; [reflexivity |].
  rewrite H2, IH by (intros; apply H1; auto; now right).
  destruct (p a) eqn:E; [| reflexivity].
  rewrite H1; auto; now left.
Qed.

Lemma active_not_other w f b :
  active_with_key w FILE_CONFLICT_RISK f b = true -> other w b = false.
Proof.
  intros H; apply active_with_key_iff in H; destruct H as [Hw [Ht _]].
  unfold other; rewrite Hw, Ht, String.eqb_refl; reflexivity.
Qed.

Lemma upsert_others d d' w f sev desc now :
  upsertConflictBlocker d w f sev desc now = Ok d' ->
  blockers_pk d ->
  filter (other w) (blockers d') = filter (other w) (blockers d).
Proof.
  intros H ND.
  destruct (upsert_cases _ _ _ _ _ _ _ H)
    as [[c [_ [_ ->]]] | [[c [Hc [_ ->]]] | [_ ->]]]; simpl.
  - reflexivity.
  - apply find_some in Hc; destruct Hc as [Hin Hact].
    apply filter_map_fixed.
    + intros x Hx Ho; unfold recolour.
      destruct (b_id x =? b_id c) eqn:E; [| reflexivity].
      apply Z.eqb_eq in E.
      rewrite (pk_same_row _ _ _ ND Hx Hin E) in Ho.
      rewrite (active_not_other _ _ _ Hact) in Ho; discriminate.
    + intros x; unfold recolour, other.
      destruct (b_id x =? b_id c); reflexivity.
  - rewrite filter_app; simpl; unfold other at 2; simpl.
    rewrite String.eqb_refl; simpl; apply app_nil_r.
Qed.

Lemma upsert_entries_total (entries : conflict_map) (d : db) (w : string)
  (now : Z) :
  exists d',
    upsert_entries d w entries now = Ok (d', new_blockers_of entries)
    /\ only_blockers d d'
    /\ (blockers_pk d -> blockers_pk d')
    /\ (blockers_pk d ->
        filter (other w) (blockers d') = filter (other w) (blockers d))
    /\ (Spec.blocker_uniqueness (blockers d) ->
        Spec.blocker_uniqueness (blockers d')).
Proof.
  revert d; induction entries as [| [f sig] rest IH]; intros d; simpl.
  - exists d; repeat split; auto; apply only_blockers_refl.
  - destruct (upsertConflictBlocker_ok d w f (classifySeverity sig)
                (buildDescription f sig) now) as [d1 H1].
    rewrite H1; simpl.
    destruct (IH d1) as [d' [H2 [F [P [O U]]]]]; rewrite H2; simpl.
    exists d'; repeat split.
    + eapply only_blockers_trans; [eapply upsert_frame; eauto | exact F].
    + intros ND; eapply P, upsert_pk; eauto.
    + intros ND; rewrite O by (eapply upsert_pk; eauto).
      eapply upsert_others; eauto.
    + intros Hu; eapply U, upsertConflictBlocker_uniqueness; eauto.
Qed.

(** The transaction reaches [COMMIT] when the start of the window is a
    timestamp. *)
Lemma transaction_commits (d : db) (w : string) (now : Z) :
  window_starts d w now ->
  exists d1,
    upsert_entries d w
      (merge_signals
         (BRANCH_OVERLAP_QUERY d w (window_hours d w) now)
         (PR_OVERLAP_QUERY d w)) now
    = Ok (d1, new_blockers_of
                (merge_signals
                   (BRANCH_OVERLAP_QUERY d w (window_hours d w) now)
                   (PR_OVERLAP_QUERY d w)))
    /\ transaction d w now
       = Ok (resolveStaleBlockers d1 w (window_hours d w) now,
             new_blockers_of
               (merge_signals
                  (BRANCH_OVERLAP_QUERY d w (window_hours d w) now)
                  (PR_OVERLAP_QUERY d w)))
    /\ only_blockers d d1
    /\ (blockers_pk d -> blockers_pk d1)
    /\ (blockers_pk d ->
        filter (other w) (blockers d1) = filter (other w) (blockers d))
    /\ (Spec.blocker_uniqueness (blockers d) ->
        Spec.blocker_uniqueness (blockers d1)).
Proof.
  intros W.
  destruct (upsert_entries_total
              (merge_signals
                 (BRANCH_OVERLAP_QUERY d w (window_hours d w) now)
                 (PR_OVERLAP_QUERY d w)) d w now)
    as [d1 [H [F [P [O U]]]]].
  exists d1; repeat split; auto.
  unfold transaction, Sql.now_minus_hours; unfold window_starts in W.
  rewrite W, H; reflexivity.
Qed.

(** Otherwise it raises, and the engine rolls back: nothing is written
    and nothing is broadcast. *)
Lemma transaction_raises (d : db) (w : string) (now : Z) :
  ~ window_starts d w now -> transaction d w now = Err "22008".
Proof.
  intros W; unfold transaction, Sql.now_minus_hours.
  unfold window_starts in W.
  destruct (Sql.timestamptz (now - Sql.hours (window_hours d w)));
    [exfalso; now apply W | reflexivity].
Qed.

Lemma runConflictEngine_raises (d : db) (w : string) (files : list string)
  (branch : string) (now : Z) :
  ~ window_starts d w now -> runConflictEngine d w files branch now = (d, []).
Proof.
  intros W; unfold runConflictEngine.
  destruct files; [reflexivity |].
  now rewrite (transaction_raises d w now W).
Qed.

Lemma window_starts_dec (d : db) (w : string) (now : Z) :
  window_starts d w now \/ ~ window_starts d w now.
Proof.
  unfold window_starts.
  destruct (Sql.timestamptz (now - Sql.hours (window_hours d w)));
    [now left | right; discriminate].
Qed.

Lemma window_starts_demo : window_starts Fixtures.demo "w1" Fixtures.t_now.
Proof. reflexivity. Qed.

Lemma blockers_pk_demo : blockers_pk Fixtures.demo.
Proof.
  unfold blockers_pk; simpl.
  repeat (constructor; [simpl; intuition discriminate |]); constructor.
Qed.

End EngineFacts.

(* ------------------------------------------------------------------ *)
(** ** I1 across every blocker-writing operation *)

Module UniquenessProperties.
Import SeverityClassifier BlockerService ConflictEngine FeatureEngine.
Import Aux BlockerFacts EngineFacts.

Lemma unique_activeb_sound (bs : list blocker) :
  unique_activeb bs = true -> Spec.blocker_uniqueness bs.
Proof.
  induction bs as [| a l IH]; intros H w t r; simpl; [lia |].
  simpl in H; apply andb_true_iff in H; destruct H as [Ha Hl].
  specialize (IH Hl w t r).
  destruct (active_with_key w t r a) eqn:E; simpl; [| lia].
  apply active_with_key_iff in E; destruct E as [<- [<- [<- Hr]]].
  rewrite Hr in Ha; simpl in Ha; apply negb_true_iff in Ha.
  destruct (filter _ l) as [| y l'] eqn:F; simpl; [lia |].
  assert (Hy : In y (filter (active_with_key (b_workspace_id a) (b_type a)
                               (b_reference_id a)) l))
    by (rewrite F; now left).
  apply filter_In in Hy; destruct Hy as [Hy Hact].
  assert (C : existsb (active_with_key (b_workspace_id a) (b_type a)
                         (b_reference_id a)) l = true)
    by (apply existsb_exists; eauto).
  congruence.
Qed.

Lemma process_feature_uniqueness (d : db) (w : string) (f : feature)
  (now : Z) :
  Spec.blocker_uniqueness (blockers d) ->
  Spec.blocker_uniqueness (blockers (fst (process_feature d w f now))).
Proof.
  intros Hu; unfold process_feature.
  destruct (incomplete_dependencies d (f_id f)); simpl.
  - destruct (feature_status_eqb (f_status f) BLOCKED); simpl; [| exact Hu].
    apply (resolve_dependency_block_uniqueness
             (update_status d (f_id f) ACTIVE)); exact Hu.
  - apply (insert_dependency_block_uniqueness
             (update_status d (f_id f) BLOCKED)); exact Hu.
Qed.

Lemma process_all_uniqueness (fs : list feature) (d : db) (w : string)
  (now : Z) (evs : list WsManager.broadcast) :
  Spec.blocker_uniqueness (blockers d) ->
  Spec.blocker_uniqueness
    (blockers
       (fst (fold_left
               (fun acc f =>
                  let r := process_feature (fst acc) w f now in
                  (fst r, snd acc ++ snd r))
               fs (d, evs)))).
Proof.
  revert d evs; induction fs as [| f fs IH]; intros d evs Hu; simpl;
    [exact Hu |].
  apply IH, process_feature_uniqueness, Hu.
Qed.

(** C4. Every blocker-writing operation keeps I1: starting from a table
    with at most one unresolved row per (workspace, type, referenceId),
    [upsertConflictBlocker] succeeds and keeps the property, and so do the
    Feature Engine's DEPENDENCY_BLOCK insert, its resolve, and
    [resolveStaleBlockers]; hence whole runs of both engines keep it. *)
Theorem blocker_writes_preserve_uniqueness (d : db) :
  Spec.blocker_uniqueness (blockers d) ->
  (forall w f sev desc now,
      exists d', upsertConflictBlocker d w f sev desc now = Ok d'
                 /\ Spec.blocker_uniqueness (blockers d'))
  /\ (forall w fid desc now,
         Spec.blocker_uniqueness
           (blockers (insert_dependency_block d w fid desc now)))
  /\ (forall w fid,
         Spec.blocker_uniqueness
           (blockers (resolve_dependency_block d w fid)))
  /\ (forall w h now,
         Spec.blocker_uniqueness (blockers (resolveStaleBlockers d w h now)))
  /\ (forall w files branch now,
         Spec.blocker_uniqueness
           (blockers (fst (runConflictEngine d w files branch now))))
  /\ (forall w files commit now,
         Spec.blocker_uniqueness
           (blockers (fst (runFeatureEngine d w files commit now)))).
Proof.
  intros Hu; repeat split.
  - intros w f sev desc now.
    destruct (upsertConflictBlocker_ok d w f sev desc now) as [d' H].
    exists d'; split; [exact H |].
    eapply upsertConflictBlocker_uniqueness; eauto.
  - intros; now apply insert_dependency_block_uniqueness.
  - intros; now apply resolve_dependency_block_uniqueness.
  - intros; now apply resolveStaleBlockers_uniqueness.
  - intros w files branch now; unfold runConflictEngine.
    destruct files as [| x xs]; [exact Hu |].
    destruct (window_starts_dec d w now) as [W | W];
      [| rewrite (transaction_raises d w now W); exact Hu].
    destruct (transaction_commits d w now W) as [d1 [_ [T [_ [_ [_ U]]]]]].
    rewrite T; simpl.
    apply (resolveStaleBlockers_uniqueness d1), U, Hu.
  - intros w files commit now; unfold runFeatureEngine.
    destruct files as [| x xs]; [exact Hu |].
    simpl; unfold process_all.
    apply process_all_uniqueness, Hu.
Qed.

(** The sample database satisfies I1, and the six conclusions hold of it. *)
Lemma blocker_writes_preserve_uniqueness_witness :
  Spec.blocker_uniqueness (blockers Fixtures.demo)
  /\ Spec.blocker_uniqueness
       (blockers (fst (runConflictEngine Fixtures.demo "w1" ["a.js"]
                         "feat-3" Fixtures.t_now))).
Proof.
  assert (H : Spec.blocker_uniqueness (blockers Fixtures.demo))
    by (apply unique_activeb_sound; vm_compute; reflexivity).
  split; [exact H |].
  destruct (blocker_writes_preserve_uniqueness Fixtures.demo H)
    as [_ [_ [_ [_ [A _]]]]].
  apply A.
Defined.

End UniquenessProperties.

(* ------------------------------------------------------------------ *)
(** ** Stale-blocker resolution *)

Module StaleProperties.
Import Sql SeverityClassifier BlockerService ConflictEngine.
Import Aux BlockerFacts EngineFacts ConflictSetFacts.

Lemma Forall2_map_self {A} (R : A -> A -> Prop) (g : A -> A) (l : list A) :
  (forall x, R x (g x)) -> Forall2 R l (map g l).
Proof. intros H; induction l; simpl; constructor; auto. Qed.

(** The [WHERE] clause of the stale-resolution [UPDATE], read as a
    proposition over the conflict set. *)
Lemma stale_condition (d : db) (w : string) (h now : Z) (b : blocker) :
  String.eqb (b_workspace_id b) w
  && blocker_type_eqb (b_type b) FILE_CONFLICT_RISK
  && negb (b_resolved b)
  && negb (mem (b_reference_id b) (still_conflicting d w h now)) = true
  <-> b_workspace_id b = w /\ b_type b = FILE_CONFLICT_RISK
      /\ b_resolved b = false
      /\ ~ Spec.in_conflict_set d w h now (b_reference_id b).
Proof.
  rewrite !andb_true_iff, String.eqb_eq, blocker_type_eqb_eq,
    !negb_true_iff, <- still_conflicting_spec.
  destruct (mem _ _); intuition congruence.
Qed.

(** C3. [resolveStaleBlockers] turns [resolved] to true on exactly the
    unresolved FILE_CONFLICT_RISK blockers of the workspace whose
    referenceId lies outside the conflict set (two distinct live
    non-trunk branches, or two open pull requests), and changes nothing
    else.  A Conflict Engine run on a non-empty file list commits, after
    which every unresolved FILE_CONFLICT_RISK blocker of the workspace
    references a path of the conflict set, and the rows of other types or
    other workspaces are as they were.  Both halves are stated where the
    statement does not raise: the start of the window, [h] hours before
    [now] for the call and the workspace's own window for the run, is a
    timestamp. *)
Theorem resolveStaleBlockers_exact (d : db) (w : string) (h now : Z)
  (files : list string) (branch : string) :
  blockers_pk d -> files <> [] ->
  Sql.timestamptz (now - Sql.hours h) = true ->
  window_starts d w now ->
  Forall2
    (fun b b' =>
       (b_workspace_id b = w /\ b_type b = FILE_CONFLICT_RISK
        /\ b_resolved b = false
        /\ ~ Spec.in_conflict_set d w h now (b_reference_id b))
       /\ b' = mark_resolved b
       \/ ~ (b_workspace_id b = w /\ b_type b = FILE_CONFLICT_RISK
             /\ b_resolved b = false
             /\ ~ Spec.in_conflict_set d w h now (b_reference_id b))
          /\ b' = b)
    (blockers d) (blockers (resolveStaleBlockers d w h now))
  /\ only_blockers d (resolveStaleBlockers d w h now)
  /\ (exists nbs,
         transaction d w now
         = Ok (fst (runConflictEngine d w files branch now), nbs))
  /\ (forall b,
         In b (blockers (fst (runConflictEngine d w files branch now))) ->
         b_workspace_id b = w -> b_type b = FILE_CONFLICT_RISK ->
         b_resolved b = false ->
         Spec.in_conflict_set
           (fst (runConflictEngine d w files branch now)) w
           (window_hours (fst (runConflictEngine d w files branch now)) w)
           now (b_reference_id b))
  /\ filter (other w)
            (blockers (fst (runConflictEngine d w files branch now)))
     = filter (other w) (blockers d).
Proof.
  intros PK Hfiles _ W; split; [| split].
  - simpl; apply Forall2_map_self; intros b.
    pose proof (stale_condition d w h now b) as S.
    match goal with |- context [if ?c then _ else _] =>
      destruct c eqn:C end.
    + left; split; [now apply S | reflexivity].
    + right; split; [| reflexivity].
      intros K; apply S in K; congruence.
  - reflexivity.
  - destruct files as [| x xs]; [congruence |].
    destruct (transaction_commits d w now W) as [d1 [_ [T [F [_ [O _]]]]]].
    unfold runConflictEngine; rewrite T; simpl fst.
    split; [eauto | split].
    + intros b Hb Hw Ht Hr; simpl in Hb.
      apply in_map_iff in Hb; destruct Hb as [b0 [E Hb0]].
      pose proof (stale_condition d1 w (window_hours d w) now b0) as S.
      match type of E with (if ?c then _ else _) = _ =>
        destruct c eqn:C end.
      * subst b; simpl in Hr; discriminate.
      * subst b0.
        assert (NN : ~ ~ Spec.in_conflict_set d1 w (window_hours d w) now
                         (b_reference_id b)).
        { intros K; assert (X : false = true) by (apply S; tauto).
          discriminate X. }
        assert (M : mem (b_reference_id b)
                      (still_conflicting d1 w (window_hours d w) now) = true).
        { destruct (mem (b_reference_id b)
                      (still_conflicting d1 w (window_hours d w) now)) eqn:M;
            [reflexivity | exfalso; apply NN].
          rewrite <- still_conflicting_spec; congruence. }
        rewrite F in M; rewrite still_conflicting_frame in M.
        apply still_conflicting_spec in M.
        rewrite F; exact M.
    + rewrite <- (O PK); simpl.
      apply filter_map_fixed.
      * intros b _ Ho.
        match goal with |- (if ?c then _ else _) = _ =>
          destruct c eqn:C end; [| reflexivity].
        unfold other in Ho.
        rewrite !andb_true_iff in C; destruct C as [[[Cw Ct] _] _].
        rewrite Cw, Ct in Ho; discriminate.
      * intros b.
        match goal with |- context [if ?c then _ else _] =>
          destruct c end; reflexivity.
Qed.

(** The theorem at the sample database: the blocker on [x.md], whose
    activity left the window, is resolved by a run at [t_now]. *)
Lemma resolveStaleBlockers_exact_witness :
  blockers_pk Fixtures.demo
  /\ ["a.js"] <> @nil string
  /\ Sql.timestamptz (Fixtures.t_now - Sql.hours 72) = true
  /\ window_starts Fixtures.demo "w1" Fixtures.t_now
  /\ filter (other "w1")
            (blockers (fst (runConflictEngine Fixtures.demo "w1" ["a.js"]
                              "feat-3" Fixtures.t_now)))
     = filter (other "w1") (blockers Fixtures.demo).
Proof.
  split; [exact blockers_pk_demo | split; [discriminate |]].
  assert (N : ["a.js"] <> @nil string) by discriminate.
  split; [reflexivity | split; [exact window_starts_demo |]].
  destruct (resolveStaleBlockers_exact Fixtures.demo "w1" 72 Fixtures.t_now
              ["a.js"] "feat-3" blockers_pk_demo N eq_refl
              window_starts_demo) as [_ [_ [_ [_ A]]]].
  exact A.
Defined.

End StaleProperties.

(* ------------------------------------------------------------------ *)
(** ** Running the Conflict Engine twice *)

Module RerunProperties.
Import Sql SeverityClassifier BlockerService ConflictEngine WsManager.
Import Aux BlockerFacts EngineFacts ConflictSetFacts.

Lemma find_map_stable {A} (p : A -> bool) (g : A -> A) (l : list A) :
  (forall x, p (g x) = p x) ->
  find p (map g l) = option_map g (find p l).
Proof.
  intros H; induction l as [| a l IH]; simpl; [reflexivity |].
  rewrite H; destruct (p a); [reflexivity | exact IH].
Qed.

Lemma find_map_fixed {A} (p : A -> bool) (g : A -> A) (l : list A) :
  (forall x, p x = true -> g x = x) ->
  (forall x, p (g x) = true -> p x = true) ->
  find p (map g l) = find p l.
Proof.
  intros H1 H2; induction l as [| a l IH]; simpl; [reflexivity |].
  destruct (p a) eqn:E.
  - rewrite (H1 a E), E; reflexivity.
  - destruct (p (g a)) eqn:E'; [| exact IH].
    apply H2 in E'; congruence.
Qed.

Lemma find_app_some {A} (p : A -> bool) (l r : list A) (b : A) :
  find p l = Some b -> find p (l ++ r) = Some b.
Proof.
  induction l as [| a l IH]; simpl; [discriminate |].
  destruct (p a); auto.
Qed.

Lemma find_app_none {A} (p : A -> bool) (l r : list A) :
  find p l = None -> find p (l ++ r) = find p r.
Proof.
  induction l as [| a l IH]; simpl; [reflexivity |].
  destruct (p a); [discriminate | exact IH].
Qed.

Lemma upsert_settles d d' w f sev desc now :
  upsertConflictBlocker d w f sev desc now = Ok d' ->
  settled (blockers d') w f sev.
Proof.
  intros H; destruct (upsert_cases _ _ _ _ _ _ _ H)
    as [[c [Hc [Hs ->]]] | [[c [Hc [_ ->]]] | [Hn ->]]]; simpl.
  - exists c; tauto.
  - exists (recolour sev desc (b_id c) c); split.
    + rewrite find_map_stable by (intros; apply recolour_active).
      rewrite Hc; reflexivity.
    + unfold recolour; rewrite Z.eqb_refl; reflexivity.
  - eexists; split.
    + rewrite (find_app_none _ _ _ Hn); simpl.
      unfold active_with_key, same_key; simpl.
      rewrite !String.eqb_refl; reflexivity.
    + reflexivity.
Qed.

Lemma upsert_keeps_settled d d' w f f' s sev desc now :
  f' <> f -> blockers_pk d ->
  upsertConflictBlocker d w f' sev desc now = Ok d' ->
  settled (blockers d) w f s -> settled (blockers d') w f s.
Proof.
  intros Hne PK H [b [Hb Hs]].
  destruct (upsert_cases _ _ _ _ _ _ _ H)
    as [[c [Hc [_ ->]]] | [[c [Hc [_ ->]]] | [Hn ->]]]; simpl.
  - exists b; tauto.
  - exists b; split; [| exact Hs].
    rewrite find_map_stable by (intros; apply recolour_active).
    rewrite Hb; simpl; f_equal.
    unfold recolour; destruct (b_id b =? b_id c) eqn:E; [| reflexivity].
    exfalso; apply Z.eqb_eq in E.
    apply find_some in Hb, Hc; destruct Hb as [Ib Ab], Hc as [Ic Ac].
    rewrite (pk_same_row _ _ _ PK Ib Ic E) in Ab.
    apply active_with_key_iff in Ab, Ac; intuition congruence.
  - exists b; split; [now apply find_app_some | exact Hs].
Qed.

Lemma upsert_entries_keeps_settled (entries : conflict_map) :
  forall d d' nbs w f s now,
    ~ In f (map fst entries) -> blockers_pk d ->
    upsert_entries d w entries now = Ok (d', nbs) ->
    settled (blockers d) w f s -> settled (blockers d') w f s.
Proof.
  induction entries as [| [k sig] rest IH]; simpl;
    intros d d' nbs w f s now Hf PK H Hs.
  - inversion H; subst; exact Hs.
  - destruct (upsertConflictBlocker d w k _ _ now) as [d1 |] eqn:U;
      simpl in H; [| discriminate].
    destruct (upsert_entries d1 w rest now) as [[d2 n2] |] eqn:R;
      simpl in H; [| discriminate].
    inversion H; subst.
    apply (IH d1 d' n2 w f s now); [tauto | | exact R |].
    + eapply upsert_pk; eauto.
    + eapply upsert_keeps_settled; eauto.
Qed.

Lemma upsert_entries_settles (entries : conflict_map) :
  forall d d' nbs w now,
    NoDup (map fst entries) -> blockers_pk d ->
    upsert_entries d w entries now = Ok (d', nbs) ->
    Forall (fun e => settled (blockers d') w (fst e)
                       (classifySeverity (snd e)))
           entries.
Proof.
  induction entries as [| [k sig] rest IH]; simpl;
    intros d d' nbs w now ND PK H; [constructor |].
  inversion ND as [| ? ? Hk ND']; subst.
  destruct (upsertConflictBlocker d w k _ _ now) as [d1 |] eqn:U;
    simpl in H; [| discriminate].
  destruct (upsert_entries d1 w rest now) as [[d2 n2] |] eqn:R;
    simpl in H; [| discriminate].
  inversion H; subst.
  pose proof (upsert_pk _ _ _ _ _ _ _ U PK) as PK1.
  constructor; simpl.
  - apply (upsert_entries_keeps_settled rest d1 d' n2 w k _ now Hk PK1 R).
    eapply upsert_settles; eauto.
  - apply (IH d1 d' n2 w now ND' PK1 R).
Qed.

Lemma resolve_keeps_settled d w h now f s :
  mem f (still_conflicting d w h now) = true ->
  settled (blockers d) w f s ->
  settled (blockers (resolveStaleBlockers d w h now)) w f s.
Proof.
  intros Hm [b [Hb Hs]]; exists b; split; [| exact Hs]; simpl.
  rewrite find_map_fixed; [exact Hb | |].
  - intros x Hx; apply active_with_key_iff in Hx.
    destruct Hx as [_ [_ [Hr _]]]; rewrite Hr, Hm.
    rewrite !andb_false_r; reflexivity.
  - intros x.
    match goal with |- context [if ?c then _ else _] => destruct c end;
      [| tauto].
    rewrite mark_resolved_inactive; discriminate.
Qed.

Lemma upsert_noop d w f sev desc now :
  settled (blockers d) w f sev ->
  upsertConflictBlocker d w f sev desc now = Ok d.
Proof.
  intros [b [Hb Hs]]; unfold upsertConflictBlocker; rewrite Hb.
  apply severity_eqb_eq in Hs; rewrite Hs; reflexivity.
Qed.

Lemma upsert_entries_noop (entries : conflict_map) (d : db) (w : string)
  (now : Z) :
  Forall (fun e => settled (blockers d) w (fst e) (classifySeverity (snd e)))
         entries ->
  upsert_entries d w entries now = Ok (d, new_blockers_of entries).
Proof.
  induction 1 as [| [k sig] rest Hh Ht IH]; simpl; [reflexivity |].
  rewrite (upsert_noop _ _ _ _ _ _ Hh); simpl.
  rewrite IH; reflexivity.
Qed.

Lemma resolveStaleBlockers_idempotent d w h now :
  resolveStaleBlockers (resolveStaleBlockers d w h now) w h now
  = resolveStaleBlockers d w h now.
Proof.
  set (S0 := still_conflicting d w h now).
  assert (ES : still_conflicting (resolveStaleBlockers d w h now) w h now
               = S0) by reflexivity.
  unfold resolveStaleBlockers at 1; rewrite ES.
  unfold resolveStaleBlockers; fold S0.
  rewrite set_blockers_twice, blockers_set_blockers.
  f_equal; rewrite map_map; apply map_ext; intros b.
  match goal with |- context [if ?c then mark_resolved b else b] =>
    destruct c eqn:C end.
  - simpl; rewrite !andb_false_r; reflexivity.
  - rewrite C; reflexivity.
Qed.

Lemma map_set_keys_In (m : conflict_map) (k : string) (v : signals)
  (k' : string) :
  In k' (map fst (map_set m k v)) <-> k' = k \/ In k' (map fst m).
Proof.
  induction m as [| [a s] r IH]; simpl; [intuition |].
  destruct (String.eqb a k) eqn:E; simpl.
  - apply String.eqb_eq in E; subst; intuition.
  - rewrite IH; intuition.
Qed.

Lemma map_set_keys_NoDup (m : conflict_map) (k : string) (v : signals) :
  NoDup (map fst m) -> NoDup (map fst (map_set m k v)).
Proof.
  induction m as [| [a s] r IH]; simpl; intros ND.
  - constructor; [intros [] | constructor].
  - inversion ND as [| ? ? Ha ND']; subst.
    destruct (String.eqb a k) eqn:E; simpl.
    + apply String.eqb_eq in E; subst; now constructor.
    + constructor; [| now apply IH].
      rewrite map_set_keys_In; intros [-> | H]; [| tauto].
      rewrite String.eqb_refl in E; discriminate.
Qed.

Lemma fold_set_keys {R} (key : R -> string)
  (val : conflict_map -> R -> signals) (rows : list R) :
  forall m,
    (NoDup (map fst m) ->
     NoDup (map fst (fold_left (fun m row => map_set m (key row) (val m row))
                               rows m)))
    /\ (forall k,
           In k (map fst (fold_left
                            (fun m row => map_set m (key row) (val m row))
                            rows m))
           <-> In k (map fst m) \/ In k (map key rows)).
Proof.
  induction rows as [| row rows IH]; intros m; simpl.
  - split; [auto | intros k; tauto].
  - destruct (IH (map_set m (key row) (val m row))) as [N K]; split.
    + intros ND; now apply N, map_set_keys_NoDup.
    + intros k; rewrite K, map_set_keys_In; intuition.
Qed.

Lemma branch_query_paths (d : db) (w : string) (h now : Z) :
  map br_file_path (BRANCH_OVERLAP_QUERY d w h now)
  = stale_branch_files d w h now.
Proof. unfold BRANCH_OVERLAP_QUERY; rewrite map_map; reflexivity. Qed.

Lemma pr_query_paths (d : db) (w : string) :
  map prr_file_path (PR_OVERLAP_QUERY d w) = stale_pr_files d w.
Proof. unfold PR_OVERLAP_QUERY; rewrite map_map; reflexivity. Qed.

(** The conflict map has one entry per path of the conflict set. *)
Lemma merge_signals_keys (d : db) (w : string) (h now : Z) :
  NoDup (map fst (merge_signals (BRANCH_OVERLAP_QUERY d w h now)
                                (PR_OVERLAP_QUERY d w)))
  /\ forall p,
       In p (map fst (merge_signals (BRANCH_OVERLAP_QUERY d w h now)
                                    (PR_OVERLAP_QUERY d w)))
       <-> mem p (still_conflicting d w h now) = true.
Proof.
  unfold merge_signals.
  set (f1 := fun (m : conflict_map) (row : branch_row) =>
               map_set m (br_file_path row)
                 (mkSignals (br_branch_count row) (br_branches row)
                            (br_touches_main row) 0 [])).
  set (m1 := fold_left f1 (BRANCH_OVERLAP_QUERY d w h now) []).
  destruct (fold_set_keys br_file_path
              (fun _ row => mkSignals (br_branch_count row) (br_branches row)
                                      (br_touches_main row) 0 [])
              (BRANCH_OVERLAP_QUERY d w h now) []) as [N1 K1].
  destruct (fold_set_keys prr_file_path
              (fun m row =>
                 let existing :=
                   match map_get m (prr_file_path row) with
                   | Some s => s
                   | None => mkSignals 0 [] false 0 []
                   end in
                 mkSignals (branchCount existing) (branches existing)
                           (touchesMain existing)
                           (prr_pr_count row) (prr_pr_numbers row))
              (PR_OVERLAP_QUERY d w) m1) as [N2 K2].
  split.
  - apply N2, N1; constructor.
  - intros p; rewrite K2; unfold m1, f1; rewrite K1.
    rewrite branch_query_paths, pr_query_paths.
    unfold still_conflicting.
    rewrite SqlFacts.mem_In, SqlFacts.distinct_In, in_app_iff.
    simpl; tauto.
Qed.

Lemma transaction_frame (d : db) (bs : list blocker) (w : string) (now : Z) :
  window_starts d w now ->
  transaction (set_blockers d bs) w now
  = (r <- upsert_entries (set_blockers d bs) w
            (merge_signals (BRANCH_OVERLAP_QUERY d w (window_hours d w) now)
                           (PR_OVERLAP_QUERY d w)) now ;;
     Ok (resolveStaleBlockers (fst r) w (window_hours d w) now, snd r)).
Proof.
  intros W; unfold transaction, Sql.now_minus_hours.
  change (window_hours (set_blockers d bs) w) with (window_hours d w).
  unfold window_starts in W; rewrite W; reflexivity.
Qed.

Lemma same_call_refl (a : broadcast) : same_call a a.
Proof.
  destruct a as [w e]; split; [reflexivity |].
  destruct e; simpl; repeat split; apply Permutation_refl.
Qed.

Lemma same_calls_refl (xs : list broadcast) : same_calls xs xs.
Proof.
  exists xs; split; [apply Permutation_refl |].
  induction xs; constructor; auto using same_call_refl.
Qed.

Lemma warnings_of_new_blockers (w : string) (entries : conflict_map) :
  map (fun nb =>
         (w, CONFLICT_WARNING (nb_filePath nb) (branches (nb_signals nb))
               (nb_severity nb)))
      (new_blockers_of entries)
  = warnings_of w entries.
Proof. unfold new_blockers_of, warnings_of; rewrite map_map; reflexivity. Qed.

Lemma window_shift_rows (d : db) (w : string) (now1 now2 : Z) :
  same_window d w now1 now2 ->
  filter
    (fun r => String.eqb (fa_workspace_id r) w
              && negb (is_trunk (fa_branch_name r))
              && (now2 - hours (window_hours d w) <? fa_updated_at r))
    (file_activity d)
  = filter
      (fun r => String.eqb (fa_workspace_id r) w
                && negb (is_trunk (fa_branch_name r))
                && (now1 - hours (window_hours d w) <? fa_updated_at r))
      (file_activity d).
Proof.
  unfold same_window; rewrite Forall_forall; intros H.
  apply filter_ext_in; intros r Hr; now rewrite (H r Hr).
Qed.

Lemma window_shift_branch (d : db) (w : string) (now1 now2 : Z) :
  same_window d w now1 now2 ->
  BRANCH_OVERLAP_QUERY d w (window_hours d w) now2
  = BRANCH_OVERLAP_QUERY d w (window_hours d w) now1.
Proof.
  intros H; unfold BRANCH_OVERLAP_QUERY.
  now rewrite (window_shift_rows d w now1 now2 H).
Qed.

Lemma window_shift_still (d : db) (w : string) (now1 now2 : Z) :
  same_window d w now1 now2 ->
  still_conflicting d w (window_hours d w) now2
  = still_conflicting d w (window_hours d w) now1.
Proof.
  intros H; unfold still_conflicting, stale_branch_files.
  now rewrite (window_shift_rows d w now1 now2 H).
Qed.

Lemma resolveStaleBlockers_shift (d : db) (w : string) (h now1 now2 : Z) :
  still_conflicting d w h now2 = still_conflicting d w h now1 ->
  resolveStaleBlockers d w h now2 = resolveStaleBlockers d w h now1.
Proof. intros E; unfold resolveStaleBlockers; now rewrite E. Qed.

(** C2, as the code has it.  Two back-to-back runs of the Conflict
    Engine on non-empty file lists, with no change in between, no
    FileActivity row crossing the edge of the activity window between
    their transaction times, and the start of the window a timestamp at
    both (so that both transactions commit): the second run leaves the
    database exactly as the first run left it, and it repeats the first
    run's broadcasts, one CONFLICT_WARNING per path of the current
    conflict set.  The broadcasts are compared up to their order and the
    order of the branches each carries. *)
Theorem conflict_engine_rerun (d : db) (w : string)
  (files1 files2 : list string) (branch1 branch2 : string) (now1 now2 : Z) :
  blockers_pk d -> files1 <> [] -> files2 <> [] ->
  same_window d w now1 now2 ->
  window_starts d w now1 -> window_starts d w now2 ->
  fst (runConflictEngine (fst (runConflictEngine d w files1 branch1 now1))
                         w files2 branch2 now2)
  = fst (runConflictEngine d w files1 branch1 now1)
  /\ same_calls
       (snd (runConflictEngine
               (fst (runConflictEngine d w files1 branch1 now1))
               w files2 branch2 now2))
       (snd (runConflictEngine d w files1 branch1 now1))
  /\ same_calls
       (snd (runConflictEngine
               (fst (runConflictEngine d w files1 branch1 now1))
               w files2 branch2 now2))
       (warnings_of w
          (merge_signals (BRANCH_OVERLAP_QUERY d w (window_hours d w) now1)
                         (PR_OVERLAP_QUERY d w)))
  /\ NoDup (map fst
              (merge_signals (BRANCH_OVERLAP_QUERY d w (window_hours d w) now1)
                             (PR_OVERLAP_QUERY d w)))
  /\ (forall p,
         In p (map fst
                 (merge_signals
                    (BRANCH_OVERLAP_QUERY d w (window_hours d w) now1)
                    (PR_OVERLAP_QUERY d w)))
         <-> Spec.in_conflict_set d w (window_hours d w) now1 p).
Proof.
  intros PK H1 H2 SW W1 W2.
  destruct files1 as [| x1 xs1]; [congruence |].
  destruct files2 as [| x2 xs2]; [congruence |].
  pose proof (window_shift_branch d w now1 now2 SW) as WB.
  pose proof (window_shift_still d w now1 now2 SW) as WS.
  set (wh := window_hours d w) in *.
  set (entries := merge_signals (BRANCH_OVERLAP_QUERY d w wh now1)
                                (PR_OVERLAP_QUERY d w)).
  destruct (merge_signals_keys d w wh now1) as [ND KS]; fold entries in ND, KS.
  destruct (transaction_commits d w now1 W1) as [d1 [U1 [T1 [F1 [P1 _]]]]].
  fold wh in U1, T1; fold entries in U1, T1.
  assert (R1 : runConflictEngine d w (x1 :: xs1) branch1 now1
               = (resolveStaleBlockers d1 w wh now1, warnings_of w entries)).
  { unfold runConflictEngine; rewrite T1, warnings_of_new_blockers.
    reflexivity. }
  assert (S1 : Forall (fun e => settled
                                  (blockers (resolveStaleBlockers d1 w wh now1))
                                  w (fst e) (classifySeverity (snd e)))
                      entries).
  { pose proof (upsert_entries_settles _ _ _ _ _ _ ND PK U1) as S.
    rewrite Forall_forall in *; intros e He.
    apply resolve_keeps_settled; [| now apply S].
    unfold only_blockers in F1.
    rewrite F1, still_conflicting_frame; apply KS.
    now apply in_map. }
  assert (T2 : transaction (resolveStaleBlockers d1 w wh now1) w now2
               = Ok (resolveStaleBlockers d1 w wh now1,
                     new_blockers_of entries)).
  { assert (FD : only_blockers d (resolveStaleBlockers d1 w wh now1))
      by (eapply only_blockers_trans; [exact F1 | reflexivity]).
    unfold only_blockers in FD.
    remember (resolveStaleBlockers d1 w wh now1) as D eqn:HD.
    rewrite FD, (transaction_frame _ _ _ _ W2); fold wh; rewrite WB;
      fold entries.
    rewrite (upsert_entries_noop entries (set_blockers d (blockers D)) w now2
               S1); simpl.
    rewrite (resolveStaleBlockers_shift _ w wh now1 now2)
      by (rewrite !still_conflicting_frame; exact WS).
    rewrite <- FD; subst D.
    rewrite resolveStaleBlockers_idempotent; reflexivity. }
  assert (R2 : runConflictEngine (resolveStaleBlockers d1 w wh now1) w
                 (x2 :: xs2) branch2 now2
               = (resolveStaleBlockers d1 w wh now1, warnings_of w entries)).
  { unfold runConflictEngine; rewrite T2, warnings_of_new_blockers.
    reflexivity. }
  rewrite R1; cbn [fst snd]; rewrite R2; cbn [fst snd].
  refine (conj eq_refl (conj (same_calls_refl _)
            (conj (same_calls_refl _) (conj ND _)))).
  intros p; split.
  - intros Hp; apply still_conflicting_spec, KS, Hp.
  - intros Hp; apply KS, still_conflicting_spec, Hp.
Qed.

Lemma same_window_demo :
  same_window Fixtures.demo "w1" Fixtures.t_now (Fixtures.t_now + 5000000).
Proof. unfold same_window; repeat constructor. Qed.

Lemma window_starts_later :
  window_starts Fixtures.demo "w1" (Fixtures.t_now + 5000000).
Proof. reflexivity. Qed.

(** The amended statement at the sample database, the second run five
    seconds after the first. *)
Lemma conflict_engine_rerun_witness :
  blockers_pk Fixtures.demo
  /\ ["a.js"] <> @nil string
  /\ same_window Fixtures.demo "w1" Fixtures.t_now (Fixtures.t_now + 5000000)
  /\ window_starts Fixtures.demo "w1" Fixtures.t_now
  /\ window_starts Fixtures.demo "w1" (Fixtures.t_now + 5000000)
  /\ fst (runConflictEngine
            (fst (runConflictEngine Fixtures.demo "w1" ["a.js"] "feat-3"
                    Fixtures.t_now))
            "w1" ["a.js"] "feat-3" (Fixtures.t_now + 5000000))
     = fst (runConflictEngine Fixtures.demo "w1" ["a.js"] "feat-3"
              Fixtures.t_now).
Proof.
  assert (N : ["a.js"] <> @nil string) by discriminate.
  split; [exact blockers_pk_demo | split; [exact N |]].
  split; [exact same_window_demo |].
  split; [exact window_starts_demo | split; [exact window_starts_later |]].
  destruct (conflict_engine_rerun Fixtures.demo "w1" ["a.js"] ["a.js"]
              "feat-3" "feat-3" Fixtures.t_now (Fixtures.t_now + 5000000)
              blockers_pk_demo N N same_window_demo window_starts_demo
              window_starts_later) as [A _].
  exact A.
Defined.

(** What the first run does to the sample database: the stale blocker on
    [x.md] is resolved, blockers for [a.js] and [core.ts] are inserted. *)
Example first_run_on_demo :
  map (fun b => (b_id b, b_reference_id b, b_severity b, b_resolved b))
      (blockers (fst (runConflictEngine Fixtures.demo "w1" ["a.js"] "feat-3"
                        Fixtures.t_now)))
  = [ (1, "x.md", MEDIUM, true); (2, "F2", HIGH, false);
      (3, "a.js", LOW, false); (4, "a.js", LOW, true);
      (5, "a.js", MEDIUM, false); (6, "core.ts", HIGH, false) ].
Proof. vm_compute; reflexivity. Qed.

(** C2 as stated fails: on the sample database the second of two
    back-to-back runs calls [broadcastToWorkspace] twice, and the socket
    registered for the workspace receives both messages. *)
Lemma conflict_engine_rerun_broadcasts :
  snd (runConflictEngine
         (fst (runConflictEngine Fixtures.demo "w1" ["a.js"] "feat-3"
                 Fixtures.t_now))
         "w1" ["a.js"] "feat-3" (Fixtures.t_now + 5000000))
  = [ ("w1", CONFLICT_WARNING "a.js" ["feat-1"; "feat-2"] MEDIUM);
      ("w1", CONFLICT_WARNING "core.ts" [] HIGH) ]
  /\ snd (runConflictEngine
            (fst (runConflictEngine Fixtures.demo "w1" ["a.js"] "feat-3"
                    Fixtures.t_now))
            "w1" ["a.js"] "feat-3" (Fixtures.t_now + 5000000))
     <> []
  /\ deliver Fixtures.demo_clients
       (snd (runConflictEngine
               (fst (runConflictEngine Fixtures.demo "w1" ["a.js"] "feat-3"
                       Fixtures.t_now))
               "w1" ["a.js"] "feat-3" (Fixtures.t_now + 5000000)))
     = [ (mkSocket "u-alice" 1,
          CONFLICT_WARNING "a.js" ["feat-1"; "feat-2"] MEDIUM);
         (mkSocket "u-alice" 1, CONFLICT_WARNING "core.ts" [] HIGH) ].
Proof.
  split; [vm_compute; reflexivity | split].
  - vm_compute; discriminate.
  - vm_compute; reflexivity.
Qed.

End RerunProperties.

(* ------------------------------------------------------------------ *)
(** ** Inactive members *)

Module InactivityProperties.
Import HealthEngine Aux.

Lemma starts_with_spec (q : string) :
  forall t, starts_with q t = true <-> exists post, t = (q ++ post)%string.
Proof.
  induction q as [| a q IH]; intros t; simpl.
  - split; [intros _; now exists t | reflexivity].
  - destruct t as [| b t]; simpl.
    + split; [discriminate | intros [post E]; discriminate E].
    + rewrite andb_true_iff, Ascii.eqb_eq, IH; split.
      * intros [-> [post ->]]; now exists post.
      * intros [post E]; inversion E; subst; split; eauto.
Qed.

Lemma occurs_spec (needle hay : string) :
  occurs needle hay = true
  <-> exists pre post, hay = (pre ++ needle ++ post)%string.
Proof.
  induction hay as [| c hay IH]; simpl.
  - rewrite orb_false_r, starts_with_spec; split.
    + intros [post E]; now exists EmptyString, post.
    + intros [[| a pre] [post E]]; [now exists post | discriminate E].
  - rewrite orb_true_iff, starts_with_spec, IH; split.
    + intros [[post E] | [pre [post E]]].
      * now exists EmptyString, post.
      * exists (String c pre), post; simpl; now rewrite E.
    + intros [[| a pre] [post E]]; simpl in E.
      * left; now exists post.
      * right; inversion E; subst; now exists pre, post.
Qed.

Lemma MatchText_percent_nil (p : string) :
  MatchText (String "%" p) EmptyString = MatchText p EmptyString || false.
Proof. reflexivity. Qed.

Lemma MatchText_percent_cons (p : string) (c : ascii) (s : string) :
  MatchText (String "%" p) (String c s)
  = MatchText p (String c s) || MatchText (String "%" p) s.
Proof. reflexivity. Qed.

(** [%] followed by [p] matches [s] exactly when [p] matches a suffix of
    [s]. *)
Lemma MatchText_percent (p s : string) :
  MatchText (String "%" p) s = true
  <-> exists pre t, s = (pre ++ t)%string /\ MatchText p t = true.
Proof.
  induction s as [| c s IH].
  - rewrite MatchText_percent_nil, orb_false_r; split.
    + intros H; now exists EmptyString, EmptyString.
    + intros [[| a pre] [t [E H]]]; simpl in E; [now subst | discriminate E].
  - rewrite MatchText_percent_cons, orb_true_iff, IH; split.
    + intros [H | [pre [t [E H]]]].
      * now exists EmptyString, (String c s).
      * exists (String c pre), t; simpl; now rewrite E.
    + intros [[| a pre] [t [E H]]]; simpl in E.
      * left; now subst.
      * right; inversion E; subst; now exists pre, t.
Qed.

Lemma MatchText_char (c : ascii) (p s : string) :
  Ascii.eqb c "%" = false -> Ascii.eqb c "_" = false ->
  Ascii.eqb c "\" = false ->
  MatchText (String c p) s
  = match s with
    | EmptyString => false
    | String x s' => Ascii.eqb x c && MatchText p s'
    end.
Proof. intros H1 H2 H3; simpl; rewrite H1, H2, H3; reflexivity. Qed.

(** A literal prefix of the pattern must be matched character by
    character. *)
Lemma MatchText_literal (q r : string) :
  literal q = true ->
  forall t,
    MatchText (q ++ r) t = true
    <-> exists post, t = (q ++ post)%string /\ MatchText r post = true.
Proof.
  induction q as [| c q IH]; intros L t.
  - simpl; split; [intros H; now exists t | intros [post [-> H]]; exact H].
  - simpl in L; rewrite !andb_true_iff, !negb_true_iff in L.
    destruct L as [[[L1 L2] L3] L4].
    change (String c q ++ r)%string with (String c (q ++ r)%string).
    rewrite (MatchText_char c _ _ L1 L2 L3).
    destruct t as [| x t].
    + split; [discriminate | intros [post [E _]]; discriminate E].
    + rewrite andb_true_iff, Ascii.eqb_eq, (IH L4); split.
      * intros [-> [post [-> H]]]; now exists post.
      * intros [post [E H]]; inversion E; subst; split; eauto.
Qed.

Lemma MatchText_percent_only (s : string) : MatchText "%" s = true.
Proof.
  apply MatchText_percent; exists s, EmptyString; split; [| reflexivity].
  induction s as [| c s IH]; simpl; [reflexivity | now rewrite <- IH].
Qed.

Lemma lower_app (a b : string) :
  lower (a ++ b) = (lower a ++ lower b)%string.
Proof. induction a as [| c a IH]; simpl; [reflexivity | now rewrite IH]. Qed.

Lemma lower_char_special (c : ascii) :
  Ascii.eqb (lower_char c) "%" = Ascii.eqb c "%"
  /\ Ascii.eqb (lower_char c) "_" = Ascii.eqb c "_"
  /\ Ascii.eqb (lower_char c) "\" = Ascii.eqb c "\".
Proof.
  destruct c as [[] [] [] [] [] [] [] []]; vm_compute; repeat split.
Qed.

Lemma literal_lower (s : string) : literal (lower s) = literal s.
Proof.
  induction s as [| c s IH]; simpl; [reflexivity |].
  destruct (lower_char_special c) as [-> [-> ->]]; now rewrite IH.
Qed.

(** For a username without [LIKE] metacharacters, the [ILIKE] test of
    the query is the case-insensitive substring test. *)
Lemma ilike_contains (text u : string) :
  literal u = true ->
  ilike text ("%" ++ u ++ "%") = true <-> Spec.contains_ci text u.
Proof.
  intros L; unfold ilike, Spec.contains_ci.
  change ("%" ++ u ++ "%")%string with (String "%" (u ++ "%")%string).
  change (lower (String "%" (u ++ "%")))
    with (String "%" (lower (u ++ "%"))).
  rewrite lower_app, MatchText_percent.
  change (lower "%") with "%"%string.
  rewrite <- literal_lower in L; split.
  - intros [pre [t [E H]]].
    apply (MatchText_literal _ _ L) in H; destruct H as [post [-> _]].
    now exists pre, post.
  - intros [pre [post E]].
    exists pre, (lower u ++ post)%string; split; [exact E |].
    apply (MatchText_literal _ _ L); exists post; split; [reflexivity |].
    apply MatchText_percent_only.
Qed.

(** C10, at the failing input.  Member [a_b] has recent activity only on
    branch [feature/axb], which does not contain the username; the
    query's pattern [%a_b%] matches it all the same, so the member is
    not counted as inactive. *)
Theorem inactive_count_wildcard_username :
  _getInactiveMemberCount Fixtures.wildcard_db "w1" Fixtures.t_now = 0
  /\ ~ Spec.contains_ci "feature/axb" "a_b"
  /\ ilike "feature/axb" "%a_b%" = true.
Proof.
  split; [vm_compute; reflexivity | split; [| vm_compute; reflexivity]].
  unfold Spec.contains_ci; rewrite <- occurs_spec.
  vm_compute; discriminate.
Qed.

(** Away from the metacharacters the query counts as C10 describes: a
    member is counted exactly when no row of the workspace updated within
    the last seven days has a branch name containing the username,
    ignoring case. *)
Lemma inactive_count_literal_usernames (d : db) (w : string) (now : Z) :
  Forall (fun u => literal (u_github_username u) = true) (users d) ->
  forall u, In u (users d) ->
    (In u (filter
             (fun u =>
                String.eqb (u_workspace_id u) w
                && negb
                     (existsb
                        (fun fa =>
                           String.eqb (fa_workspace_id fa) w
                           && (now - Sql.seven_days <=? fa_updated_at fa)
                           && ilike (fa_branch_name fa)
                                ("%" ++ u_github_username u ++ "%")%string)
                        (file_activity d)))
             (users d))
     <-> u_workspace_id u = w
         /\ ~ exists fa, In fa (file_activity d)
                         /\ fa_workspace_id fa = w
                         /\ now - Sql.seven_days <= fa_updated_at fa
                         /\ Spec.contains_ci (fa_branch_name fa)
                                             (u_github_username u)).
Proof.
  intros HL u Hu; rewrite Forall_forall in HL; specialize (HL u Hu).
  rewrite filter_In, andb_true_iff, String.eqb_eq, negb_true_iff.
  rewrite <- not_true_iff_false, existsb_exists.
  split.
  - intros [_ [Hw Hn]]; split; [exact Hw |].
    intros [fa [Hfa [Hfw [Ht Hc]]]]; apply Hn; exists fa; split; [exact Hfa |].
    rewrite !andb_true_iff, String.eqb_eq, Z.leb_le.
    repeat split; auto; now apply ilike_contains.
  - intros [Hw Hn]; split; [exact Hu | split; [exact Hw |]].
    intros [fa [Hfa Hc]]; apply Hn; exists fa; split; [exact Hfa |].
    rewrite !andb_true_iff, String.eqb_eq, Z.leb_le in Hc.
    destruct Hc as [[Hfw Ht] Hc]; repeat split; auto.
    now apply ilike_contains.
Qed.

End InactivityProperties.

(* ------------------------------------------------------------------ *)
(** ** Health score *)

Module HealthProperties.
Import WsManager HealthEngine.

Lemma Math_round_rounds (x : Q) : Spec.rounds_to x (Math_round x).
Proof.
  unfold Spec.rounds_to, Math_round.
  pose proof (Qfloor_le (x + (1 # 2))) as L.
  pose proof (Qlt_floor (x + (1 # 2))) as U.
  rewrite inject_Z_plus in U; change (inject_Z 1) with 1%Q in U.
  split; lra.
Qed.

Lemma rounds_to_unique (x : Q) (n m : Z) :
  Spec.rounds_to x n -> Spec.rounds_to x m -> n = m.
Proof.
  unfold Spec.rounds_to; intros [L1 U1] [L2 U2].
  assert (A : (inject_Z n < inject_Z m + 1)%Q) by lra.
  assert (B : (inject_Z m < inject_Z n + 1)%Q) by lra.
  change 1%Q with (inject_Z 1) in A, B.
  rewrite <- inject_Z_plus in A, B.
  rewrite <- Zlt_Qlt in A, B; lia.
Qed.

Lemma Math_round_eq (x y : Q) : (x == y)%Q -> Math_round x = Math_round y.
Proof. intros E; unfold Math_round; now rewrite E. Qed.

Lemma score_of_raw_clamp (raw : Q) :
  score_of_raw raw = Spec.clamp (Math_round raw) 0 100.
Proof.
  unfold score_of_raw, Spec.clamp.
  destruct (Math_round raw <? 0) eqn:A; [apply Z.ltb_lt in A; lia |].
  apply Z.ltb_ge in A.
  destruct (100 <? Math_round raw) eqn:B;
    [apply Z.ltb_lt in B | apply Z.ltb_ge in B]; lia.
Qed.

Lemma raw_score_spec (avg : Q) (t c i : Z) :
  (raw_score avg t c i == Spec.health_raw avg t c i)%Q.
Proof.
  unfold raw_score, Spec.health_raw.
  rewrite !inject_Z_mult.
  change (inject_Z 5) with 5%Q; change (inject_Z 3) with 3%Q; lra.
Qed.

(** The score as a function of what the three queries return. *)
Lemma score_formula (d : db) (w : string) (now : Z) :
  exists n,
    Spec.rounds_to
      (Spec.health_raw (_getFeatureCompletionAvg d w)
         (fst (_getBlockerCounts d w)) (snd (_getBlockerCounts d w))
         (_getInactiveMemberCount d w now)) n
    /\ fst (snd (recalculate d w now)) = Spec.clamp n 0 100
    /\ workspaces (fst (fst (recalculate d w now)))
       = map (fun x =>
                if String.eqb (ws_id x) w
                then mkWorkspace (ws_id x) (ws_github_repo_id x)
                                 (Spec.clamp n 0 100)
                                 (ws_activity_window_hours x)
                else x)
             (workspaces d)
    /\ set_workspaces (fst (fst (recalculate d w now))) (workspaces d) = d
    /\ snd (fst (recalculate d w now))
       = [(w, HEALTH_UPDATE (Spec.clamp n 0 100)
                (snd (snd (recalculate d w now))))]
    /\ (filter (fun f => String.eqb (f_workspace_id f) w) (features d) = []
        -> _getFeatureCompletionAvg d w = inject_Z 0)
    /\ (forall raw, (raw == inject_Z (-42))%Q -> score_of_raw raw = 0)
    /\ (forall raw, (raw == inject_Z 118)%Q -> score_of_raw raw = 100)
    /\ (snd (snd (recalculate d w now)) = HEALTHY
        <-> 80 <= Spec.clamp n 0 100)
    /\ (snd (snd (recalculate d w now)) = WARNING
        <-> 50 <= Spec.clamp n 0 100 < 80)
    /\ (snd (snd (recalculate d w now)) = CRITICAL
        <-> Spec.clamp n 0 100 < 50).
Proof.
  set (raw := raw_score (_getFeatureCompletionAvg d w)
                (fst (_getBlockerCounts d w)) (snd (_getBlockerCounts d w))
                (_getInactiveMemberCount d w now)).
  exists (Math_round raw).
  assert (S : fst (snd (recalculate d w now))
              = Spec.clamp (Math_round raw) 0 100)
    by (apply score_of_raw_clamp).
  assert (R : snd (snd (recalculate d w now))
              = risk_of_score (Spec.clamp (Math_round raw) 0 100))
    by (rewrite <- S; reflexivity).
  split; [| split; [exact S | split; [| split; [| split]]]].
  - pose proof (Math_round_rounds raw) as [L U].
    pose proof (raw_score_spec (_getFeatureCompletionAvg d w)
                  (fst (_getBlockerCounts d w)) (snd (_getBlockerCounts d w))
                  (_getInactiveMemberCount d w now)) as E.
    fold raw in E; clearbody raw.
    unfold Spec.rounds_to; split; lra.
  - rewrite <- S; reflexivity.
  - destruct d; reflexivity.
  - rewrite <- S; reflexivity.
  - split; [| split; [| split]].
    + unfold _getFeatureCompletionAvg; intros ->; reflexivity.
    + intros r E; unfold score_of_raw.
      rewrite (Math_round_eq _ _ E); reflexivity.
    + intros r E; unfold score_of_raw.
      rewrite (Math_round_eq _ _ E); reflexivity.
    + rewrite R; unfold risk_of_score.
      destruct (80 <=? Spec.clamp (Math_round raw) 0 100) eqn:A;
        [apply Z.leb_le in A | apply Z.leb_gt in A];
        (destruct (50 <=? Spec.clamp (Math_round raw) 0 100) eqn:B;
         [apply Z.leb_le in B | apply Z.leb_gt in B]);
        repeat split; intros; try discriminate; try lia; try reflexivity.
Qed.

Lemma counts_filter {A} (P : A -> Prop) (p : A -> bool) (l : list A) :
  (forall x, In x l -> (p x = true <-> P x)) ->
  Spec.counts P l (Sql.count (filter p l)).
Proof.
  unfold Sql.count; induction l as [| a l IH]; intros H;
    [constructor |].
  assert (IH' : Spec.counts P l (Z.of_nat (List.length (filter p l))))
    by (apply IH; intros x Hx; apply H; now right).
  simpl; destruct (p a) eqn:E.
  - simpl List.length; rewrite Nat2Z.inj_succ, <- Z.add_1_r.
    constructor; [apply H; [now left | exact E] | exact IH'].
  - apply Spec.counts_out; [| exact IH'].
    intros C; apply H in C; [congruence | now left].
Qed.

Lemma sums_filter {A} (P : A -> Prop) (p : A -> bool) (v : A -> Z)
  (l : list A) :
  (forall x, p x = true <-> P x) ->
  Spec.sums P v l (fold_right Z.add 0 (map v (filter p l))).
Proof.
  intros H; induction l as [| a l IH]; [constructor |].
  simpl; destruct (p a) eqn:E.
  - simpl; constructor; [now apply H | exact IH].
  - apply Spec.sums_out; [| exact IH].
    intros C; apply H in C; congruence.
Qed.

Lemma filter_filter_and {A} (p q : A -> bool) (l : list A) :
  filter q (filter p l) = filter (fun x => p x && q x) l.
Proof.
  induction l as [| a l IH]; [reflexivity |].
  simpl; destruct (p a); simpl; [destruct (q a) |]; now rewrite IH.
Qed.

(** The average the query returns is the mean over the workspace's
    features. *)
Lemma completion_avg_mean (d : db) (w : string) :
  Spec.mean_completion d w (_getFeatureCompletionAvg d w).
Proof.
  unfold _getFeatureCompletionAvg.
  set (p := fun f => String.eqb (f_workspace_id f) w).
  assert (Hp : forall f, p f = true <-> f_workspace_id f = w)
    by (intros f; apply String.eqb_eq).
  exists (Sql.count (filter p (features d))),
         (fold_right Z.add 0
            (map f_completion_percentage (filter p (features d)))).
  split; [apply counts_filter; intros f _; apply Hp |].
  split; [now apply sums_filter |].
  destruct (filter p (features d)) as [| f l] eqn:E.
  - left; split; reflexivity.
  - right; split; [| reflexivity].
    unfold Sql.count; simpl List.length; lia.
Qed.

(** The two counts of [_getBlockerCounts] are counts over the blockers
    table. *)
Lemma blocker_counts_count (d : db) (w : string) :
  Spec.counts (Spec.unresolved_blocker w) (blockers d)
    (fst (_getBlockerCounts d w))
  /\ Spec.counts (Spec.unresolved_conflict_blocker w) (blockers d)
       (snd (_getBlockerCounts d w)).
Proof.
  unfold _getBlockerCounts; cbn [fst snd]; split.
  - apply counts_filter; intros b _; unfold Spec.unresolved_blocker.
    rewrite andb_true_iff, String.eqb_eq, negb_true_iff; tauto.
  - rewrite filter_filter_and.
    apply counts_filter; intros b _.
    unfold Spec.unresolved_conflict_blocker, Spec.unresolved_blocker.
    rewrite !andb_true_iff, String.eqb_eq, negb_true_iff.
    rewrite BlockerFacts.blocker_type_eqb_eq; tauto.
Qed.

(** Where usernames hold no pattern character, the count of
    [_getInactiveMemberCount] is the number of inactive members. *)
Lemma inactive_count_count (d : db) (w : string) (now : Z) :
  Aux.plain_names d w ->
  Spec.counts (Spec.inactive_member d w now) (users d)
    (_getInactiveMemberCount d w now).
Proof.
  intros [Hu _]; unfold _getInactiveMemberCount.
  apply counts_filter; intros u Hin; unfold Spec.inactive_member.
  rewrite andb_true_iff, String.eqb_eq, negb_true_iff.
  rewrite <- not_true_iff_false, existsb_exists.
  split.
  - intros [Hw Hn]; split; [exact Hw |].
    destruct (Hu u Hin Hw) as [L _].
    intros [fa [Hfa [Hfw [Ht Hc]]]]; apply Hn; exists fa; split; [exact Hfa |].
    rewrite !andb_true_iff, String.eqb_eq, Z.leb_le.
    repeat split; auto.
    now apply InactivityProperties.ilike_contains.
  - intros [Hw Hn]; split; [exact Hw |].
    destruct (Hu u Hin Hw) as [L _].
    intros [fa [Hfa Hc]]; apply Hn; exists fa; split; [exact Hfa |].
    rewrite !andb_true_iff, String.eqb_eq, Z.leb_le in Hc.
    destruct Hc as [[Hfw Ht] Hc]; repeat split; auto.
    now apply InactivityProperties.ilike_contains.
Qed.

(** C7. The Health Engine persists, on the workspace's row and on no
    other, the raw value rounded half-up and clamped to 0..100; the
    average is 0 for a workspace without features; a raw value of -42
    gives 0 and one of 118 gives 100; the broadcast carries the score and
    the tier HEALTHY from 80, WARNING from 50 to 79, CRITICAL below.
    The four inputs of the raw value are read off the tables: the
    average is the mean completion over the workspace's features, the
    two blocker counts count its unresolved blockers and those of type
    FILE_CONFLICT_RISK among them, and the member count counts its
    inactive members, this last where the names involved are plain
    ASCII without [LIKE] pattern characters. *)
Theorem health_score_formula (d : db) (w : string) (now : Z) :
  exists n,
    Spec.rounds_to
      (Spec.health_raw (_getFeatureCompletionAvg d w)
         (fst (_getBlockerCounts d w)) (snd (_getBlockerCounts d w))
         (_getInactiveMemberCount d w now)) n
    /\ fst (snd (recalculate d w now)) = Spec.clamp n 0 100
    /\ workspaces (fst (fst (recalculate d w now)))
       = map (fun x =>
                if String.eqb (ws_id x) w
                then mkWorkspace (ws_id x) (ws_github_repo_id x)
                                 (Spec.clamp n 0 100)
                                 (ws_activity_window_hours x)
                else x)
             (workspaces d)
    /\ set_workspaces (fst (fst (recalculate d w now))) (workspaces d) = d
    /\ snd (fst (recalculate d w now))
       = [(w, HEALTH_UPDATE (Spec.clamp n 0 100)
                (snd (snd (recalculate d w now))))]
    /\ (filter (fun f => String.eqb (f_workspace_id f) w) (features d) = []
        -> _getFeatureCompletionAvg d w = inject_Z 0)
    /\ (forall raw, (raw == inject_Z (-42))%Q -> score_of_raw raw = 0)
    /\ (forall raw, (raw == inject_Z 118)%Q -> score_of_raw raw = 100)
    /\ (snd (snd (recalculate d w now)) = HEALTHY
        <-> 80 <= Spec.clamp n 0 100)
    /\ (snd (snd (recalculate d w now)) = WARNING
        <-> 50 <= Spec.clamp n 0 100 < 80)
    /\ (snd (snd (recalculate d w now)) = CRITICAL
        <-> Spec.clamp n 0 100 < 50)
    /\ Spec.mean_completion d w (_getFeatureCompletionAvg d w)
    /\ Spec.counts (Spec.unresolved_blocker w) (blockers d)
         (fst (_getBlockerCounts d w))
    /\ Spec.counts (Spec.unresolved_conflict_blocker w) (blockers d)
         (snd (_getBlockerCounts d w))
    /\ (Aux.plain_names d w ->
        Spec.counts (Spec.inactive_member d w now) (users d)
          (_getInactiveMemberCount d w now)).
Proof.
  destruct (score_formula d w now)
    as [n [H1 [H2 [H3 [H4 [H5 [H6 [H7 [H8 [H9 [H10 H11]]]]]]]]]]].
  destruct (blocker_counts_count d w) as [B1 B2].
  exists n.
  refine (conj H1 (conj H2 (conj H3 (conj H4 (conj H5 (conj H6 (conj H7
            (conj H8 (conj H9 (conj H10 (conj H11 
            (conj (completion_avg_mean d w) (conj B1 (conj B2 _)))))))))))))).
  apply inactive_count_count.
Qed.

Lemma plain_names_health_db : Aux.plain_names Fixtures.health_db "w1".
Proof.
  split.
  - intros u [<- | [<- | [<- | []]]] Hw; try discriminate Hw;
      split; reflexivity.
  - intros fa [<- | []] _; reflexivity.
Qed.

(** C7 at a workspace with two features, two unresolved blockers of
    which one is a conflict, and one inactive member of two:
    0.4 * 97.5 - 5 * 2 - 3 * 1 - 5 * 1 = 21. *)
Lemma health_score_formula_witness :
  Aux.plain_names Fixtures.health_db "w1"
  /\ Spec.counts (Spec.inactive_member Fixtures.health_db "w1"
                    Fixtures.t_now)
       (users Fixtures.health_db) 1
  /\ Spec.counts (Spec.unresolved_blocker "w1")
       (blockers Fixtures.health_db) 2
  /\ Spec.counts (Spec.unresolved_conflict_blocker "w1")
       (blockers Fixtures.health_db) 1
  /\ fst (snd (recalculate Fixtures.health_db "w1" Fixtures.t_now)) = 21.
Proof.
  destruct (health_score_formula Fixtures.health_db "w1" Fixtures.t_now)
    as [n [_ [_ [_ [_ [_ [_ [_ [_ [_ [_ [_ [_ [B1 [B2 I]]]]]]]]]]]]]]].
  split; [exact plain_names_health_db |].
  split; [exact (I plain_names_health_db) |].
  split; [exact B1 | split; [exact B2 |]].
  vm_compute; reflexivity.
Defined.

(** The rational model against the source's doubles.  A raw value falls
    on a tie only when the average is an odd multiple of 1.25; for every
    such average up to 100 the binary64 product with 0.4 is the tie
    itself, so [Math.round] sees the same value in both readings. *)
Lemma binary64_ties : forallb Aux.tie_exact (seq 0 40) = true.
Proof. vm_compute; reflexivity. Qed.

(** Six unresolved blockers, four of them conflicts, and no features
    give a raw value of -42; an average of 295 alone would give 118. *)
Example raw_boundaries :
  (raw_score (inject_Z 0) 6 4 0 == inject_Z (-42))%Q
  /\ score_of_raw (raw_score (inject_Z 0) 6 4 0) = 0
  /\ (raw_score (inject_Z 295) 0 0 0 == inject_Z 118)%Q
  /\ score_of_raw (raw_score (inject_Z 295) 0 0 0) = 100.
Proof. repeat split. Qed.

(** The sample workspace: average 60.75, two unresolved blockers of which
    one conflict, two inactive members; raw 1.3, score 1. *)
Example recalculate_on_demo :
  snd (recalculate Fixtures.demo "w1" Fixtures.t_now) = (1, CRITICAL)
  /\ map ws_health_score
         (workspaces (fst (fst (recalculate Fixtures.demo "w1"
                                  Fixtures.t_now))))
     = [1; 100].
Proof. split; vm_compute; reflexivity. Qed.

End HealthProperties.

(* ------------------------------------------------------------------ *)
(** ** Feature Engine: BLOCKED exactly when a dependency is incomplete *)

Module FeatureProperties.
Import WsManager BlockerService FeatureEngine.
Import Aux BlockerFacts.

Lemma feature_status_eqb_eq (a b : feature_status) :
  feature_status_eqb a b = true <-> a = b.
Proof. destruct a, b; simpl; split; congruence. Qed.

Lemma features_pk_same_row (l : list feature) (x y : feature) :
  NoDup (map f_id l) -> In x l -> In y l -> f_id x = f_id y -> x = y.
Proof.
  induction l as [| a l IH]; simpl; [tauto |].
  intros ND Hx Hy E; inversion ND as [| ? ? Hn ND']; subst.
  destruct Hx as [-> | Hx], Hy as [-> | Hy]; auto.
  - exfalso; apply Hn; rewrite E; now apply in_map.
  - exfalso; apply Hn; rewrite <- E; now apply in_map.
Qed.

Lemma touch_id fid st pct g : f_id (touch fid st pct g) = f_id g.
Proof. unfold touch; destruct (String.eqb (f_id g) fid); reflexivity. Qed.

Lemma touch_other fid st pct g : f_id g <> fid -> touch fid st pct g = g.
Proof.
  intros H; unfold touch; apply String.eqb_neq in H; now rewrite H.
Qed.

Lemma insert_dependency_block_frame (d : db) (w fid desc : string) (now : Z) :
  exists bs, insert_dependency_block d w fid desc now = set_blockers d bs.
Proof.
  unfold insert_dependency_block.
  destruct (existsb _ (blockers d)); eauto.
  exists (blockers d); destruct d; reflexivity.
Qed.

(** The loop body, seen from the features table. *)
Lemma process_feature_features (d : db) (w : string) (f : feature) (now : Z) :
  features (fst (process_feature d w f now))
  = map (touch (f_id f) (decided_status d f)
               (Z.min 95 (f_completion_percentage f + 5)))
        (features d).
Proof.
  unfold process_feature, decided_status.
  destruct (incomplete_dependencies d (f_id f)) as [| r rs].
  - destruct (feature_status_eqb (f_status f) BLOCKED);
      simpl; rewrite ?map_map; apply map_ext; intros g; unfold touch;
      destruct (String.eqb (f_id g) (f_id f)) eqn:E; simpl; rewrite ?E;
      reflexivity.
  - cbn [fst].
    destruct (insert_dependency_block_frame
                (update_status d (f_id f) BLOCKED) w (f_id f)
                ("Feature " ++ double_quote ++ f_name f ++ double_quote
                 ++ " blocked by: "
                 ++ String.concat ", " (map dr_name (r :: rs)))%string now)
      as [bs ->].
    simpl; rewrite map_map; apply map_ext; intros g; unfold touch;
      destruct (String.eqb (f_id g) (f_id f)) eqn:E; simpl; rewrite ?E;
      reflexivity.
Qed.

Lemma process_feature_dependencies (d : db) (w : string) (f : feature)
  (now : Z) :
  feature_dependencies (fst (process_feature d w f now))
  = feature_dependencies d.
Proof.
  unfold process_feature.
  destruct (incomplete_dependencies d (f_id f)) as [| r rs];
    [destruct (feature_status_eqb (f_status f) BLOCKED); reflexivity |].
  cbn [fst].
  destruct (insert_dependency_block_frame
              (update_status d (f_id f) BLOCKED) w (f_id f)
              ("Feature " ++ double_quote ++ f_name f ++ double_quote
               ++ " blocked by: "
               ++ String.concat ", " (map dr_name (r :: rs)))%string now)
    as [bs ->].
  reflexivity.
Qed.

(** The dependency query returns a row exactly when some upstream
    dependency is incomplete. *)
Lemma incomplete_dependencies_row (d : db) (fid : string) :
  (exists r, In r (incomplete_dependencies d fid))
  <-> Spec.has_incomplete_upstream d fid.
Proof.
  unfold incomplete_dependencies, Spec.has_incomplete_upstream.
  set (rows := filter _ (Sql.join _ (feature_dependencies d) (features d))).
  assert (R : forall j, In j rows <->
             In (fst j) (feature_dependencies d) /\ In (snd j) (features d)
             /\ fd_feature_id (fst j) = fid
             /\ f_id (snd j) = fd_depends_on_feature_id (fst j)
             /\ f_status (snd j) <> COMPLETE).
  { intros [dep g]; unfold rows.
    rewrite filter_In, ConflictSetFacts.join_In, andb_true_iff,
      !String.eqb_eq, negb_true_iff, <- not_true_iff_false,
      feature_status_eqb_eq.
    simpl; tauto. }
  split.
  - intros [r Hr]; apply in_map_iff in Hr; destruct Hr as [j [_ Hj]].
    exists (fst j), (snd j); now apply R.
  - intros [dep [g H]]; eexists; apply in_map.
    apply (R (dep, g)); simpl; tauto.
Qed.

Lemma incomplete_dependencies_nil (d : db) (fid : string) :
  incomplete_dependencies d fid = [] <-> ~ Spec.has_incomplete_upstream d fid.
Proof.
  rewrite <- incomplete_dependencies_row; split.
  - intros -> [r []].
  - intros N; destruct (incomplete_dependencies d fid) as [| r rs];
      [reflexivity | exfalso; apply N; exists r; now left].
Qed.

(** An incomplete upstream dependency, read off the completeness of the
    rows. *)
Lemma has_incomplete_upstream_key (d : db) (fid : string) :
  Spec.has_incomplete_upstream d fid
  <-> exists dep, In dep (feature_dependencies d)
                  /\ fd_feature_id dep = fid
                  /\ In (fd_depends_on_feature_id dep, false)
                        (map complete_key (features d)).
Proof.
  unfold Spec.has_incomplete_upstream, complete_key; split.
  - intros [dep [g [Hd [Hg [Hf [Hi Hs]]]]]]; exists dep; repeat split; auto.
    apply in_map_iff; exists g; split; [| exact Hg].
    rewrite Hi; f_equal.
    apply not_true_iff_false; now rewrite feature_status_eqb_eq.
  - intros [dep [Hd [Hf Hk]]]; apply in_map_iff in Hk.
    destruct Hk as [g [E Hg]]; inversion E as [[Hi Hs]].
    exists dep, g; repeat split; auto.
    intros C; apply feature_status_eqb_eq in C; congruence.
Qed.

Lemma has_incomplete_upstream_stable (d d' : db) (fid : string) :
  feature_dependencies d' = feature_dependencies d ->
  map complete_key (features d') = map complete_key (features d) ->
  Spec.has_incomplete_upstream d' fid <-> Spec.has_incomplete_upstream d fid.
Proof.
  intros Hd Hk; rewrite !has_incomplete_upstream_key, Hd, Hk; tauto.
Qed.

(** The loop body never changes whether a row is COMPLETE. *)
Lemma process_feature_complete_key (d : db) (w : string) (f : feature)
  (now : Z) :
  features_pk d -> In f (features d) -> f_status f <> COMPLETE ->
  map complete_key (features (fst (process_feature d w f now)))
  = map complete_key (features d).
Proof.
  intros PK Hf Hs; rewrite process_feature_features, map_map.
  apply map_ext_in; intros g Hg; unfold touch, complete_key.
  destruct (String.eqb (f_id g) (f_id f)) eqn:E; [| reflexivity].
  apply String.eqb_eq in E.
  rewrite (features_pk_same_row _ _ _ PK Hg Hf E); simpl; f_equal.
  assert (N : feature_status_eqb (f_status f) COMPLETE = false)
    by (apply not_true_iff_false; now rewrite feature_status_eqb_eq).
  unfold decided_status.
  destruct (incomplete_dependencies d (f_id f));
    [destruct (feature_status_eqb (f_status f) BLOCKED) |]; simpl; auto.
Qed.

(** The status the loop body leaves on the feature's own row. *)
Lemma decided_status_blocked (d : db) (f : feature) :
  f_status f <> COMPLETE ->
  (match decided_status d f with Some x => x | None => f_status f end
   = BLOCKED <-> Spec.has_incomplete_upstream d (f_id f))
  /\ (~ Spec.has_incomplete_upstream d (f_id f) ->
      match decided_status d f with Some x => x | None => f_status f end
      = ACTIVE).
Proof.
  intros Hs; unfold decided_status.
  destruct (incomplete_dependencies d (f_id f)) as [| r rs] eqn:E.
  - assert (Hn : ~ Spec.has_incomplete_upstream d (f_id f))
      by now apply incomplete_dependencies_nil.
    destruct (f_status f) eqn:S; simpl; try congruence;
      split; try reflexivity; split; intros; try discriminate; tauto.
  - assert (Hy : Spec.has_incomplete_upstream d (f_id f)).
    { apply incomplete_dependencies_row; rewrite E; exists r; now left. }
    split; [tauto | intros C; tauto].
Qed.

(** The loop body, seen from the blockers table. *)
Lemma process_feature_blockers (d : db) (w : string) (f : feature) (now : Z) :
  (incomplete_dependencies d (f_id f) = []
   /\ f_status f = BLOCKED
   /\ blockers (fst (process_feature d w f now))
      = map (fun b => if same_key w DEPENDENCY_BLOCK (f_id f) b
                      then mark_resolved b else b)
            (blockers d))
  \/ (~ (incomplete_dependencies d (f_id f) = [] /\ f_status f = BLOCKED)
      /\ (blockers (fst (process_feature d w f now)) = blockers d
          \/ exists id desc,
               blockers (fst (process_feature d w f now))
               = blockers d
                 ++ [mkBlocker id w DEPENDENCY_BLOCK (f_id f) desc HIGH
                               false now])).
Proof.
  unfold process_feature.
  destruct (incomplete_dependencies d (f_id f)) as [| r rs].
  - destruct (feature_status_eqb (f_status f) BLOCKED) eqn:S.
    + left; apply feature_status_eqb_eq in S; repeat split; auto.
    + right; split; [| left; reflexivity].
      intros [_ C]; apply feature_status_eqb_eq in C; congruence.
  - right; split; [intros [C _]; discriminate C |].
    cbn [fst]; unfold insert_dependency_block.
    change (blockers (update_status d (f_id f) BLOCKED)) with (blockers d).
    destruct (existsb _ (blockers d)); [left; reflexivity |].
    right; eexists; eexists; reflexivity.
Qed.

Lemma process_feature_keeps_resolved (d : db) (w fid : string) (f : feature)
  (now : Z) :
  f_id f <> fid ->
  all_resolved w fid (blockers d) ->
  all_resolved w fid (blockers (fst (process_feature d w f now))).
Proof.
  intros Hne H b Hb Hk.
  destruct (process_feature_blockers d w f now)
    as [[_ [_ E]] | [_ [E | [id [desc E]]]]]; rewrite E in Hb.
  - apply in_map_iff in Hb; destruct Hb as [b0 [Eb Hb0]].
    destruct (same_key w DEPENDENCY_BLOCK (f_id f) b0); subst b;
      [reflexivity | now apply H].
  - now apply H.
  - apply in_app_iff in Hb; destruct Hb as [Hb | [<- | []]]; [now apply H |].
    apply same_key_iff in Hk; simpl in Hk; tauto.
Qed.

Lemma process_feature_resolves (d : db) (w : string) (f : feature) (now : Z) :
  f_status f = BLOCKED -> ~ Spec.has_incomplete_upstream d (f_id f) ->
  all_resolved w (f_id f) (blockers (fst (process_feature d w f now))).
Proof.
  intros Hs Hn b Hb Hk.
  apply incomplete_dependencies_nil in Hn.
  destruct (process_feature_blockers d w f now) as [[_ [_ E]] | [C _]];
    [| tauto].
  rewrite E in Hb; apply in_map_iff in Hb; destruct Hb as [b0 [Eb Hb0]].
  destruct (same_key w DEPENDENCY_BLOCK (f_id f) b0) eqn:K; subst b;
    [reflexivity | congruence].
Qed.

Lemma process_feature_ids (d : db) (w : string) (f : feature) (now : Z) :
  map f_id (features (fst (process_feature d w f now)))
  = map f_id (features d).
Proof.
  rewrite process_feature_features, map_map.
  apply map_ext; intros; apply touch_id.
Qed.

Lemma process_feature_other_rows (d : db) (w : string) (f g : feature)
  (now : Z) :
  In g (features d) -> f_id g <> f_id f ->
  In g (features (fst (process_feature d w f now))).
Proof.
  intros Hg Hne; rewrite process_feature_features.
  rewrite <- (touch_other (f_id f) (decided_status d f)
                (Z.min 95 (f_completion_percentage f + 5)) g Hne) at 1.
  now apply in_map.
Qed.

(** The loop, from any database whose rows to process are as loaded. *)
Lemma process_all_spec (w : string) (now : Z) (fs : list feature) :
  forall (d : db) (evs : list broadcast),
    features_pk d -> NoDup (map f_id fs) ->
    (forall f, In f fs -> In f (features d) /\ f_status f <> COMPLETE) ->
    map f_id (features
                (fst (fold_left
                        (fun acc f =>
                           let r := process_feature (fst acc) w f now in
                           (fst r, snd acc ++ snd r)) fs (d, evs))))
    = map f_id (features d)
    /\ feature_dependencies
         (fst (fold_left
                 (fun acc f =>
                    let r := process_feature (fst acc) w f now in
                    (fst r, snd acc ++ snd r)) fs (d, evs)))
       = feature_dependencies d
    /\ map complete_key
         (features
            (fst (fold_left
                    (fun acc f =>
                       let r := process_feature (fst acc) w f now in
                       (fst r, snd acc ++ snd r)) fs (d, evs))))
       = map complete_key (features d)
    /\ (forall g, In g (features d) ->
                  (forall f, In f fs -> f_id f <> f_id g) ->
                  In g (features
                          (fst (fold_left
                                  (fun acc f =>
                                     let r :=
                                       process_feature (fst acc) w f now in
                                     (fst r, snd acc ++ snd r)) fs (d, evs)))))
    /\ (forall f f',
           In f fs ->
           In f' (features
                    (fst (fold_left
                            (fun acc f =>
                               let r := process_feature (fst acc) w f now in
                               (fst r, snd acc ++ snd r)) fs (d, evs)))) ->
           f_id f' = f_id f ->
           (f_status f' = BLOCKED
            <-> Spec.has_incomplete_upstream d (f_id f))
           /\ (~ Spec.has_incomplete_upstream d (f_id f) ->
               f_status f' = ACTIVE))
    /\ (forall fid,
           all_resolved w fid (blockers d) ->
           (forall f, In f fs -> f_id f <> fid) ->
           all_resolved w fid
             (blockers
                (fst (fold_left
                        (fun acc f =>
                           let r := process_feature (fst acc) w f now in
                           (fst r, snd acc ++ snd r)) fs (d, evs)))))
    /\ (forall f,
           In f fs -> f_status f = BLOCKED ->
           ~ Spec.has_incomplete_upstream d (f_id f) ->
           all_resolved w (f_id f)
             (blockers
                (fst (fold_left
                        (fun acc f =>
                           let r := process_feature (fst acc) w f now in
                           (fst r, snd acc ++ snd r)) fs (d, evs))))).
Proof.
  induction fs as [| f rest IH]; intros d evs PK ND Hfs.
  - simpl; refine (conj _ (conj _ (conj _ (conj _ (conj _ (conj _ _))))));
      auto; intros; contradiction.
  - inversion ND as [| ? ? Hf ND']; subst.
    destruct (Hfs f (or_introl eq_refl)) as [Hin Hst].
    set (d1 := fst (process_feature d w f now)).
    assert (PK1 : features_pk d1)
      by (unfold features_pk, d1; now rewrite process_feature_ids).
    assert (Hrest : forall g, In g rest ->
                      In g (features d1) /\ f_status g <> COMPLETE).
    { intros g Hg; destruct (Hfs g (or_intror Hg)) as [Hgin Hgs].
      split; [| exact Hgs].
      apply process_feature_other_rows; [exact Hgin |].
      intros E; apply Hf; rewrite <- E; now apply in_map. }
    assert (D1 : feature_dependencies d1 = feature_dependencies d)
      by apply process_feature_dependencies.
    assert (K1 : map complete_key (features d1)
                 = map complete_key (features d))
      by now apply process_feature_complete_key.
    assert (St : forall fid, Spec.has_incomplete_upstream d1 fid
                             <-> Spec.has_incomplete_upstream d fid)
      by (intros; now apply has_incomplete_upstream_stable).
    simpl fold_left.
    change (fst (process_feature (fst (d, evs)) w f now)) with d1.
    destruct (IH d1 (snd (d, evs) ++ snd (process_feature (fst (d, evs)) w f now))
                 PK1 ND' Hrest)
      as [I1 [I2 [I3 [I4 [I5 [I6 I7]]]]]].
    set (d' := fst (fold_left _ rest _)) in *.
    refine (conj _ (conj _ (conj _ (conj _ (conj _ (conj _ _)))))).
    + rewrite I1; apply process_feature_ids.
    + now rewrite I2.
    + now rewrite I3.
    + intros g Hg Hne; apply I4.
      * apply process_feature_other_rows; [exact Hg |].
        intros E; apply (Hne f (or_introl eq_refl)); now rewrite E.
      * intros f0 Hf0; apply Hne; now right.
    + intros f0 f' [<- | Hr] H0 H1.
      * set (f1 := touch (f_id f) (decided_status d f)
                         (Z.min 95 (f_completion_percentage f + 5)) f).
        assert (H1in : In f1 (features d1))
          by (unfold d1; rewrite process_feature_features; now apply in_map).
        assert (H1id : f_id f1 = f_id f) by apply touch_id.
        assert (H1' : In f1 (features d')).
        { apply I4; [exact H1in |].
          intros g Hg E; apply Hf; rewrite <- H1id, <- E; now apply in_map. }
        assert (PK' : NoDup (map f_id (features d')))
          by (rewrite I1; exact PK1).
        assert (E' : f' = f1).
        { apply (features_pk_same_row _ _ _ PK' H0 H1'); congruence. }
        subst f'; unfold f1, touch; rewrite String.eqb_refl; simpl.
        now apply decided_status_blocked.
      * destruct (I5 f0 f' Hr H0 H1) as [A B]; split.
        -- rewrite A; apply St.
        -- intros N; apply B; now rewrite St.
    + intros fid Hres Hne; apply I6.
      * apply process_feature_keeps_resolved; [| exact Hres].
        apply Hne; now left.
      * intros g Hg; apply Hne; now right.
    + intros f0 [<- | Hr] Hb Hn.
      * apply I6; [now apply process_feature_resolves |].
        intros g Hg E; apply Hf; rewrite <- E; now apply in_map.
      * apply I7; auto; now rewrite St.
Qed.

Lemma NoDup_map_filter {A B} (k : A -> B) (p : A -> bool) (l : list A) :
  NoDup (map k l) -> NoDup (map k (filter p l)).
Proof.
  induction l as [| a l IH]; simpl; intros ND; [constructor |].
  inversion ND as [| ? ? Ha ND']; subst.
  destruct (p a); simpl; [constructor |]; auto.
  intros C; apply Ha; apply in_map_iff in C; destruct C as [x [E Hx]].
  apply filter_In in Hx; rewrite <- E; apply in_map; tauto.
Qed.

Lemma features_pk_demo : features_pk Fixtures.demo.
Proof.
  unfold features_pk; simpl.
  repeat (constructor; [simpl; intuition discriminate |]); constructor.
Qed.

(** C5. After a Feature Engine run on a non-empty file list, every feature
    the run loaded (in the workspace, not COMPLETE) is BLOCKED exactly
    when it has an upstream dependency that is not COMPLETE, whether the
    dependencies are read before or after the run; a loaded feature without
    such a dependency ends ACTIVE, and if it was BLOCKED every
    DEPENDENCY_BLOCK blocker of the workspace referencing it is resolved. *)
Theorem feature_engine_blocked_iff (d : db) (w : string)
  (files : list string) (commit : string) (now : Z) :
  features_pk d -> files <> [] ->
  map f_id (features (fst (runFeatureEngine d w files commit now)))
  = map f_id (features d)
  /\ forall f f',
       In f (features d) -> f_workspace_id f = w -> f_status f <> COMPLETE ->
       In f' (features (fst (runFeatureEngine d w files commit now))) ->
       f_id f' = f_id f ->
       (f_status f' = BLOCKED <-> Spec.has_incomplete_upstream d (f_id f))
       /\ (f_status f' = BLOCKED
           <-> Spec.has_incomplete_upstream
                 (fst (runFeatureEngine d w files commit now)) (f_id f))
       /\ (~ Spec.has_incomplete_upstream d (f_id f) -> f_status f' = ACTIVE)
       /\ (f_status f = BLOCKED ->
           ~ Spec.has_incomplete_upstream d (f_id f) ->
           forall b,
             In b (blockers (fst (runFeatureEngine d w files commit now))) ->
             b_workspace_id b = w -> b_type b = DEPENDENCY_BLOCK ->
             b_reference_id b = f_id f -> b_resolved b = true).
Proof.
  intros PK Hfiles; destruct files as [| x xs]; [congruence |].
  unfold runFeatureEngine, process_all.
  assert (ND : NoDup (map f_id (featuresResult d w)))
    by (apply NoDup_map_filter; exact PK).
  assert (Hfs : forall f, In f (featuresResult d w) ->
                  In f (features d) /\ f_status f <> COMPLETE).
  { intros f Hf; apply filter_In in Hf; destruct Hf as [Hin Hc].
    apply andb_true_iff in Hc; destruct Hc as [_ Hc].
    split; [exact Hin |]; intros C; rewrite C in Hc; discriminate. }
  destruct (process_all_spec w now (featuresResult d w) d [] PK ND Hfs)
    as [I1 [I2 [I3 [_ [I5 [_ I7]]]]]].
  set (d1 := fst (fold_left _ (featuresResult d w) (d, []))) in *.
  change (features (fst (fst (HealthEngine.recalculate d1 w now))))
    with (features d1).
  change (blockers (fst (fst (HealthEngine.recalculate d1 w now))))
    with (blockers d1).
  split; [exact I1 |].
  intros f f' Hin Hw Hst Hin' Hid.
  assert (Hres : In f (featuresResult d w)).
  { apply filter_In; split; [exact Hin |].
    rewrite Hw, String.eqb_refl; simpl.
    apply negb_true_iff, not_true_iff_false.
    now rewrite feature_status_eqb_eq. }
  destruct (I5 f f' Hres Hin' Hid) as [A B].
  split; [exact A | split; [| split; [exact B |]]].
  - rewrite A; symmetry.
    apply (has_incomplete_upstream_stable d
             (fst (fst (HealthEngine.recalculate d1 w now)))); assumption.
  - intros Hb Hn b Hbin Hbw Hbt Hbr.
    apply (I7 f Hres Hb Hn b Hbin).
    apply same_key_iff; tauto.
Qed.

(** The theorem at the sample database: feature F2, BLOCKED on the
    COMPLETE feature F1, ends ACTIVE with its blocker resolved; feature F4,
    which depends on the unfinished F3, ends BLOCKED. *)
Lemma feature_engine_blocked_iff_witness :
  features_pk Fixtures.demo
  /\ ["a.js"] <> @nil string
  /\ map f_id (features (fst (runFeatureEngine Fixtures.demo "w1" ["a.js"]
                                "c4" Fixtures.t_now)))
     = map f_id (features Fixtures.demo).
Proof.
  assert (N : ["a.js"] <> @nil string) by discriminate.
  split; [exact features_pk_demo | split; [exact N |]].
  destruct (feature_engine_blocked_iff Fixtures.demo "w1" ["a.js"] "c4"
              Fixtures.t_now features_pk_demo N) as [A _].
  exact A.
Defined.

Example feature_run_on_demo :
  map (fun f => (f_id f, f_status f, f_completion_percentage f))
      (features (fst (runFeatureEngine Fixtures.demo "w1" ["a.js"] "c4"
                        Fixtures.t_now)))
  = [ ("F1", COMPLETE, 100); ("F2", ACTIVE, 55); ("F3", ACTIVE, 95);
      ("F4", BLOCKED, 5) ]
  /\ map (fun b => (b_id b, b_type b, b_reference_id b, b_resolved b))
         (blockers (fst (runFeatureEngine Fixtures.demo "w1" ["a.js"] "c4"
                           Fixtures.t_now)))
     = [ (1, FILE_CONFLICT_RISK, "x.md", false);
         (2, DEPENDENCY_BLOCK, "F2", true);
         (3, FILE_CONFLICT_RISK, "a.js", false);
         (4, FILE_CONFLICT_RISK, "a.js", true);
         (5, DEPENDENCY_BLOCK, "F4", false) ]
  /\ snd (runFeatureEngine Fixtures.demo "w1" ["a.js"] "c4" Fixtures.t_now)
     = [ ("w1", BLOCKER_CREATED "F4" "export" ["search"]);
         ("w1", HEALTH_UPDATE 3 CRITICAL) ].
Proof. vm_compute; repeat split. Qed.

End FeatureProperties.

(* ------------------------------------------------------------------ *)
(** ** Webhook ingestion: the idempotency gate *)

Module WebhookProperties.
Import Webhook Aux Vocabulary Route.

Section Gate.
Variable hmac_sha256_hex : string -> string -> string.
Variable secret : option string.

Lemma logged_existsb (id : string) (d : db) :
  logged id d ->
  existsb (fun r => String.eqb (wd_delivery_id r) id) (webhook_deliveries d)
  = true.
Proof.
  intros [row [Hin E]]; apply existsb_exists; exists row; split; auto.
  now apply String.eqb_eq.
Qed.


(** A push that passes the gate and whose delivery id is logged is
    answered [duplicate], writes nothing and schedules nothing. *)
Lemma handler_duplicate (d : db) (req : request) (now durationMs : Z)
  (id r a : string) (rid : Z) :
  gate hmac_sha256_hex secret req = inr (id, r, a, rid) ->
  logged id d ->
  handler hmac_sha256_hex secret d req now durationMs
  = (mkResponse 200 (Duplicate id), d, None).
Proof.
  intros G L; unfold handler; rewrite G.
  unfold insert_delivery; rewrite (logged_existsb _ _ L); reflexivity.
Qed.





Lemma not_logged_existsb (id : string) (d : db) :
  ~ logged id d ->
  existsb (fun r => String.eqb (wd_delivery_id r) id) (webhook_deliveries d)
  = false.
Proof.
  intros N; apply not_true_iff_false; intros E; apply N.
  apply existsb_exists in E; destruct E as [row [Hin Hid]].
  exists row; split; [exact Hin | now apply String.eqb_eq].
Qed.

(** The route and the [try] block agree when nothing raises. *)
Lemma post_github_ok (d : db) (req : request) (now durationMs : Z) :
  try_raises hmac_sha256_hex secret d req durationMs = false ->
  post_github hmac_sha256_hex secret d req now durationMs
  = handler hmac_sha256_hex secret d req now durationMs.
Proof. intros H; unfold post_github; now rewrite H. Qed.

(** After the gate, the route answers 200 unless a statement raised. *)
Lemma post_github_status (d : db) (req : request) (now durationMs : Z)
  (id r a : string) (rid : Z) :
  gate hmac_sha256_hex secret req = inr (id, r, a, rid) ->
  status (fst (fst (post_github hmac_sha256_hex secret d req now durationMs)))
  = 200 ->
  try_raises hmac_sha256_hex secret d req durationMs = false
  /\ insert_raises id (replace "refs/heads/" "" r) a rid = false.
Proof.
  intros G S; unfold post_github in S.
  destruct (try_raises hmac_sha256_hex secret d req durationMs) eqn:T;
    [simpl in S; discriminate |].
  split; [reflexivity |].
  unfold try_raises in T; rewrite G in T.
  apply orb_false_iff in T; tauto.
Qed.





End Gate.

(** The duplicate-delivery scenario: the first push of [d1] is answered
    [processing], leaves one FileActivity row and schedules the engines;
    the second is answered [duplicate] and changes nothing. *)
Example duplicate_delivery_scenario :
  handler Fixtures.demo_hmac Fixtures.demo_secret Fixtures.fresh_db
    Fixtures.push_d1 Fixtures.t_now 7
  = (mkResponse 200 (Processing "d1"),
     mkDb Fixtures.demo_workspaces [] [] []
       [ mkFileActivity 1 "w1" "feat" "a.js" "abc" Fixtures.t_now ]
       [] [] []
       [ mkWebhookDelivery "d1" 42 "feat" "abc" (Some 7) Fixtures.t_now ],
     Some (mkDispatch "w1" ["a.js"] "feat" "abc"))
  /\ handler Fixtures.demo_hmac Fixtures.demo_secret
       (snd (fst (handler Fixtures.demo_hmac Fixtures.demo_secret
                    Fixtures.fresh_db Fixtures.push_d1 Fixtures.t_now 7)))
       Fixtures.push_d1 (Fixtures.t_now + 5) 3
     = (mkResponse 200 (Duplicate "d1"),
        snd (fst (handler Fixtures.demo_hmac Fixtures.demo_secret
                    Fixtures.fresh_db Fixtures.push_d1 Fixtures.t_now 7)),
        None).
Proof. split; vm_compute; reflexivity. Qed.

(** The branch-overlap scenario, end to end: the push is ingested, the
    engines run, one HIGH blocker on [a.js] results and one
    CONFLICT_WARNING is broadcast before the health update. *)
Example branch_overlap_scenario :
  match handler Fixtures.demo_hmac Fixtures.demo_secret Fixtures.overlap_db
          Fixtures.push_feat3 Fixtures.t_now 4 with
  | (resp, d1, Some dp) =>
      resp = mkResponse 200 (Processing "d3")
      /\ map (fun b => (b_type b, b_reference_id b, b_severity b,
                        b_resolved b))
             (blockers (fst (run_engines d1 dp Fixtures.t_now)))
         = [ (FILE_CONFLICT_RISK, "a.js", HIGH, false) ]
      /\ snd (run_engines d1 dp Fixtures.t_now)
         = [ ("w1", WsManager.CONFLICT_WARNING "a.js"
                      ["feat-1"; "feat-2"; "feat-3"] HIGH);
             ("w1", WsManager.HEALTH_UPDATE 0 WsManager.CRITICAL) ]
  | _ => False
  end.
Proof. vm_compute; repeat split. Qed.









(** A push whose [repository.id] does not fit the log's [BIGINT] column
    passes the checks and is answered 500; nothing is logged, so that a
    well-formed push under the same delivery id is processed afterwards,
    not answered [duplicate]. *)
Example out_of_range_repository_scenario :
  gate Fixtures.demo_hmac Fixtures.demo_secret Fixtures.push_out_of_range
  = inr ("d8", "refs/heads/feat", "abc", 9223372036854775808)
  /\ post_github Fixtures.demo_hmac Fixtures.demo_secret Fixtures.fresh_db
       Fixtures.push_out_of_range Fixtures.t_now 7
     = (mkResponse 500 InternalServerError, Fixtures.fresh_db, None)
  /\ fst (fst (post_github Fixtures.demo_hmac Fixtures.demo_secret
                 Fixtures.fresh_db Fixtures.push_d8 (Fixtures.t_now + 5) 3))
     = mkResponse 200 (Processing "d8")
  /\ post_github Fixtures.demo_hmac Fixtures.demo_secret
       (snd (fst (post_github Fixtures.demo_hmac Fixtures.demo_secret
                    Fixtures.fresh_db Fixtures.push_d1 Fixtures.t_now 7)))
       (Webhook.mkRequest (Some "push") (Some "d1") (Some "sha256=abc")
          "{...}" (body Fixtures.push_out_of_range))
       (Fixtures.t_now + 5) 3
     = (mkResponse 500 InternalServerError,
        snd (fst (post_github Fixtures.demo_hmac Fixtures.demo_secret
                    Fixtures.fresh_db Fixtures.push_d1 Fixtures.t_now 7)),
        None).
Proof. repeat split; vm_compute; reflexivity. Qed.

(** Without the first delivery, the same push is processed once the
    workspace exists: it is the log row that makes the redelivery a
    duplicate. *)
Example unknown_repository_scenario :
  fst (fst (handler Fixtures.demo_hmac Fixtures.demo_secret
              Fixtures.fresh_db Fixtures.push_unknown Fixtures.t_now 7))
  = mkResponse 200 (WorkspaceNotFound 999)
  /\ fst (fst (handler Fixtures.demo_hmac Fixtures.demo_secret
                 (Fixtures.onboard_999 Fixtures.fresh_db)
                 Fixtures.push_unknown Fixtures.t_now 7))
     = mkResponse 200 (Processing "d7").
Proof. split; vm_compute; reflexivity. Qed.

End WebhookProperties.

(* ------------------------------------------------------------------ *)
(** ** Webhook ingestion: what a processed push writes *)

Module IngestProperties.
Import Webhook Aux Vocabulary.

Section Ingest.
Variable hmac_sha256_hex : string -> string -> string.
Variable secret : option string.

(** The three ways the handler ends once the delivery row is in. *)
Lemma handler_fresh (d : db) (req : request) (now durationMs : Z)
  (id r a : string) (rid : Z) :
  gate hmac_sha256_hex secret req = inr (id, r, a, rid) ->
  ~ logged id d ->
  handler hmac_sha256_hex secret d req now durationMs
  = match workspace_by_repo d rid with
    | None =>
        (mkResponse 200 (WorkspaceNotFound rid),
         with_delivery d id rid r a now, None)
    | Some w =>
        if String.eqb a ZERO_SHA
        then (mkResponse 200 (BranchDeleted (replace "refs/heads/" "" r)),
              delete_branch_activity (with_delivery d id rid r a now) w
                (replace "refs/heads/" "" r),
              None)
        else (mkResponse 200 (Processing id),
              record_duration
                (set_file_activity (with_delivery d id rid r a now)
                   (fold_left
                      (upsert_file_activity w (replace "refs/heads/" "" r)
                         a now)
                      (pushed_files req a) (file_activity d)))
                durationMs id,
              if negb (String.eqb w "")
                 && negb (Nat.eqb (List.length (pushed_files req a)) 0)
              then Some (mkDispatch w (pushed_files req a)
                           (replace "refs/heads/" "" r) a)
              else None)
    end.
Proof.
  intros G N; unfold handler; rewrite G.
  unfold insert_delivery.
  rewrite (WebhookProperties.not_logged_existsb _ _ N).
  cbn [fst snd Z.eqb].
  change (workspace_by_repo (set_webhook_deliveries d _) rid)
    with (workspace_by_repo d rid).
  destruct (workspace_by_repo d rid) as [w |]; [| reflexivity].
  destruct (String.eqb a ZERO_SHA) eqn:Z0; [reflexivity |].
  unfold pushed_files, is_force_push; rewrite Z0; reflexivity.
Qed.

Lemma same_activity_key (w br f : string) (row : file_activity_row) :
  same_activity w br f row = true <-> activity_key row = (w, br, f).
Proof.
  unfold same_activity, activity_key.
  rewrite !andb_true_iff, !String.eqb_eq; split.
  - intros [[-> ->] ->]; reflexivity.
  - intros E; inversion E; auto.
Qed.

Lemma same_activity_not_key (w br f : string) (row : file_activity_row) :
  same_activity w br f row = false <-> activity_key row <> (w, br, f).
Proof.
  rewrite <- same_activity_key; destruct (same_activity w br f row);
    split; congruence.
Qed.

Section Upsert.
Variables (w br a : string) (now : Z).

Lemma upsert_step_In (rows : list file_activity_row) (f : string)
  (row : file_activity_row) :
  In row (upsert_file_activity w br a now rows f) ->
  (activity_key row = (w, br, f)
   /\ fa_last_commit_hash row = a /\ fa_updated_at row = now)
  \/ (activity_key row <> (w, br, f) /\ In row rows).
Proof.
  unfold upsert_file_activity.
  destruct (existsb (same_activity w br f) rows) eqn:E; intros H.
  - apply in_map_iff in H; destruct H as [r0 [<- H0]].
    destruct (same_activity w br f r0) eqn:S.
    + left; apply same_activity_key in S; simpl; auto.
    + right; split; [now apply same_activity_not_key | exact H0].
  - apply in_app_iff in H; destruct H as [H | [<- | []]].
    + right; split; [| exact H].
      apply same_activity_not_key, not_true_iff_false; intros S.
      assert (C : existsb (same_activity w br f) rows = true)
        by (apply existsb_exists; eauto).
      congruence.
    + left; simpl; auto.
Qed.

Lemma upsert_step_keep (rows : list file_activity_row) (f : string)
  (row : file_activity_row) :
  In row rows -> activity_key row <> (w, br, f) ->
  In row (upsert_file_activity w br a now rows f).
Proof.
  intros H N; apply same_activity_not_key in N; unfold upsert_file_activity.
  destruct (existsb (same_activity w br f) rows).
  - apply in_map_iff; exists row; rewrite N; auto.
  - apply in_or_app; now left.
Qed.

Lemma upsert_step_has (rows : list file_activity_row) (f : string) :
  exists row, In row (upsert_file_activity w br a now rows f)
              /\ activity_key row = (w, br, f).
Proof.
  unfold upsert_file_activity.
  destruct (existsb (same_activity w br f) rows) eqn:E.
  - apply existsb_exists in E; destruct E as [r0 [H0 S]].
    eexists; split.
    + apply in_map_iff; exists r0; rewrite S; split; [reflexivity | exact H0].
    + apply same_activity_key in S; exact S.
  - eexists; split; [apply in_or_app; right; now left | reflexivity].
Qed.

Lemma upsert_step_keys (rows : list file_activity_row) (f : string) :
  NoDup (map activity_key rows) ->
  NoDup (map activity_key (upsert_file_activity w br a now rows f)).
Proof.
  intros ND; unfold upsert_file_activity.
  destruct (existsb (same_activity w br f) rows) eqn:E.
  - rewrite map_map; erewrite map_ext; [exact ND |].
    intros r0; destruct (same_activity w br f r0); reflexivity.
  - rewrite map_app; simpl.
    apply NoDup_app; [exact ND | constructor; [intros [] | constructor] |].
    intros k Hk [<- | []]; apply in_map_iff in Hk.
    destruct Hk as [r0 [K H0]]; apply same_activity_key in K.
    assert (C : existsb (same_activity w br f) rows = true)
      by (apply existsb_exists; eauto).
    congruence.
Qed.

Lemma upsert_all_In (files : list string) :
  forall rows row,
    In row (fold_left (upsert_file_activity w br a now) files rows) ->
    (exists f, In f files /\ activity_key row = (w, br, f)
               /\ fa_last_commit_hash row = a /\ fa_updated_at row = now)
    \/ ((forall f, In f files -> activity_key row <> (w, br, f))
        /\ In row rows).
Proof.
  induction files as [| f fs IH]; intros rows row H; simpl in H.
  - right; split; [intros f [] | exact H].
  - destruct (IH _ _ H) as [[f' [Hf' K]] | [N H1]].
    + left; exists f'; split; [now right | exact K].
    + destruct (upsert_step_In _ _ _ H1) as [K | [K H0]].
      * left; exists f; split; [now left | exact K].
      * right; split; [| exact H0].
        intros f' [<- | Hf']; auto.
Qed.

Lemma upsert_all_keep (files : list string) :
  forall rows row,
    In row rows ->
    (forall f, In f files -> activity_key row <> (w, br, f)) ->
    In row (fold_left (upsert_file_activity w br a now) files rows).
Proof.
  induction files as [| f fs IH]; intros rows row H N; simpl; [exact H |].
  apply IH.
  - apply upsert_step_keep; [exact H | apply N; now left].
  - intros f' Hf'; apply N; now right.
Qed.

Lemma upsert_all_has (files : list string) :
  forall rows f,
    In f files ->
    exists row,
      In row (fold_left (upsert_file_activity w br a now) files rows)
      /\ activity_key row = (w, br, f).
Proof.
  induction files as [| f0 fs IH]; intros rows f Hf; [destruct Hf |].
  destruct Hf as [<- | Hf]; simpl.
  - destruct (in_dec string_dec f0 fs) as [I | I]; [now apply IH |].
    destruct (upsert_step_has rows f0) as [row [H K]].
    exists row; split; [| exact K].
    apply upsert_all_keep; [exact H |].
    intros f' Hf' E; rewrite K in E; inversion E; subst; contradiction.
  - now apply IH.
Qed.

Lemma upsert_all_keys (files : list string) :
  forall rows,
    NoDup (map activity_key rows) ->
    NoDup (map activity_key
             (fold_left (upsert_file_activity w br a now) files rows)).
Proof.
  induction files as [| f fs IH]; intros rows ND; simpl; [exact ND |].
  apply IH, upsert_step_keys, ND.
Qed.

End Upsert.

(** X1.  After a processed push, every pushed file has a row for the
    workspace and branch; every such row carries the pushed commit and the
    transaction time; rows of other keys are neither added, removed nor
    changed; and the unique constraint on (workspace, branch, file) is
    kept. *)
Theorem push_records_activity (d : db) (req : request) (now durationMs : Z)
  (id r a w : string) (rid : Z) :
  gate hmac_sha256_hex secret req = inr (id, r, a, rid) ->
  ~ logged id d ->
  workspace_by_repo d rid = Some w ->
  a <> ZERO_SHA ->
  (forall f, In f (pushed_files req a) ->
     exists row,
       In row (file_activity
                 (snd (fst (handler hmac_sha256_hex secret d req now
                              durationMs))))
       /\ activity_key row = (w, replace "refs/heads/" "" r, f))
  /\ (forall row f,
        In row (file_activity
                  (snd (fst (handler hmac_sha256_hex secret d req now
                               durationMs)))) ->
        In f (pushed_files req a) ->
        activity_key row = (w, replace "refs/heads/" "" r, f) ->
        fa_last_commit_hash row = a /\ fa_updated_at row = now)
  /\ (forall row,
        (forall f, In f (pushed_files req a) ->
                   activity_key row <> (w, replace "refs/heads/" "" r, f)) ->
        (In row (file_activity
                   (snd (fst (handler hmac_sha256_hex secret d req now
                                durationMs))))
         <-> In row (file_activity d)))
  /\ (NoDup (map activity_key (file_activity d)) ->
      NoDup (map activity_key
               (file_activity
                  (snd (fst (handler hmac_sha256_hex secret d req now
                               durationMs)))))).
Proof.
  intros G N W Z0.
  rewrite (handler_fresh d req now durationMs id r a rid G N), W.
  apply String.eqb_neq in Z0; rewrite Z0.
  cbn [fst snd].
  change (file_activity (record_duration (set_file_activity _ ?l) _ _))
    with l.
  split; [| split; [| split]].
  - intros f Hf; now apply upsert_all_has.
  - intros row f Hrow Hf K.
    destruct (upsert_all_In _ _ _ _ _ _ _ Hrow) as [[f' [_ [_ HH]]] | [C _]];
      [exact HH | exfalso; exact (C f Hf K)].
  - intros row Hn; split.
    + intros Hrow.
      destruct (upsert_all_In _ _ _ _ _ _ _ Hrow)
        as [[f' [Hf' [K _]]] | [_ H0]];
        [exfalso; exact (Hn f' Hf' K) | exact H0].
    + intros H0; now apply upsert_all_keep.
  - apply upsert_all_keys.
Qed.


Lemma substring_all (s : string) : String.substring 0 (String.length s) s = s.
Proof. induction s as [| c s IH]; simpl; [reflexivity | now rewrite IH]. Qed.

(** Stripping the prefix gives back the branch name. *)
Lemma replace_refs_heads (b : string) :
  replace "refs/heads/" "" ("refs/heads/" ++ b) = b.
Proof.
  destruct b as [| c b]; [reflexivity |].
  unfold replace.
  change (String.prefix "refs/heads/" ("refs/heads/" ++ String c b))
    with true.
  cbv iota; unfold drop.
  change (String.length "refs/heads/") with 11%nat.
  change (String.length ("refs/heads/" ++ String c b))
    with (11 + String.length (String c b))%nat.
  replace (11 + String.length (String c b) - 11)%nat
    with (String.length (String c b)) by lia.
  exact (substring_all (String c b)).
Qed.

Lemma logged_dec (id : string) (d : db) : logged id d \/ ~ logged id d.
Proof.
  destruct (existsb (fun x => String.eqb (wd_delivery_id x) id)
                    (webhook_deliveries d)) eqn:E.
  - left; apply existsb_exists in E; destruct E as [row [H K]].
    exists row; split; [exact H | now apply String.eqb_eq].
  - right; intros L.
    rewrite (WebhookProperties.logged_existsb _ _ L) in E; discriminate.
Qed.

Lemma record_duration_fresh (d : db) (row : webhook_delivery) (ms : Z) :
  ~ logged (wd_delivery_id row) d ->
  webhook_deliveries
    (record_duration
       (set_webhook_deliveries d (webhook_deliveries d ++ [row]))
       ms (wd_delivery_id row))
  = webhook_deliveries d
    ++ [mkWebhookDelivery (wd_delivery_id row) (wd_repo_id row)
          (wd_branch_name row) (wd_commit_hash row) (Some ms)
          (wd_processed_at row)].
Proof.
  intros N; unfold record_duration; simpl.
  rewrite map_app; simpl; rewrite String.eqb_refl; f_equal.
  rewrite <- (map_id (webhook_deliveries d)) at 2.
  apply map_ext_in; intros x Hx.
  destruct (String.eqb (wd_delivery_id x) (wd_delivery_id row)) eqn:E;
    [| reflexivity].
  exfalso; apply N; exists x; split; [exact Hx | now apply String.eqb_eq].
Qed.

(** X3.  The delivery log is append-only.  A request either leaves it as it
    is, or (a push that passes the checks under a delivery id not yet
    logged) appends one row holding the repository id, the ref without
    its [refs/heads/] prefix, the commit and the transaction time; the
    duration is filled in exactly when the push is answered
    [processing].  Delivery ids stay unique. *)
Theorem delivery_log_append_only (d : db) (req : request) (now durationMs : Z) :
  (webhook_deliveries
     (snd (fst (handler hmac_sha256_hex secret d req now durationMs)))
   = webhook_deliveries d
   \/ exists id r a rid,
        gate hmac_sha256_hex secret req = inr (id, r, a, rid)
        /\ ~ logged id d
        /\ webhook_deliveries
             (snd (fst (handler hmac_sha256_hex secret d req now durationMs)))
           = webhook_deliveries d
             ++ [mkWebhookDelivery id rid (replace "refs/heads/" "" r) a
                   (match json (fst (fst (handler hmac_sha256_hex secret d
                                            req now durationMs))) with
                    | Processing _ => Some durationMs
                    | _ => None
                    end)
                   now]
        /\ forall b, r = ("refs/heads/" ++ b)%string ->
                     replace "refs/heads/" "" r = b)
  /\ (NoDup (map wd_delivery_id (webhook_deliveries d)) ->
      NoDup (map wd_delivery_id
               (webhook_deliveries
                  (snd (fst (handler hmac_sha256_hex secret d req now
                               durationMs)))))).
Proof.
  destruct (gate hmac_sha256_hex secret req) as [resp | [[[id r] a] rid]]
    eqn:G.
  { unfold handler; rewrite G; split; [left; reflexivity | auto]. }
  destruct (logged_dec id d) as [L | N].
  { rewrite (WebhookProperties.handler_duplicate _ _ d req now durationMs
               id r a rid G L).
    split; [left; reflexivity | auto]. }
  assert (R : forall b, r = ("refs/heads/" ++ b)%string ->
                        replace "refs/heads/" "" r = b).
  { intros b ->; apply replace_refs_heads. }
  assert (A : exists o,
             webhook_deliveries
               (snd (fst (handler hmac_sha256_hex secret d req now
                            durationMs)))
             = webhook_deliveries d
               ++ [mkWebhookDelivery id rid (replace "refs/heads/" "" r) a
                     o now]
             /\ o = match json (fst (fst (handler hmac_sha256_hex secret d
                                            req now durationMs))) with
                    | Processing _ => Some durationMs
                    | _ => None
                    end).
  { rewrite (handler_fresh d req now durationMs id r a rid G N).
    destruct (workspace_by_repo d rid) as [w |];
      [| exists None; split; reflexivity].
    destruct (String.eqb a ZERO_SHA); [exists None; split; reflexivity |].
    exists (Some durationMs); split; [| reflexivity].
    cbn [fst snd].
    apply (record_duration_fresh d (delivery_row id rid r a now) durationMs N). }
  destruct A as [o [E Ho]]; split.
  - right; exists id, r, a, rid; rewrite <- Ho; auto.
  - intros ND; rewrite E, map_app; simpl.
    apply NoDup_app; [exact ND | constructor; [intros [] | constructor] |].
    intros k Hk [<- | []]; apply N.
    apply in_map_iff in Hk; destruct Hk as [row [K H]]; now exists row.
Qed.

(** X4.  The handler writes to the delivery log and to file activity, and to
    nothing else. *)
Theorem handler_writes_two_tables (d : db) (req : request)
  (now durationMs : Z) :
  set_file_activity
    (set_webhook_deliveries
       (snd (fst (handler hmac_sha256_hex secret d req now durationMs)))
       (webhook_deliveries d))
    (file_activity d)
  = d.
Proof.
  destruct (gate hmac_sha256_hex secret req) as [resp | [[[id r] a] rid]]
    eqn:G.
  { unfold handler; rewrite G; destruct d; reflexivity. }
  destruct (logged_dec id d) as [L | N].
  { rewrite (WebhookProperties.handler_duplicate _ _ d req now durationMs
               id r a rid G L).
    destruct d; reflexivity. }
  rewrite (handler_fresh d req now durationMs id r a rid G N).
  destruct (workspace_by_repo d rid) as [w |]; [| destruct d; reflexivity].
  destruct (String.eqb a ZERO_SHA); destruct d; reflexivity.
Qed.

(** X5.  The files of a push.  They are listed once each.  With commits, they
    are the files added, modified or removed by some commit.  Without
    commits, a push that creates the branch has no files, whatever its
    head commit says; a forced push has the files of its head commit. *)
Theorem pushed_files_spec (req : request) (a : string) :
  NoDup (pushed_files req a)
  /\ (forall c cs, commits (body req) = Some (c :: cs) ->
        forall f, In f (pushed_files req a)
                  <-> exists c', In c' (c :: cs) /\ In f (commit_files c'))
  /\ ((commits (body req) = None \/ commits (body req) = Some []) ->
      before (body req) = Some ZERO_SHA ->
      pushed_files req a = [])
  /\ ((commits (body req) = None \/ commits (body req) = Some []) ->
      before (body req) <> Some ZERO_SHA -> a <> ZERO_SHA ->
      forall hc, head_commit (body req) = Some hc ->
        forall f, In f (pushed_files req a) <-> In f (commit_files hc)).
Proof.
  unfold pushed_files, is_force_push, extract_files.
  split; [| split; [| split]].
  - destruct (commits (body req)) as [[| c cs] |];
      try apply SqlFacts.distinct_NoDup;
      destruct (head_commit (body req)); try constructor;
      match goal with |- NoDup (if ?b then _ else _) => destruct b end;
      try constructor; apply SqlFacts.distinct_NoDup.
  - intros c cs ->; intros f.
    rewrite SqlFacts.distinct_In, in_flat_map; tauto.
  - intros E B; rewrite B, String.eqb_refl; simpl.
    destruct E as [-> | ->]; destruct (head_commit (body req)); reflexivity.
  - intros E B Z0 hc -> f.
    assert (Bf : match before (body req) with
                 | Some b => String.eqb b ZERO_SHA
                 | None => false
                 end = false).
    { destruct (before (body req)) as [b |]; [| reflexivity].
      apply String.eqb_neq; congruence. }
    apply String.eqb_neq in Z0; rewrite Bf, Z0.
    destruct E as [-> | ->]; simpl; apply SqlFacts.distinct_In.
Qed.

(** X6.  Engines are scheduled only for a push answered [processing] that
    carries at least one file, with the workspace found by repository id,
    the pushed files, the branch and the commit. *)
Theorem dispatch_only_when_processing (d : db) (req : request)
  (now durationMs : Z) (dp : dispatch) :
  snd (handler hmac_sha256_hex secret d req now durationMs) = Some dp ->
  exists id r a rid,
    gate hmac_sha256_hex secret req = inr (id, r, a, rid)
    /\ ~ logged id d
    /\ fst (fst (handler hmac_sha256_hex secret d req now durationMs))
       = mkResponse 200 (Processing id)
    /\ workspace_by_repo d rid = Some (dp_workspaceId dp)
    /\ a <> ZERO_SHA
    /\ dp_modifiedFiles dp = pushed_files req a
    /\ pushed_files req a <> []
    /\ dp_branch dp = replace "refs/heads/" "" r
    /\ dp_commitHash dp = a.
Proof.
  destruct (gate hmac_sha256_hex secret req) as [resp | [[[id r] a] rid]]
    eqn:G.
  { unfold handler; rewrite G; discriminate. }
  destruct (logged_dec id d) as [L | N].
  { rewrite (WebhookProperties.handler_duplicate _ _ d req now durationMs
               id r a rid G L); discriminate. }
  rewrite (handler_fresh d req now durationMs id r a rid G N).
  destruct (workspace_by_repo d rid) as [w |] eqn:W; [| discriminate].
  destruct (String.eqb a ZERO_SHA) eqn:Z0; [discriminate |].
  cbn [fst snd].
  destruct (negb (String.eqb w "")
            && negb (Nat.eqb (List.length (pushed_files req a)) 0)) eqn:C;
    [| discriminate].
  intros E; inversion E; subst dp; simpl.
  exists id, r, a, rid.
  split; [reflexivity | split; [exact N | split; [reflexivity |]]].
  split; [exact W | split; [now apply String.eqb_neq |]].
  split; [reflexivity | split; [| split; reflexivity]].
  apply andb_true_iff in C; destruct C as [_ C].
  intros F; rewrite F in C; discriminate.
Qed.

(** X7.  The signature check.  Without a configured secret every request
    passes; with one, a request passes exactly when its signature header
    is [sha256=] followed by the HMAC of the raw body. *)
Theorem verifySignature_spec (req : request) :
  ((secret = None \/ secret = Some "") ->
   verifySignature hmac_sha256_hex secret req = true)
  /\ (forall key, secret = Some key -> key <> "" ->
        (verifySignature hmac_sha256_hex secret req = true
         <-> x_hub_signature_256 req
             = Some ("sha256=" ++ hmac_sha256_hex key (rawBody req))%string)).
Proof.
  unfold verifySignature; split.
  - intros [-> | ->]; reflexivity.
  - intros key -> K; apply String.eqb_neq in K; rewrite K.
    destruct (x_hub_signature_256 req) as [sig |];
      [| split; discriminate].
    destruct (String.eqb sig "") eqn:E.
    + apply String.eqb_eq in E; subst sig; split; discriminate.
    + destruct (negb (Nat.eqb (String.length sig) _)) eqn:Len.
      * split; [discriminate | intros H; inversion H; subst sig].
        rewrite Nat.eqb_refl in Len; discriminate.
      * rewrite String.eqb_eq; split; congruence.
Qed.

End Ingest.

Lemma gate_d1 :
  gate Fixtures.demo_hmac Fixtures.demo_secret Fixtures.push_d1
  = inr ("d1", "refs/heads/feat", "abc", 42).
Proof. vm_compute; reflexivity. Qed.

Lemma not_logged_d1 : ~ logged "d1" Fixtures.fresh_db.
Proof. intros [row [[] _]]. Qed.



Lemma workspace_42_fresh : workspace_by_repo Fixtures.fresh_db 42 = Some "w1".
Proof. reflexivity. Qed.


Lemma abc_not_zero : "abc" <> ZERO_SHA.
Proof. discriminate. Qed.

Lemma push_records_activity_witness :
  gate Fixtures.demo_hmac Fixtures.demo_secret Fixtures.push_d1
  = inr ("d1", "refs/heads/feat", "abc", 42)
  /\ ~ logged "d1" Fixtures.fresh_db
  /\ workspace_by_repo Fixtures.fresh_db 42 = Some "w1"
  /\ "abc" <> ZERO_SHA
  /\ (NoDup (map activity_key (file_activity Fixtures.fresh_db)) ->
      NoDup (map activity_key
               (file_activity
                  (snd (fst (handler Fixtures.demo_hmac Fixtures.demo_secret
                               Fixtures.fresh_db Fixtures.push_d1
                               Fixtures.t_now 7)))))).
Proof.
  split; [exact gate_d1 |].
  split; [exact not_logged_d1 | split; [exact workspace_42_fresh |]].
  split; [exact abc_not_zero |].
  destruct (push_records_activity Fixtures.demo_hmac Fixtures.demo_secret
              Fixtures.fresh_db Fixtures.push_d1 Fixtures.t_now 7
              "d1" "refs/heads/feat" "abc" "w1" 42
              gate_d1 not_logged_d1
              workspace_42_fresh abc_not_zero) as [_ [_ [_ A]]].
  exact A.
Defined.


(** The sample database after the deletion of [feat-1]. *)
Example branch_delete_on_demo :
  map (fun r => (fa_branch_name r, fa_file_path r))
      (file_activity
         (snd (fst (handler Fixtures.demo_hmac Fixtures.demo_secret
                      Fixtures.demo Fixtures.delete_feat1 Fixtures.t_now 7))))
  = [ ("feat-2", "a.js"); ("main", "a.js"); ("feat-2", "x.md") ].
Proof. vm_compute; reflexivity. Qed.

Lemma dispatch_push_d1 :
  snd (handler Fixtures.demo_hmac Fixtures.demo_secret Fixtures.fresh_db
         Fixtures.push_d1 Fixtures.t_now 7)
  = Some (mkDispatch "w1" ["a.js"] "feat" "abc").
Proof. vm_compute; reflexivity. Qed.

Lemma dispatch_only_when_processing_witness :
  snd (handler Fixtures.demo_hmac Fixtures.demo_secret Fixtures.fresh_db
         Fixtures.push_d1 Fixtures.t_now 7)
  = Some (mkDispatch "w1" ["a.js"] "feat" "abc")
  /\ exists id r a rid,
       gate Fixtures.demo_hmac Fixtures.demo_secret Fixtures.push_d1
       = inr (id, r, a, rid)
       /\ workspace_by_repo Fixtures.fresh_db rid = Some "w1".
Proof.
  split; [exact dispatch_push_d1 |].
  destruct (dispatch_only_when_processing Fixtures.demo_hmac
              Fixtures.demo_secret Fixtures.fresh_db Fixtures.push_d1
              Fixtures.t_now 7 _ dispatch_push_d1)
    as [id [r [a [rid [G [_ [_ [W _]]]]]]]].
  exists id, r, a, rid; split; [exact G | exact W].
Defined.

End IngestProperties.

(* ------------------------------------------------------------------ *)
(** ** Conflict Engine: what a run leaves behind *)

Module ConflictRunProperties.
Import Sql SeverityClassifier BlockerService ConflictEngine.
Import Aux Vocabulary BlockerFacts EngineFacts ConflictSetFacts.

(** X8.  More overlap never lowers the severity. *)
Theorem classifySeverity_monotone (s s' : signals) :
  branchCount s <= branchCount s' ->
  prCount s <= prCount s' ->
  (touchesMain s = true -> touchesMain s' = true) ->
  severity_rank (classifySeverity s) <= severity_rank (classifySeverity s').
Proof.
  destruct s as [bc bs tm pc ns], s' as [bc' bs' tm' pc' ns'].
  unfold classifySeverity; simpl; intros Hb Hp Ht.
  destruct tm; [rewrite (Ht eq_refl) |]; destruct tm';
    repeat match goal with
           | |- context [?a <=? ?b] => destruct (Z.leb_spec a b)
           end; simpl; lia.
Qed.

Lemma classifySeverity_monotone_witness :
  2 <= 3 /\ 0 <= 0 /\ (false = true -> false = true)
  /\ severity_rank (classifySeverity (mkSignals 2 [] false 0 []))
     <= severity_rank (classifySeverity (mkSignals 3 [] false 0 [])).
Proof.
  assert (A : (2 <= 3)) by lia.
  assert (B : (0 <= 0)) by lia.
  split; [exact A | split; [exact B | split; [auto |]]].
  exact (classifySeverity_monotone (mkSignals 2 [] false 0 [])
           (mkSignals 3 [] false 0 []) A B (fun e => e)).
Defined.

(** X9.  [upsertConflictBlocker] always succeeds, and repeating it with the
    same severity changes nothing, whatever description and time the
    repetition carries. *)
Theorem upsertConflictBlocker_retry (d : db) (w f : string) (sev : severity)
  (desc desc' : string) (now now' : Z) :
  exists d1,
    upsertConflictBlocker d w f sev desc now = Ok d1
    /\ upsertConflictBlocker d1 w f sev desc' now' = Ok d1.
Proof.
  destruct (upsertConflictBlocker_ok d w f sev desc now) as [d1 H].
  exists d1; split; [exact H |].
  apply RerunProperties.upsert_noop.
  eapply RerunProperties.upsert_settles; eauto.
Qed.

Lemma map_set_In (m : conflict_map) (k0 : string) (v0 : signals)
  (k : string) (v : signals) :
  NoDup (map fst m) -> In (k, v) (map_set m k0 v0) ->
  (k = k0 /\ v = v0) \/ (k <> k0 /\ In (k, v) m).
Proof.
  induction m as [| [a s] r IH]; simpl; intros ND H.
  - destruct H as [E | []]; inversion E; auto.
  - inversion ND as [| ? ? Ha ND']; subst.
    destruct (String.eqb a k0) eqn:E.
    + apply String.eqb_eq in E; subst a.
      destruct H as [E | H]; [inversion E; auto |].
      right; split; [| now right].
      intros ->; apply Ha; change k0 with (fst (k0, v)); now apply in_map.
    + apply String.eqb_neq in E.
      destruct H as [E' | H]; [inversion E'; subst; right; auto |].
      destruct (IH ND' H) as [A | [A B]]; auto.
Qed.

Lemma map_get_In (m : conflict_map) (k : string) (s : signals) :
  map_get m k = Some s -> In (k, s) m.
Proof.
  unfold map_get; destruct (find _ m) as [[a v] |] eqn:E; [| discriminate].
  apply find_some in E; destruct E as [H K]; simpl in K.
  apply String.eqb_eq in K; subst a; intros E; inversion E; now subst.
Qed.

Lemma merge_branch_rows (brs : list branch_row) :
  Forall (fun row => br_touches_main row = false /\ 2 <= br_branch_count row)
         brs ->
  forall m,
    NoDup (map fst m) -> Forall (entry_ok []) m ->
    NoDup (map fst
             (fold_left
                (fun m row =>
                   map_set m (br_file_path row)
                     (mkSignals (br_branch_count row) (br_branches row)
                                (br_touches_main row) 0 []))
                brs m))
    /\ Forall (entry_ok [])
         (fold_left
            (fun m row =>
               map_set m (br_file_path row)
                 (mkSignals (br_branch_count row) (br_branches row)
                            (br_touches_main row) 0 []))
            brs m).
Proof.
  induction 1 as [| row brs [Ht Hc] _ IH]; intros m ND Hm; simpl; [auto |].
  apply IH; [now apply RerunProperties.map_set_keys_NoDup |].
  apply Forall_forall; intros [k v] Hin.
  destruct (map_set_In _ _ _ _ _ ND Hin) as [[-> ->] | [_ H]].
  - unfold entry_ok; simpl; repeat split; auto; tauto.
  - rewrite Forall_forall in Hm; now apply Hm.
Qed.

Lemma merge_pr_rows (prs : list pr_row) :
  forall seen m,
    NoDup (map prr_file_path prs) ->
    (forall k, In k seen -> ~ In k (map prr_file_path prs)) ->
    Forall (fun row => 2 <= prr_pr_count row) prs ->
    NoDup (map fst m) -> Forall (entry_ok seen) m ->
    Forall (entry_ok (seen ++ map prr_file_path prs))
      (fold_left
         (fun m row =>
            let existing :=
              match map_get m (prr_file_path row) with
              | Some s => s
              | None => mkSignals 0 [] false 0 []
              end in
            map_set m (prr_file_path row)
              (mkSignals (branchCount existing) (branches existing)
                         (touchesMain existing)
                         (prr_pr_count row) (prr_pr_numbers row)))
         prs m).
Proof.
  induction prs as [| row prs IH]; intros seen m NDp Hs Hc ND Hm; simpl.
  - now rewrite app_nil_r.
  - inversion NDp as [| ? ? Hrow NDp']; subst.
    inversion Hc as [| ? ? Hc0 Hc']; subst.
    replace (seen ++ prr_file_path row :: map prr_file_path prs)
      with ((seen ++ [prr_file_path row]) ++ map prr_file_path prs)
      by (rewrite <- app_assoc; reflexivity).
    rewrite Forall_forall in Hm.
    apply IH; auto.
    + intros k Hk; apply in_app_iff in Hk; destruct Hk as [Hk | [<- | []]].
      * intros C; apply (Hs k Hk); now right.
      * exact Hrow.
    + now apply RerunProperties.map_set_keys_NoDup.
    + apply Forall_forall; intros [k v] Hin.
      destruct (map_set_In _ _ _ _ _ ND Hin) as [[-> ->] | [Hne H]].
      * unfold entry_ok; simpl; split; [| split].
        -- destruct (map_get m (prr_file_path row)) as [s |] eqn:G;
             [| reflexivity].
           apply map_get_In in G; apply (Hm _ G).
        -- intros _; exact Hc0.
        -- intros C; exfalso; apply C, in_or_app; right; now left.
      * destruct (Hm _ H) as [A [B C]]; unfold entry_ok; simpl in *.
        split; [exact A | split].
        -- intros Hk; apply in_app_iff in Hk.
           destruct Hk as [Hk | [E | []]]; [auto | congruence].
        -- intros Hk; apply C; intros Hk'; apply Hk, in_or_app; now left.
Qed.

Lemma pr_rows_facts (d : db) (w : string) :
  NoDup (map prr_file_path (PR_OVERLAP_QUERY d w))
  /\ Forall (fun row => 2 <= prr_pr_count row) (PR_OVERLAP_QUERY d w).
Proof.
  split.
  - rewrite RerunProperties.pr_query_paths; unfold stale_pr_files.
    apply FeatureProperties.NoDup_map_filter, SqlFacts.group_by_keys_NoDup.
  - apply Forall_forall; intros row H; unfold PR_OVERLAP_QUERY in H.
    apply in_map_iff in H; destruct H as [g [<- Hg]]; simpl.
    apply filter_In in Hg; destruct Hg as [_ Hc]; apply Z.ltb_lt in Hc; lia.
Qed.

(** Every entry of the engine's conflict map carries at least two pull
    requests or, failing that, at least two branches and no pull
    request. *)
Lemma merge_signals_entries (d : db) (w : string) (h now : Z) :
  Forall (entry_ok (stale_pr_files d w))
         (merge_signals (BRANCH_OVERLAP_QUERY d w h now)
                        (PR_OVERLAP_QUERY d w)).
Proof.
  unfold merge_signals.
  destruct (pr_rows_facts d w) as [NDp Hc].
  assert (Hb : Forall (fun row => br_touches_main row = false
                                  /\ 2 <= br_branch_count row)
                      (BRANCH_OVERLAP_QUERY d w h now)).
  { pose proof (OverlapProperties.branch_rows_touch_no_trunk d w h now) as A.
    pose proof (OverlapProperties.branch_rows_count d w h now) as B.
    rewrite Forall_forall in *; intros row H; split; auto. }
  destruct (merge_branch_rows _ Hb [] (NoDup_nil _) (Forall_nil _))
    as [ND1 F1].
  rewrite <- RerunProperties.pr_query_paths.
  apply (merge_pr_rows (PR_OVERLAP_QUERY d w) [] _ NDp); auto.
Qed.

Lemma entry_ok_severity (seen : list string) (e : string * signals) :
  entry_ok seen e ->
  classifySeverity (snd e) <> LOW
  /\ (In (fst e) seen -> classifySeverity (snd e) = HIGH).
Proof.
  intros [Ht [Hp Hn]]; unfold classifySeverity; rewrite Ht.
  destruct (in_dec string_dec (fst e) seen) as [I | I].
  - specialize (Hp I); apply Z.leb_le in Hp; rewrite Hp.
    split; [discriminate | reflexivity].
  - destruct (Hn I) as [P B]; rewrite P; simpl; split; [| tauto].
    destruct (3 <=? branchCount (snd e)); [discriminate |].
    apply Z.leb_le in B; rewrite B; discriminate.
Qed.

(** The blocker the run leaves on a path of the conflict set. *)
Lemma runConflictEngine_covers (d : db) (w : string)
  (files : list string) (branch : string) (now : Z) (p : string) :
  blockers_pk d -> files <> [] ->
  window_starts d w now ->
  Spec.in_conflict_set d w (window_hours d w) now p ->
  exists b,
    find (active_with_key w FILE_CONFLICT_RISK p)
         (blockers (fst (runConflictEngine d w files branch now)))
    = Some b
    /\ b_severity b <> LOW
    /\ ((exists i1 i2, i1 <> i2 /\ Spec.in_open_pr d w p i1
                       /\ Spec.in_open_pr d w p i2) ->
        b_severity b = HIGH).
Proof.
  intros PK Hfiles W Hp; destruct files as [| x xs]; [congruence |].
  destruct (transaction_commits d w now W) as [d1 [U1 [T1 [F1 _]]]].
  set (wh := window_hours d w) in *.
  set (entries := merge_signals (BRANCH_OVERLAP_QUERY d w wh now)
                                (PR_OVERLAP_QUERY d w)).
  destruct (RerunProperties.merge_signals_keys d w wh now) as [ND KS].
  fold entries in ND, KS.
  fold wh in U1, T1; fold entries in U1, T1.
  unfold runConflictEngine; rewrite T1; cbn [fst].
  assert (Hk : In p (map fst entries))
    by (apply KS, still_conflicting_spec, Hp).
  apply in_map_iff in Hk; destruct Hk as [[k sig] [E He]]; simpl in E; subst k.
  pose proof (RerunProperties.upsert_entries_settles _ _ _ _ _ _ ND PK U1)
    as S.
  rewrite Forall_forall in S; specialize (S _ He); simpl in S.
  assert (M : mem p (still_conflicting d1 w wh now) = true).
  { unfold only_blockers in F1; rewrite F1, still_conflicting_frame.
    apply KS; change p with (fst (p, sig)); now apply in_map. }
  destruct (RerunProperties.resolve_keeps_settled d1 w wh now p _ M S)
    as [b [Hb Hs]].
  pose proof (merge_signals_entries d w wh now) as EO.
  fold entries in EO; rewrite Forall_forall in EO.
  destruct (entry_ok_severity _ _ (EO _ He)) as [NL HH]; simpl in NL, HH.
  exists b; split; [exact Hb | rewrite Hs; split; [exact NL |]].
  intros PR; apply HH, stale_pr_files_In, PR.
Qed.

(** X10.  After a run on a non-empty file list that commits (the start
    of the activity window being a timestamp), every path of the conflict
    set has an unresolved FILE_CONFLICT_RISK blocker; the first such
    blocker is never LOW, and it is HIGH when two open pull requests list
    the path. *)
Theorem conflict_engine_covers_conflict_set (d : db) (w : string)
  (files : list string) (branch : string) (now : Z) (p : string) :
  blockers_pk d -> files <> [] ->
  window_starts d w now ->
  Spec.in_conflict_set d w (window_hours d w) now p ->
  exists b,
    find (active_with_key w FILE_CONFLICT_RISK p)
         (blockers (fst (runConflictEngine d w files branch now)))
    = Some b
    /\ b_severity b <> LOW
    /\ ((exists i1 i2, i1 <> i2 /\ Spec.in_open_pr d w p i1
                       /\ Spec.in_open_pr d w p i2) ->
        b_severity b = HIGH).
Proof. exact (runConflictEngine_covers d w files branch now p). Qed.

Lemma evolves_refl (b : blocker) : evolves b b.
Proof. unfold evolves; tauto. Qed.

Lemma evolves_trans (a b c : blocker) :
  evolves a b -> evolves b c -> evolves a c.
Proof.
  unfold evolves; intros [A1 [A2 [A3 [A4 [A5 A6]]]]] [B1 [B2 [B3 [B4 [B5 B6]]]]].
  repeat split; try congruence.
  intros R; specialize (A6 R); subst b; auto.
Qed.

Lemma evolves_mark_resolved (b : blocker) : evolves b (mark_resolved b).
Proof.
  unfold evolves; simpl; repeat split.
  intros R; destruct b; simpl in *; subst; reflexivity.
Qed.

Lemma Forall2_trans {A} (R : A -> A -> Prop) :
  (forall a b c, R a b -> R b c -> R a c) ->
  forall l1 l2 l3, Forall2 R l1 l2 -> Forall2 R l2 l3 -> Forall2 R l1 l3.
Proof.
  intros T l1 l2 l3 H; revert l3.
  induction H; intros l3 H'; inversion H'; subst; constructor; eauto.
Qed.

Lemma grows_refl (bs : list blocker) : grows bs bs.
Proof.
  exists bs, []; split; [now rewrite app_nil_r |].
  induction bs; constructor; auto using evolves_refl.
Qed.

Lemma grows_trans (a b c : list blocker) : grows a b -> grows b c -> grows a c.
Proof.
  intros [k1 [x1 [-> F1]]] [k2 [x2 [-> F2]]].
  apply Forall2_app_inv_l in F2; destruct F2 as [k1' [x1' [G1 [G2 ->]]]].
  exists k1', (x1' ++ x2); split; [now rewrite app_assoc |].
  eapply Forall2_trans; eauto using evolves_trans.
Qed.

Lemma grows_app (bs added : list blocker) : grows bs (bs ++ added).
Proof.
  exists bs, added; split; [reflexivity |].
  induction bs; constructor; auto using evolves_refl.
Qed.

Lemma grows_map (g : blocker -> blocker) (bs : list blocker) :
  (forall b, In b bs -> evolves b (g b)) -> grows bs (map g bs).
Proof.
  intros H; exists (map g bs), []; split; [now rewrite app_nil_r |].
  induction bs as [| a l IH]; simpl; constructor.
  - apply H; now left.
  - apply IH; intros b Hb; apply H; now right.
Qed.

(** In a table that has grown, resolved rows are where they were and no
    row is missing. *)
Lemma grows_keeps (bs bs' : list blocker) :
  grows bs bs' ->
  (List.length bs <= List.length bs')%nat
  /\ (forall b, In b bs -> b_resolved b = true -> In b bs')
  /\ (forall b, In b bs -> exists b', In b' bs' /\ evolves b b').
Proof.
  intros [kept [added [-> F]]]; split; [| split].
  - rewrite length_app, <- (Forall2_length F); lia.
  - intros b Hb R; apply in_or_app; left.
    revert Hb; induction F as [| x y l l' E _ IH]; intros Hb;
      [destruct Hb |].
    destruct Hb as [Hx | Hb]; [left | right; exact (IH Hb)].
    subst x; destruct E as [_ [_ [_ [_ [_ E]]]]]; exact (E R).
  - intros b Hb.
    revert Hb; induction F as [| x y l l' E _ IH]; intros Hb;
      [destruct Hb |].
    destruct Hb as [Hx | Hb].
    + subst x; exists y; split; [now left | exact E].
    + destruct (IH Hb) as [b' [H' E']]; exists b'; split; auto.
      apply in_app_iff in H'; apply in_app_iff; simpl; tauto.
Qed.

Lemma upsert_grows d d' w f sev desc now :
  blockers_pk d ->
  upsertConflictBlocker d w f sev desc now = Ok d' ->
  grows (blockers d) (blockers d').
Proof.
  intros PK H.
  destruct (upsert_cases _ _ _ _ _ _ _ H)
    as [[c [_ [_ ->]]] | [[c [Hc [_ ->]]] | [_ ->]]]; simpl.
  - apply grows_refl.
  - apply find_some in Hc; destruct Hc as [Hin Hact].
    apply active_with_key_iff in Hact; destruct Hact as [_ [_ [_ Hr]]].
    apply grows_map; intros b Hb; unfold recolour.
    destruct (b_id b =? b_id c) eqn:E; [| apply evolves_refl].
    apply Z.eqb_eq in E.
    rewrite (pk_same_row _ _ _ PK Hb Hin E).
    unfold evolves; simpl; repeat split; congruence.
  - apply grows_app.
Qed.

Lemma upsert_entries_grows (entries : conflict_map) :
  forall d d' nbs w now,
    blockers_pk d ->
    upsert_entries d w entries now = Ok (d', nbs) ->
    grows (blockers d) (blockers d').
Proof.
  induction entries as [| [k sig] rest IH]; simpl; intros d d' nbs w now PK H.
  - inversion H; subst; apply grows_refl.
  - destruct (upsertConflictBlocker d w k _ _ now) as [d1 |] eqn:U;
      simpl in H; [| discriminate].
    destruct (upsert_entries d1 w rest now) as [[d2 n2] |] eqn:R;
      simpl in H; [| discriminate].
    inversion H; subst.
    eapply grows_trans; [eapply upsert_grows; eauto |].
    apply (IH d1 d' n2 w now); [eapply upsert_pk; eauto | exact R].
Qed.

Lemma resolveStaleBlockers_grows (d : db) (w : string) (h now : Z) :
  grows (blockers d) (blockers (resolveStaleBlockers d w h now)).
Proof.
  simpl; apply grows_map; intros b _.
  match goal with |- context [if ?c then _ else _] => destruct c end;
    [apply evolves_mark_resolved | apply evolves_refl].
Qed.

Lemma runConflictEngine_grows (d : db) (w : string) (files : list string)
  (branch : string) (now : Z) :
  blockers_pk d ->
  grows (blockers d) (blockers (fst (runConflictEngine d w files branch now)))
  /\ only_blockers d (fst (runConflictEngine d w files branch now)).
Proof.
  intros PK; unfold runConflictEngine.
  destruct files as [| x xs];
    [split; [apply grows_refl | apply only_blockers_refl] |].
  destruct (window_starts_dec d w now) as [W | W];
    [| rewrite (transaction_raises d w now W);
       split; [apply grows_refl | apply only_blockers_refl]].
  destruct (transaction_commits d w now W) as [d1 [U1 [T1 [F1 _]]]].
  rewrite T1; cbn [fst]; split.
  - eapply grows_trans;
      [eapply upsert_entries_grows; eauto | apply resolveStaleBlockers_grows].
  - eapply only_blockers_trans; [exact F1 | reflexivity].
Qed.

Lemma process_feature_grows (d : db) (w : string) (f : feature) (now : Z) :
  grows (blockers d) (blockers (fst (FeatureEngine.process_feature d w f now))).
Proof.
  destruct (FeatureProperties.process_feature_blockers d w f now)
    as [[_ [_ E]] | [_ [E | [id [desc E]]]]]; rewrite E.
  - apply grows_map; intros b _.
    destruct (same_key w DEPENDENCY_BLOCK (f_id f) b);
      [apply evolves_mark_resolved | apply evolves_refl].
  - apply grows_refl.
  - apply grows_app.
Qed.

Lemma runFeatureEngine_grows (d : db) (w : string) (files : list string)
  (commit : string) (now : Z) :
  grows (blockers d)
        (blockers (fst (FeatureEngine.runFeatureEngine d w files commit now))).
Proof.
  unfold FeatureEngine.runFeatureEngine.
  destruct files as [| x xs]; [apply grows_refl |].
  cbn [fst].
  change (blockers (fst (fst (HealthEngine.recalculate ?x w now))))
    with (blockers x).
  unfold FeatureEngine.process_all.
  generalize (@nil WsManager.broadcast).
  generalize (FeatureEngine.featuresResult d w).
  intros fs; revert d; induction fs as [| f fs IH]; intros d evs; simpl.
  - apply grows_refl.
  - eapply grows_trans; [apply (process_feature_grows d w f now) |].
    apply IH.
Qed.

(** X11.  Neither engine deletes a blocker, changes its identity, workspace,
    type, reference or creation time, or touches a resolved blocker; the
    same holds for the two engines run one after the other.  The Conflict
    Engine writes to no other table. *)
Theorem blockers_only_grow (d : db) (w : string) (files : list string)
  (branch commit : string) (now : Z) :
  blockers_pk d ->
  grows (blockers d) (blockers (fst (runConflictEngine d w files branch now)))
  /\ only_blockers d (fst (runConflictEngine d w files branch now))
  /\ grows (blockers d)
       (blockers (fst (Webhook.run_engines d
                         (Webhook.mkDispatch w files branch commit) now)))
  /\ (forall b, In b (blockers d) -> b_resolved b = true ->
        In b (blockers (fst (Webhook.run_engines d
                               (Webhook.mkDispatch w files branch commit)
                               now))))
  /\ (List.length (blockers d)
      <= List.length
           (blockers (fst (Webhook.run_engines d
                             (Webhook.mkDispatch w files branch commit)
                             now))))%nat.
Proof.
  intros PK.
  destruct (runConflictEngine_grows d w files branch now PK) as [G F].
  assert (GG : grows (blockers d)
                 (blockers (fst (Webhook.run_engines d
                                   (Webhook.mkDispatch w files branch commit)
                                   now)))).
  { unfold Webhook.run_engines; cbn [fst Webhook.dp_workspaceId
      Webhook.dp_modifiedFiles Webhook.dp_branch Webhook.dp_commitHash].
    eapply grows_trans; [exact G | apply runFeatureEngine_grows]. }
  destruct (grows_keeps _ _ GG) as [L [K _]].
  repeat split; auto.
Qed.

Lemma blockers_only_grow_witness :
  blockers_pk Fixtures.demo
  /\ grows (blockers Fixtures.demo)
       (blockers (fst (Webhook.run_engines Fixtures.demo
                         (Webhook.mkDispatch "w1" ["a.js"] "feat-3" "c4")
                         Fixtures.t_now))).
Proof.
  split; [exact blockers_pk_demo |].
  destruct (blockers_only_grow Fixtures.demo "w1" ["a.js"] "feat-3" "c4"
              Fixtures.t_now blockers_pk_demo) as [_ [_ [A _]]].
  exact A.
Defined.

Lemma in_conflict_set_core_ts :
  Spec.in_conflict_set Fixtures.demo "w1"
    (window_hours Fixtures.demo "w1") Fixtures.t_now "core.ts".
Proof.
  apply still_conflicting_spec; vm_compute; reflexivity.
Qed.

Lemma files_a_js : ["a.js"] <> @nil string.
Proof. discriminate. Qed.

Lemma conflict_engine_covers_conflict_set_witness :
  blockers_pk Fixtures.demo
  /\ ["a.js"] <> @nil string
  /\ window_starts Fixtures.demo "w1" Fixtures.t_now
  /\ Spec.in_conflict_set Fixtures.demo "w1"
       (window_hours Fixtures.demo "w1") Fixtures.t_now "core.ts"
  /\ exists b,
       find (active_with_key "w1" FILE_CONFLICT_RISK "core.ts")
            (blockers (fst (runConflictEngine Fixtures.demo "w1" ["a.js"]
                              "feat-3" Fixtures.t_now)))
       = Some b
       /\ b_severity b <> LOW.
Proof.
  split; [exact blockers_pk_demo | split; [exact files_a_js |]].
  split; [exact window_starts_demo | split; [exact in_conflict_set_core_ts |]].
  destruct (conflict_engine_covers_conflict_set Fixtures.demo "w1" ["a.js"]
              "feat-3" Fixtures.t_now "core.ts" blockers_pk_demo files_a_js
              window_starts_demo in_conflict_set_core_ts) as [b [A [B _]]].
  exists b; split; [exact A | exact B].
Defined.

End ConflictRunProperties.

Module HealthBounds.
Import WsManager HealthEngine.
Import Aux Vocabulary HealthProperties.

Lemma recalculate_eq (d : db) (w : string) (now : Z) :
  recalculate d w now
  = (set_workspaces d
       (map (store_score w (score_of_raw (health_raw_of d w now)))
            (workspaces d)),
     [(w, HEALTH_UPDATE (score_of_raw (health_raw_of d w now))
            (risk_of_score (score_of_raw (health_raw_of d w now))))],
     (score_of_raw (health_raw_of d w now),
      risk_of_score (score_of_raw (health_raw_of d w now)))).
Proof. reflexivity. Qed.

Lemma recalculate_score (d : db) (w : string) (now : Z) :
  fst (snd (recalculate d w now)) = score_of_raw (health_raw_of d w now).
Proof. rewrite recalculate_eq; cbn [fst snd]; reflexivity. Qed.

Lemma recalculate_risk (d : db) (w : string) (now : Z) :
  snd (snd (recalculate d w now))
  = risk_of_score (fst (snd (recalculate d w now))).
Proof. rewrite recalculate_eq; cbn [fst snd]; reflexivity. Qed.

Lemma recalculate_events (d : db) (w : string) (now : Z) :
  snd (fst (recalculate d w now))
  = [(w, HEALTH_UPDATE (fst (snd (recalculate d w now)))
                       (risk_of_score (fst (snd (recalculate d w now)))))].
Proof. rewrite recalculate_eq; cbn [fst snd]; reflexivity. Qed.

Lemma recalculate_workspaces (d : db) (w : string) (now : Z) :
  workspaces (fst (fst (recalculate d w now)))
  = map (store_score w (fst (snd (recalculate d w now)))) (workspaces d).
Proof. rewrite recalculate_eq; cbn [fst snd]; reflexivity. Qed.

Lemma score_of_raw_range (raw : Q) : 0 <= score_of_raw raw <= 100.
Proof. unfold score_of_raw; lia. Qed.

Lemma Math_round_mono (x y : Q) :
  (x <= y)%Q -> Math_round x <= Math_round y.
Proof.
  intros H; unfold Math_round; apply Qfloor_resp_le.
  apply Qplus_le_l; exact H.
Qed.

Lemma score_of_raw_mono (x y : Q) :
  (x <= y)%Q -> score_of_raw x <= score_of_raw y.
Proof.
  intros H; apply Math_round_mono in H; unfold score_of_raw; lia.
Qed.

Lemma health_raw_of_set_workspaces (d : db) (ws : list workspace)
  (w : string) (now : Z) :
  health_raw_of (set_workspaces d ws) w now = health_raw_of d w now.
Proof. reflexivity. Qed.

(** X13.  The score is a function of the features, blockers, users and file
    activity: recalculating again, with nothing else written in between,
    stores and announces the same score. *)
Theorem recalculate_idempotent (d : db) (w : string) (now : Z) :
  recalculate (fst (fst (recalculate d w now))) w now
  = (fst (fst (recalculate d w now)),
     snd (fst (recalculate d w now)),
     snd (recalculate d w now)).
Proof.
  rewrite (recalculate_eq d w now); cbn [fst snd].
  rewrite recalculate_eq, health_raw_of_set_workspaces.
  generalize (score_of_raw (health_raw_of d w now)); intros s.
  f_equal; f_equal.
  unfold set_workspaces; cbn [workspaces users features feature_dependencies
    file_activity blockers pull_requests pr_files webhook_deliveries].
  f_equal; rewrite map_map; apply map_ext; intros x.
  unfold store_score.
  destruct (String.eqb (ws_id x) w) eqn:E; cbn [ws_id]; rewrite E;
    reflexivity.
Qed.

Lemma sum_bound (l : list feature) :
  Forall (fun f => 0 <= f_completion_percentage f <= 100) l ->
  0 <= fold_right Z.add 0 (map f_completion_percentage l)
    <= 100 * Z.of_nat (List.length l).
Proof.
  induction 1 as [| f l Hf _ IH]; simpl fold_right; simpl List.length;
    [simpl; lia |].
  rewrite Nat2Z.inj_succ; simpl map; simpl fold_right; lia.
Qed.

Lemma avg_bound (d : db) (w : string) :
  completion_check d ->
  (0 <= _getFeatureCompletionAvg d w <= 100)%Q.
Proof.
  intros C; unfold _getFeatureCompletionAvg.
  set (fs := filter _ (features d)).
  assert (F : Forall (fun f => 0 <= f_completion_percentage f <= 100) fs).
  { apply Forall_forall; intros f Hf; apply filter_In in Hf.
    unfold completion_check in C; rewrite Forall_forall in C.
    apply C; tauto. }
  destruct fs as [| f l] eqn:E; [split; discriminate |].
  rewrite <- E in *; clear C.
  pose proof (sum_bound fs F) as [S0 S1].
  assert (P : (0 < inject_Z (Sql.count fs))%Q).
  { unfold Sql.count; rewrite E; simpl List.length.
    rewrite Nat2Z.inj_succ.
    change 0%Q with (inject_Z 0); rewrite <- Zlt_Qlt; lia. }
  split.
  - apply Qle_shift_div_l; [exact P |].
    rewrite Qmult_0_l; change 0%Q with (inject_Z 0).
    now rewrite <- Zle_Qle.
  - apply Qle_shift_div_r; [exact P |].
    change 100%Q with (inject_Z 100); rewrite <- inject_Z_mult.
    rewrite <- Zle_Qle; unfold Sql.count; exact S1.
Qed.

Lemma counts_nonneg (d : db) (w : string) (now : Z) :
  0 <= fst (_getBlockerCounts d w)
  /\ 0 <= snd (_getBlockerCounts d w)
  /\ 0 <= _getInactiveMemberCount d w now.
Proof.
  unfold _getBlockerCounts, _getInactiveMemberCount, Sql.count; simpl.
  repeat split; apply Nat2Z.is_nonneg.
Qed.

Lemma raw_score_le (avg : Q) (t c i : Z) :
  (avg <= 100)%Q -> 0 <= t -> 0 <= c -> 0 <= i ->
  (raw_score avg t c i <= 40)%Q.
Proof.
  intros A Ht Hc Hi.
  assert (Qt : (0 <= inject_Z (t * 5))%Q)
    by (change 0%Q with (inject_Z 0); rewrite <- Zle_Qle; lia).
  assert (Qc : (0 <= inject_Z (c * 3))%Q)
    by (change 0%Q with (inject_Z 0); rewrite <- Zle_Qle; lia).
  assert (Qi : (0 <= inject_Z (i * 5))%Q)
    by (change 0%Q with (inject_Z 0); rewrite <- Zle_Qle; lia).
  unfold raw_score.
  generalize dependent (inject_Z (t * 5)).
  generalize dependent (inject_Z (c * 3)).
  generalize dependent (inject_Z (i * 5)).
  intros; lra.
Qed.

(** X12.  With completion percentages within the bounds the schema checks, the
    score never exceeds 40, so that the risk level announced is always
    CRITICAL. *)
Theorem health_score_at_most_40 (d : db) (w : string) (now : Z) :
  completion_check d ->
  0 <= fst (snd (recalculate d w now)) <= 40
  /\ snd (snd (recalculate d w now)) = CRITICAL
  /\ snd (fst (recalculate d w now))
     = [(w, HEALTH_UPDATE (fst (snd (recalculate d w now))) CRITICAL)].
Proof.
  intros C.
  assert (B : 0 <= fst (snd (recalculate d w now)) <= 40).
  { rewrite recalculate_score.
    destruct (avg_bound d w C) as [_ A].
    destruct (counts_nonneg d w now) as [Ht [Hc Hi]].
    pose proof (raw_score_le _ _ _ _ A Ht Hc Hi) as R.
    fold (health_raw_of d w now) in R.
    apply Math_round_mono in R.
    change (Math_round 40) with 40 in R.
    unfold score_of_raw; lia. }
  assert (R : risk_of_score (fst (snd (recalculate d w now))) = CRITICAL).
  { unfold risk_of_score.
    destruct (80 <=? _) eqn:E1; [apply Z.leb_le in E1; lia |].
    destruct (50 <=? _) eqn:E2; [apply Z.leb_le in E2; lia |].
    reflexivity. }
  split; [exact B | split].
  - rewrite recalculate_risk; exact R.
  - rewrite recalculate_events, R; reflexivity.
Qed.

Lemma completion_check_demo : completion_check Fixtures.demo.
Proof.
  unfold completion_check; simpl.
  repeat constructor; simpl; lia.
Qed.

Lemma health_score_at_most_40_witness :
  completion_check Fixtures.demo
  /\ snd (snd (recalculate Fixtures.demo "w1" Fixtures.t_now)) = CRITICAL.
Proof.
  split; [exact completion_check_demo |].
  destruct (health_score_at_most_40 Fixtures.demo "w1" Fixtures.t_now
              completion_check_demo) as [_ [A _]].
  exact A.
Defined.

Lemma counts_with_blocker (d : db) (w : string) (b : blocker) :
  fst (_getBlockerCounts (with_blocker d b) w) * 5
  + snd (_getBlockerCounts (with_blocker d b) w) * 3
  = fst (_getBlockerCounts d w) * 5 + snd (_getBlockerCounts d w) * 3
    + blocker_penalty w b.
Proof.
  unfold _getBlockerCounts, with_blocker, blocker_penalty, Sql.count.
  simpl blockers; cbn [fst snd].
  rewrite !filter_app, !length_app; cbn [filter].
  destruct (String.eqb (b_workspace_id b) w && negb (b_resolved b));
    cbn [filter].
  - destruct (blocker_type_eqb (b_type b) FILE_CONFLICT_RISK);
      cbn [List.length]; lia.
  - cbn [List.length]; lia.
Qed.

Lemma penalty_nonneg (w : string) (b : blocker) : 0 <= blocker_penalty w b.
Proof.
  unfold blocker_penalty.
  destruct (_ && _); [destruct (blocker_type_eqb _ _) |]; lia.
Qed.

Lemma raw_score_shift (avg : Q) (t c i t' c' p : Z) :
  t' * 5 + c' * 3 = t * 5 + c * 3 + p ->
  (raw_score avg t' c' i == raw_score avg t c i - inject_Z p)%Q.
Proof.
  intros H; unfold raw_score.
  assert (E : (inject_Z (t' * 5) + inject_Z (c' * 3)
               == inject_Z (t * 5) + inject_Z (c * 3) + inject_Z p)%Q)
    by (rewrite <- !inject_Z_plus, H; reflexivity).
  generalize dependent (inject_Z (t' * 5)).
  generalize dependent (inject_Z (c' * 3)).
  generalize dependent (inject_Z (t * 5)).
  generalize dependent (inject_Z (c * 3)).
  generalize (inject_Z (i * 5)) (inject_Z p).
  intros; lra.
Qed.

(** X14.  One more blocker row takes 5 off the raw value of its workspace when
    it is unresolved, 8 when it is also a FILE_CONFLICT_RISK, and nothing
    otherwise (resolved, or of another workspace); the score never rises
    with it. *)
Theorem health_blocker_penalty (d : db) (w : string) (now : Z)
  (b : blocker) :
  (health_raw_of (with_blocker d b) w now
   == health_raw_of d w now - inject_Z (blocker_penalty w b))%Q
  /\ fst (snd (recalculate (with_blocker d b) w now))
     <= fst (snd (recalculate d w now))
  /\ (blocker_penalty w b = 0 ->
      snd (recalculate (with_blocker d b) w now)
      = snd (recalculate d w now)).
Proof.
  assert (E : (health_raw_of (with_blocker d b) w now
               == health_raw_of d w now - inject_Z (blocker_penalty w b))%Q).
  { unfold health_raw_of.
    change (_getFeatureCompletionAvg (with_blocker d b) w)
      with (_getFeatureCompletionAvg d w).
    change (_getInactiveMemberCount (with_blocker d b) w now)
      with (_getInactiveMemberCount d w now).
    apply raw_score_shift, counts_with_blocker. }
  split; [exact E | split].
  - rewrite !recalculate_score; apply score_of_raw_mono.
    rewrite E.
    pose proof (penalty_nonneg w b) as P.
    rewrite Zle_Qle in P; change (inject_Z 0) with 0%Q in P.
    generalize dependent (inject_Z (blocker_penalty w b)).
    generalize (health_raw_of d w now); intros; lra.
  - intros Z0.
    rewrite (surjective_pairing (snd (recalculate (with_blocker d b) w now))).
    rewrite (surjective_pairing (snd (recalculate d w now))).
    rewrite !recalculate_risk, !recalculate_score.
    assert (M : Math_round (health_raw_of (with_blocker d b) w now)
                = Math_round (health_raw_of d w now)).
    { apply Math_round_eq; rewrite E, Z0.
      change (inject_Z 0) with 0%Q; ring. }
    unfold score_of_raw; rewrite M; reflexivity.
Qed.

Example conflict_blocker_costs_eight :
  blocker_penalty "w1"
    (mkBlocker 9 "w1" FILE_CONFLICT_RISK "a.js" "x" LOW false 0) = 8
  /\ blocker_penalty "w1"
       (mkBlocker 9 "w1" DEPENDENCY_BLOCK "F1" "x" HIGH false 0) = 5
  /\ blocker_penalty "w1"
       (mkBlocker 9 "w2" FILE_CONFLICT_RISK "a.js" "x" LOW false 0) = 0
  /\ blocker_penalty "w1"
       (mkBlocker 9 "w1" FILE_CONFLICT_RISK "a.js" "x" LOW true 0) = 0.
Proof. repeat split. Qed.

End HealthBounds.

Module FeatureRunProperties.
Import WsManager BlockerService FeatureEngine.
Import Aux Vocabulary BlockerFacts FeatureProperties.

Lemma fold_step (w : string) (now : Z) (a : feature) (rest : list feature)
  (d : db) (evs : list broadcast) :
  fold_left
    (fun acc f =>
       let r := process_feature (fst acc) w f now in
       (fst r, snd acc ++ snd r)) (a :: rest) (d, evs)
  = fold_left
      (fun acc f =>
         let r := process_feature (fst acc) w f now in
         (fst r, snd acc ++ snd r)) rest
      (fst (process_feature d w a now),
       evs ++ snd (process_feature d w a now)).
Proof. reflexivity. Qed.

Lemma fold_features_untouched (w : string) (now : Z) (fs : list feature) :
  forall (d : db) (evs : list broadcast) (g : feature),
    In g (features
            (fst (fold_left
                    (fun acc f =>
                       let r := process_feature (fst acc) w f now in
                       (fst r, snd acc ++ snd r)) fs (d, evs)))) ->
    (forall f, In f fs -> f_id f <> f_id g) ->
    In g (features d).
Proof.
  induction fs as [| a rest IH]; intros d evs g Hg Hn; [exact Hg |].
  rewrite fold_step in Hg.
  apply IH in Hg; [| intros f Hf; apply Hn; now right].
  rewrite process_feature_features in Hg.
  apply in_map_iff in Hg; destruct Hg as [x [Hx Hin]].
  assert (E : f_id x <> f_id a).
  { intros C; apply (Hn a); [now left |].
    rewrite <- Hx, touch_id; now symmetry. }
  rewrite touch_other in Hx by exact E; now subst.
Qed.

Lemma touch_fields fid st pct g :
  f_name (touch fid st pct g) = f_name g
  /\ f_workspace_id (touch fid st pct g) = f_workspace_id g.
Proof. unfold touch; destruct (String.eqb (f_id g) fid); simpl; auto. Qed.

Lemma touch_hit fid st pct g :
  f_id g = fid -> f_completion_percentage (touch fid st pct g) = pct.
Proof.
  intros E; unfold touch.
  apply String.eqb_eq in E; rewrite E; reflexivity.
Qed.

Lemma fold_completion (w : string) (now : Z) (fs : list feature) :
  forall (d : db) (evs : list broadcast),
    NoDup (map f_id fs) ->
    forall f f',
      In f fs ->
      In f' (features
               (fst (fold_left
                       (fun acc f =>
                          let r := process_feature (fst acc) w f now in
                          (fst r, snd acc ++ snd r)) fs (d, evs)))) ->
      f_id f' = f_id f ->
      f_completion_percentage f' = Z.min 95 (f_completion_percentage f + 5)
      /\ exists g, In g (features d) /\ f_id g = f_id f
                   /\ f_name f' = f_name g
                   /\ f_workspace_id f' = f_workspace_id g.
Proof.
  induction fs as [| a rest IH]; intros d evs ND f f' Hf Hf' Hid;
    [destruct Hf |].
  rewrite fold_step in Hf'.
  inversion ND as [| ? ? Ha ND']; subst.
  destruct Hf as [<- | Hf].
  - apply fold_features_untouched in Hf'.
    + rewrite process_feature_features in Hf'.
      apply in_map_iff in Hf'; destruct Hf' as [g [Hg Hin]].
      assert (Eg : f_id g = f_id a) by (rewrite <- Hid, <- Hg; now rewrite touch_id).
      split; [rewrite <- Hg; now apply touch_hit |].
      exists g; rewrite <- Hg; destruct (touch_fields (f_id a)
        (decided_status d a) (Z.min 95 (f_completion_percentage a + 5)) g).
      repeat split; auto.
    + intros x Hx C; apply Ha; rewrite <- Hid, <- C.
      apply in_map; exact Hx.
  - destruct (IH _ _ ND' f f' Hf Hf' Hid) as [P [g1 [Hg1 [I1 [N1 W1]]]]].
    split; [exact P |].
    rewrite process_feature_features in Hg1.
    apply in_map_iff in Hg1; destruct Hg1 as [g [Hg Hin]].
    exists g; subst g1; rewrite touch_id in I1.
    destruct (touch_fields (f_id a) (decided_status d a)
                (Z.min 95 (f_completion_percentage a + 5)) g) as [T1 T2].
    repeat split; auto; congruence.
Qed.

Lemma featuresResult_In (d : db) (w : string) (f : feature) :
  In f (featuresResult d w)
  <-> In f (features d) /\ f_workspace_id f = w /\ f_status f <> COMPLETE.
Proof.
  unfold featuresResult; rewrite filter_In, andb_true_iff, negb_true_iff,
    String.eqb_eq.
  rewrite <- not_true_iff_false, feature_status_eqb_eq; tauto.
Qed.

Lemma featuresResult_NoDup (d : db) (w : string) :
  features_pk d -> NoDup (map f_id (featuresResult d w)).
Proof. intros PK; apply NoDup_map_filter; exact PK. Qed.

Lemma runFeatureEngine_features (d : db) (w : string) (x : string)
  (xs : list string) (commit : string) (now : Z) :
  features (fst (runFeatureEngine d w (x :: xs) commit now))
  = features (fst (process_all d w (featuresResult d w) now)).
Proof. reflexivity. Qed.

(** X15.  Every run of the Feature Engine on a non-empty push sets the
    completion of every feature of the workspace that is not COMPLETE to
    [min 95 (old + 5)], whatever files the push touched; names and
    workspaces of features are kept, and the rows of other workspaces and
    of COMPLETE features are as they were. *)
Theorem feature_engine_completion (d : db) (w : string)
  (files : list string) (commit : string) (now : Z) :
  features_pk d -> files <> [] ->
  (forall f f',
      In f (features d) -> f_workspace_id f = w -> f_status f <> COMPLETE ->
      In f' (features (fst (runFeatureEngine d w files commit now))) ->
      f_id f' = f_id f ->
      f_completion_percentage f' = Z.min 95 (f_completion_percentage f + 5)
      /\ f_name f' = f_name f
      /\ f_workspace_id f' = f_workspace_id f)
  /\ (forall g,
         In g (features d) ->
         f_workspace_id g <> w \/ f_status g = COMPLETE ->
         In g (features (fst (runFeatureEngine d w files commit now))))
  /\ (forall g,
         In g (features (fst (runFeatureEngine d w files commit now))) ->
         (forall f, In f (features d) -> f_workspace_id f = w ->
                    f_status f <> COMPLETE -> f_id f <> f_id g) ->
         In g (features d)).
Proof.
  intros PK Hfiles; destruct files as [| x xs]; [congruence |].
  rewrite runFeatureEngine_features; unfold process_all.
  split; [| split].
  - intros f f' Hf Hw Hs Hf' Hid.
    assert (L : In f (featuresResult d w)) by (apply featuresResult_In; auto).
    destruct (fold_completion w now (featuresResult d w) d []
                (featuresResult_NoDup d w PK) f f' L Hf' Hid)
      as [P [g [Hg [Ig [N W]]]]].
    rewrite (features_pk_same_row _ _ _ PK Hg Hf Ig) in N, W; auto.
  - intros g Hg Hc.
    destruct (process_all_spec w now (featuresResult d w) d []
                PK (featuresResult_NoDup d w PK)) as [_ [_ [_ [K _]]]].
    { intros f Hf; apply featuresResult_In in Hf; tauto. }
    apply K; [exact Hg |].
    intros f Hf E; apply featuresResult_In in Hf; destruct Hf as [Hin [Hw Hs]].
    rewrite (features_pk_same_row _ _ _ PK Hin Hg E) in Hw, Hs.
    destruct Hc; congruence.
  - intros g Hg Hn.
    apply (fold_features_untouched w now (featuresResult d w) d [] g Hg).
    intros f Hf; apply featuresResult_In in Hf; destruct Hf as [Hin [Hw Hs]].
    auto.
Qed.

Lemma files_one : ["a.js"] <> @nil string.
Proof. discriminate. Qed.

Lemma feature_engine_completion_witness :
  features_pk Fixtures.demo
  /\ ["a.js"] <> @nil string
  /\ forall g,
       In g (features Fixtures.demo) ->
       f_workspace_id g <> "w1" \/ f_status g = COMPLETE ->
       In g (features (fst (runFeatureEngine Fixtures.demo "w1" ["a.js"]
                              "c4" Fixtures.t_now))).
Proof.
  split; [exact features_pk_demo | split; [exact files_one |]].
  destruct (feature_engine_completion Fixtures.demo "w1" ["a.js"] "c4"
              Fixtures.t_now features_pk_demo files_one) as [_ [A _]].
  exact A.
Defined.

(** *** The blocker of a blocked feature *)

Lemma process_feature_blocks (d : db) (w : string) (f : feature) (now : Z) :
  Spec.has_incomplete_upstream d (f_id f) ->
  existsb (active_with_key w DEPENDENCY_BLOCK (f_id f))
          (blockers (fst (process_feature d w f now))) = true.
Proof.
  intros H.
  destruct (incomplete_dependencies d (f_id f)) as [| r rs] eqn:E.
  { apply incomplete_dependencies_nil in E; tauto. }
  unfold process_feature; rewrite E; cbn [fst snd].
  unfold update_completion; simpl blockers.
  unfold insert_dependency_block.
  match goal with |- context [if ?c then _ else _] => destruct c eqn:X end.
  - exact X.
  - simpl blockers; rewrite existsb_app; apply orb_true_iff; right.
    simpl; rewrite orb_false_r.
    apply active_with_key_iff; simpl; auto.
Qed.

Lemma process_feature_keeps_active (d : db) (w fid : string) (f : feature)
  (now : Z) :
  f_id f <> fid ->
  existsb (active_with_key w DEPENDENCY_BLOCK fid) (blockers d) = true ->
  existsb (active_with_key w DEPENDENCY_BLOCK fid)
          (blockers (fst (process_feature d w f now))) = true.
Proof.
  intros Hn H.
  destruct (process_feature_blockers d w f now)
    as [[_ [_ E]] | [_ [E | [id [desc E]]]]]; rewrite E.
  - apply existsb_exists in H; destruct H as [b [Hb Ha]].
    apply existsb_exists; exists b; split; [| exact Ha].
    apply in_map_iff; exists b; split; [| exact Hb].
    destruct (same_key w DEPENDENCY_BLOCK (f_id f) b) eqn:K; [| reflexivity].
    apply same_key_iff in K; apply active_with_key_iff in Ha.
    destruct K as [_ [_ K]]; destruct Ha as [_ [_ [Ha _]]]; congruence.
  - exact H.
  - rewrite existsb_app, H; reflexivity.
Qed.

Lemma fold_keeps_active (w : string) (now : Z) (fs : list feature) :
  forall (d : db) (evs : list broadcast) (fid : string),
    (forall f, In f fs -> f_id f <> fid) ->
    existsb (active_with_key w DEPENDENCY_BLOCK fid) (blockers d) = true ->
    existsb (active_with_key w DEPENDENCY_BLOCK fid)
      (blockers
         (fst (fold_left
                 (fun acc f =>
                    let r := process_feature (fst acc) w f now in
                    (fst r, snd acc ++ snd r)) fs (d, evs)))) = true.
Proof.
  induction fs as [| a rest IH]; intros d evs fid Hn H; [exact H |].
  rewrite fold_step.
  apply IH; [intros f Hf; apply Hn; now right |].
  apply process_feature_keeps_active; [apply Hn; now left | exact H].
Qed.

Lemma fold_blocks (w : string) (now : Z) (fs : list feature) :
  forall (d : db) (evs : list broadcast),
    features_pk d -> NoDup (map f_id fs) ->
    (forall f, In f fs -> In f (features d) /\ f_status f <> COMPLETE) ->
    forall f,
      In f fs -> Spec.has_incomplete_upstream d (f_id f) ->
      existsb (active_with_key w DEPENDENCY_BLOCK (f_id f))
        (blockers
           (fst (fold_left
                   (fun acc f =>
                      let r := process_feature (fst acc) w f now in
                      (fst r, snd acc ++ snd r)) fs (d, evs)))) = true.
Proof.
  induction fs as [| a rest IH]; intros d evs PK ND Hall f Hf Hu;
    [destruct Hf |].
  rewrite fold_step.
  inversion ND as [| ? ? Ha ND']; subst.
  destruct (Hall a (or_introl eq_refl)) as [Hina Hsa].
  destruct Hf as [<- | Hf].
  - apply fold_keeps_active.
    + intros x Hx C; apply Ha; rewrite <- C; now apply in_map.
    + now apply process_feature_blocks.
  - apply IH; auto.
    + unfold features_pk; rewrite process_feature_ids; exact PK.
    + intros x Hx; destruct (Hall x (or_intror Hx)) as [Hin Hs].
      split; [| exact Hs].
      apply process_feature_other_rows; [exact Hin |].
      intros C; apply Ha; rewrite <- C; now apply in_map.
    + apply (has_incomplete_upstream_stable d); auto.
      * apply process_feature_dependencies.
      * now apply process_feature_complete_key.
Qed.

(** X16.  After a run on a non-empty push, every feature of the workspace that
    is not COMPLETE and has an incomplete upstream dependency has an
    unresolved DEPENDENCY_BLOCK blocker. *)
Theorem feature_engine_blocker_exists (d : db) (w : string)
  (files : list string) (commit : string) (now : Z) (f : feature) :
  features_pk d -> files <> [] ->
  In f (features d) -> f_workspace_id f = w -> f_status f <> COMPLETE ->
  Spec.has_incomplete_upstream d (f_id f) ->
  exists b,
    In b (blockers (fst (runFeatureEngine d w files commit now)))
    /\ b_workspace_id b = w /\ b_type b = DEPENDENCY_BLOCK
    /\ b_reference_id b = f_id f /\ b_resolved b = false.
Proof.
  intros PK Hfiles Hf Hw Hs Hu; destruct files as [| x xs]; [congruence |].
  assert (E : existsb (active_with_key w DEPENDENCY_BLOCK (f_id f))
                (blockers (fst (runFeatureEngine d w (x :: xs) commit now)))
              = true).
  { change (blockers (fst (runFeatureEngine d w (x :: xs) commit now)))
      with (blockers (fst (process_all d w (featuresResult d w) now))).
    unfold process_all; apply fold_blocks; auto.
    - now apply featuresResult_NoDup.
    - intros g Hg; apply featuresResult_In in Hg; tauto.
    - apply featuresResult_In; auto. }
  apply existsb_exists in E; destruct E as [b [Hb Ha]].
  exists b; split; [exact Hb |]; now apply active_with_key_iff.
Qed.

Lemma export_in_demo :
  In (mkFeature "F4" "w1" "export" ACTIVE 0) (features Fixtures.demo).
Proof. simpl; tauto. Qed.

Lemma export_not_complete :
  f_status (mkFeature "F4" "w1" "export" ACTIVE 0) <> COMPLETE.
Proof. discriminate. Qed.

Lemma export_has_upstream :
  Spec.has_incomplete_upstream Fixtures.demo
    (f_id (mkFeature "F4" "w1" "export" ACTIVE 0)).
Proof.
  apply incomplete_dependencies_row.
  exists (mkDepRow "F3" ACTIVE "search"); vm_compute; tauto.
Qed.

Lemma feature_engine_blocker_exists_witness :
  features_pk Fixtures.demo
  /\ ["a.js"] <> @nil string
  /\ In (mkFeature "F4" "w1" "export" ACTIVE 0) (features Fixtures.demo)
  /\ Spec.has_incomplete_upstream Fixtures.demo "F4"
  /\ exists b,
       In b (blockers (fst (runFeatureEngine Fixtures.demo "w1" ["a.js"]
                              "c4" Fixtures.t_now)))
       /\ b_workspace_id b = "w1" /\ b_type b = DEPENDENCY_BLOCK
       /\ b_reference_id b = "F4" /\ b_resolved b = false.
Proof.
  split; [exact features_pk_demo | split; [exact files_one |]].
  split; [exact export_in_demo | split; [exact export_has_upstream |]].
  exact (feature_engine_blocker_exists Fixtures.demo "w1" ["a.js"] "c4"
           Fixtures.t_now (mkFeature "F4" "w1" "export" ACTIVE 0)
           features_pk_demo files_one export_in_demo eq_refl
           export_not_complete export_has_upstream).
Defined.

(** *** The calls to [broadcastToWorkspace] *)

Lemma names_row (fid : string) (a : feature_dependency) :
  forall r r' : list feature,
    map name_key r' = map name_key r ->
    map dr_name
      (map (fun j => mkDepRow (fd_depends_on_feature_id (fst j))
                              (f_status (snd j)) (f_name (snd j)))
         (filter
            (fun j => String.eqb (fd_feature_id (fst j)) fid
                      && negb (feature_status_eqb (f_status (snd j))
                                                  COMPLETE))
            (map (pair a)
               (filter
                  (fun f2 => String.eqb (f_id f2)
                                        (fd_depends_on_feature_id a))
                  r'))))
    = map dr_name
        (map (fun j => mkDepRow (fd_depends_on_feature_id (fst j))
                                (f_status (snd j)) (f_name (snd j)))
           (filter
              (fun j => String.eqb (fd_feature_id (fst j)) fid
                        && negb (feature_status_eqb (f_status (snd j))
                                                    COMPLETE))
              (map (pair a)
                 (filter
                    (fun f2 => String.eqb (f_id f2)
                                          (fd_depends_on_feature_id a))
                    r)))).
Proof.
  induction r as [| x r IH]; intros [| x' r'] H; simpl in H;
    try discriminate; [reflexivity |].
  inversion H as [[H1 H2 H3 H4]]; clear H.
  specialize (IH r' H4).
  cbn [filter]; rewrite H1.
  destruct (String.eqb (f_id x) (fd_depends_on_feature_id a));
    [| exact IH].
  cbn [map filter fst snd]; rewrite H3.
  destruct (String.eqb (fd_feature_id a) fid
            && negb (feature_status_eqb (f_status x) COMPLETE));
    [| exact IH].
  cbn [map fst snd dr_name]; rewrite H2; f_equal; exact IH.
Qed.

Lemma blocking_names_stable (d d' : db) (fid : string) :
  feature_dependencies d' = feature_dependencies d ->
  map name_key (features d') = map name_key (features d) ->
  blocking_names d' fid = blocking_names d fid.
Proof.
  intros Hd Hk; unfold blocking_names, incomplete_dependencies, Sql.join.
  rewrite Hd; clear Hd.
  induction (feature_dependencies d) as [| a l IH]; [reflexivity |].
  cbn [flat_map]; rewrite !filter_app, !map_app; f_equal; [| exact IH].
  apply names_row; exact Hk.
Qed.

Lemma process_feature_name_key (d : db) (w : string) (f : feature)
  (now : Z) :
  features_pk d -> In f (features d) -> f_status f <> COMPLETE ->
  map name_key (features (fst (process_feature d w f now)))
  = map name_key (features d).
Proof.
  intros PK Hf Hs; rewrite process_feature_features, map_map.
  apply map_ext_in; intros g Hg; unfold touch, name_key.
  destruct (String.eqb (f_id g) (f_id f)) eqn:E; [| reflexivity].
  apply String.eqb_eq in E.
  rewrite (features_pk_same_row _ _ _ PK Hg Hf E); simpl; f_equal.
  assert (N : feature_status_eqb (f_status f) COMPLETE = false)
    by (apply not_true_iff_false; now rewrite feature_status_eqb_eq).
  unfold decided_status.
  destruct (incomplete_dependencies d (f_id f));
    [destruct (feature_status_eqb (f_status f) BLOCKED) |]; simpl; auto.
Qed.

Lemma process_feature_event (d : db) (w : string) (f : feature) (now : Z) :
  snd (process_feature d w f now)
  = if has_deps d f then [blocked_event d w f] else [].
Proof.
  unfold process_feature, has_deps, blocked_event, blocking_names.
  destruct (incomplete_dependencies d (f_id f)) as [| r rs]; cbn [snd map].
  - destruct (feature_status_eqb (f_status f) BLOCKED); reflexivity.
  - reflexivity.
Qed.

Lemma fold_events (w : string) (now : Z) (fs : list feature) :
  forall (d : db) (evs : list broadcast),
    features_pk d -> NoDup (map f_id fs) ->
    (forall f, In f fs -> In f (features d) /\ f_status f <> COMPLETE) ->
    snd (fold_left
           (fun acc f =>
              let r := process_feature (fst acc) w f now in
              (fst r, snd acc ++ snd r)) fs (d, evs))
    = evs ++ map (blocked_event d w) (filter (has_deps d) fs).
Proof.
  induction fs as [| a rest IH]; intros d evs PK ND Hall;
    [simpl; now rewrite app_nil_r |].
  rewrite fold_step.
  inversion ND as [| ? ? Ha ND']; subst.
  destruct (Hall a (or_introl eq_refl)) as [Hina Hsa].
  rewrite IH; auto.
  - assert (S : forall fid,
               blocking_names (fst (process_feature d w a now)) fid
               = blocking_names d fid).
    { intros fid; apply blocking_names_stable.
      - apply process_feature_dependencies.
      - now apply process_feature_name_key. }
    rewrite (filter_ext (has_deps (fst (process_feature d w a now)))
                        (has_deps d))
      by (intros x; unfold has_deps; now rewrite S).
    rewrite (map_ext (blocked_event (fst (process_feature d w a now)) w)
                     (blocked_event d w))
      by (intros x; unfold blocked_event; now rewrite S).
    rewrite process_feature_event, <- app_assoc; cbn [filter].
    destruct (has_deps d a); reflexivity.
  - unfold features_pk; rewrite process_feature_ids; exact PK.
  - intros x Hx; destruct (Hall x (or_intror Hx)) as [Hin Hs].
    split; [| exact Hs].
    apply process_feature_other_rows; [exact Hin |].
    intros C; apply Ha; rewrite <- C; now apply in_map.
Qed.

Lemma Permutation_filter_map {A B} (f : A -> B) (p : A -> bool)
  (l l' : list A) :
  Permutation l l' -> Permutation (map f (filter p l)) (map f (filter p l')).
Proof.
  induction 1 as [| x l l' _ IH | x y l | l l' l'' _ IH1 _ IH2]; simpl.
  - constructor.
  - destruct (p x); simpl; [now constructor | exact IH].
  - destruct (p x), (p y); simpl;
      try apply Permutation_refl; apply perm_swap.
  - eapply Permutation_trans; eauto.
Qed.

(** X17.  The calls a run on a non-empty push makes to
    [broadcastToWorkspace]: one BLOCKER_CREATED for every feature of the
    workspace that is not COMPLETE and has an incomplete upstream
    dependency, whether or not a blocker row was inserted for it, then
    one HEALTH_UPDATE carrying the score the run stored.  The features
    query has no [ORDER BY]: the BLOCKER_CREATED calls are given up to
    their order and the order of the names each carries, and they are
    the same, up to that, in whatever order the loop visits the rows. *)
Theorem feature_engine_broadcasts (d : db) (w : string)
  (files : list string) (commit : string) (now : Z) :
  features_pk d -> files <> [] ->
  (exists score calls,
      snd (runFeatureEngine d w files commit now)
      = calls ++ [(w, HEALTH_UPDATE score (HealthEngine.risk_of_score score))]
      /\ same_calls calls
           (map (blocked_event d w)
                (filter (has_deps d) (featuresResult d w)))
      /\ 0 <= score <= 100
      /\ forall ws,
           In ws (workspaces (fst (runFeatureEngine d w files commit now))) ->
           ws_id ws = w -> ws_health_score ws = score)
  /\ forall rows,
       Permutation rows (featuresResult d w) ->
       same_calls (snd (process_all d w rows now))
         (map (blocked_event d w)
              (filter (has_deps d) (featuresResult d w))).
Proof.
  intros PK Hfiles; destruct files as [| x xs]; [congruence |].
  assert (Any : forall rows,
             Permutation rows (featuresResult d w) ->
             snd (process_all d w rows now)
             = map (blocked_event d w) (filter (has_deps d) rows)).
  { intros rows HP; unfold process_all; rewrite fold_events; auto.
    - apply (Permutation_NoDup
               (Permutation_map f_id (Permutation_sym HP))).
      now apply featuresResult_NoDup.
    - intros g Hg; apply (Permutation_in _ HP) in Hg.
      apply featuresResult_In in Hg; tauto. }
  split.
  - unfold runFeatureEngine.
    set (r := process_all d w (featuresResult d w) now).
    exists (fst (snd (HealthEngine.recalculate (fst r) w now))), (snd r).
    cbn [fst snd]; split; [| split; [| split]].
    + now rewrite HealthBounds.recalculate_events.
    + unfold r; rewrite (Any _ (Permutation_refl _)).
      apply RerunProperties.same_calls_refl.
    + rewrite HealthBounds.recalculate_score.
      apply HealthBounds.score_of_raw_range.
    + intros ws Hws Hid.
      rewrite HealthBounds.recalculate_workspaces in Hws.
      apply in_map_iff in Hws; destruct Hws as [y [Hy _]].
      unfold store_score in Hy.
      destruct (String.eqb (ws_id y) w) eqn:E.
      * rewrite <- Hy; reflexivity.
      * subst y; apply String.eqb_neq in E; congruence.
  - intros rows HP; rewrite (Any rows HP).
    exists (map (blocked_event d w)
                (filter (has_deps d) (featuresResult d w))).
    split; [now apply Permutation_filter_map |].
    induction (map (blocked_event d w)
                   (filter (has_deps d) (featuresResult d w)));
      constructor; auto using RerunProperties.same_call_refl.
Qed.

Lemma feature_engine_broadcasts_witness :
  features_pk Fixtures.demo
  /\ ["a.js"] <> @nil string
  /\ exists score calls,
       snd (runFeatureEngine Fixtures.demo "w1" ["a.js"] "c4" Fixtures.t_now)
       = calls
         ++ [("w1", HEALTH_UPDATE score (HealthEngine.risk_of_score score))]
       /\ same_calls calls
            (map (blocked_event Fixtures.demo "w1")
                 (filter (has_deps Fixtures.demo)
                         (featuresResult Fixtures.demo "w1"))).
Proof.
  split; [exact features_pk_demo | split; [exact files_one |]].
  destruct (feature_engine_broadcasts Fixtures.demo "w1" ["a.js"] "c4"
              Fixtures.t_now features_pk_demo files_one)
    as [[s [c [A [B _]]]] _].
  exists s, c; split; [exact A | exact B].
Defined.

End FeatureRunProperties.

Module RegistryProperties.
Import WsManager WsRegistry.

Lemma map_get_update_same {V} (k : string) (f : V -> V)
  (m : list (string * V)) :
  map_get k (map_update k f m) = option_map f (map_get k m).
Proof.
  unfold map_get; induction m as [| e r IH]; [reflexivity |].
  simpl; destruct (String.eqb (fst e) k) eqn:E; simpl; rewrite E;
    [reflexivity | exact IH].
Qed.

Lemma map_get_update_other {V} (k k' : string) (f : V -> V)
  (m : list (string * V)) :
  k' <> k -> map_get k' (map_update k f m) = map_get k' m.
Proof.
  intros N; unfold map_get; induction m as [| e r IH]; [reflexivity |].
  simpl; destruct (String.eqb (fst e) k) eqn:E.
  - apply String.eqb_eq in E; simpl.
    destruct (String.eqb (fst e) k') eqn:E'; [| reflexivity].
    apply String.eqb_eq in E'; congruence.
  - simpl; destruct (String.eqb (fst e) k'); [reflexivity | exact IH].
Qed.

Lemma map_get_has {V} (k : string) (m : list (string * V)) :
  map_has k m = false <-> map_get k m = None.
Proof.
  unfold map_has, map_get; induction m as [| e r IH]; simpl; [tauto |].
  destruct (String.eqb (fst e) k); simpl; [split; discriminate | exact IH].
Qed.

Lemma map_get_app_same {V} (k : string) (v : V) (m : list (string * V)) :
  map_has k m = false -> map_get k (m ++ [(k, v)]) = Some v.
Proof.
  unfold map_has, map_get; induction m as [| e r IH]; simpl.
  - rewrite String.eqb_refl; reflexivity.
  - destruct (String.eqb (fst e) k); simpl; [discriminate | exact IH].
Qed.

Lemma map_get_app_other {V} (k k' : string) (v : V)
  (m : list (string * V)) :
  k' <> k -> map_get k' (m ++ [(k, v)]) = map_get k' m.
Proof.
  intros N; unfold map_get; induction m as [| e r IH]; simpl.
  - destruct (String.eqb k k') eqn:E; [| reflexivity].
    apply String.eqb_eq in E; congruence.
  - destruct (String.eqb (fst e) k'); [reflexivity | exact IH].
Qed.

Lemma map_get_set_same {V} (k : string) (v : V) (m : list (string * V)) :
  map_get k (map_set k v m) = Some v.
Proof.
  unfold map_set; destruct (map_has k m) eqn:H.
  - rewrite map_get_update_same.
    destruct (map_get k m) eqn:G; [reflexivity |].
    apply map_get_has in G; congruence.
  - now apply map_get_app_same.
Qed.

Lemma map_get_set_other {V} (k k' : string) (v : V)
  (m : list (string * V)) :
  k' <> k -> map_get k' (map_set k v m) = map_get k' m.
Proof.
  intros N; unfold map_set; destruct (map_has k m).
  - now apply map_get_update_other.
  - now apply map_get_app_other.
Qed.

Lemma map_get_delete_same {V} (k : string) (m : list (string * V)) :
  map_get k (map_delete k m) = None.
Proof.
  unfold map_get, map_delete; induction m as [| e r IH]; [reflexivity |].
  simpl; destruct (String.eqb (fst e) k) eqn:E; simpl;
    [exact IH | rewrite E; exact IH].
Qed.

Lemma map_get_delete_other {V} (k k' : string) (m : list (string * V)) :
  k' <> k -> map_get k' (map_delete k m) = map_get k' m.
Proof.
  intros N; unfold map_get, map_delete; induction m as [| e r IH];
    [reflexivity |].
  simpl; destruct (String.eqb (fst e) k) eqn:E; simpl.
  - apply String.eqb_eq in E.
    destruct (String.eqb (fst e) k') eqn:E'; [| exact IH].
    apply String.eqb_eq in E'; congruence.
  - destruct (String.eqb (fst e) k'); [reflexivity | exact IH].
Qed.

Lemma set_add_In (x y : Z) (s : list Z) :
  In y (set_add x s) <-> y = x \/ In y s.
Proof.
  unfold set_add; destruct (existsb (Z.eqb x) s) eqn:E.
  - split; [tauto | intros [-> | H]; [| exact H]].
    apply existsb_exists in E; destruct E as [z [Hz Ez]].
    apply Z.eqb_eq in Ez; now subst.
  - rewrite in_app_iff; simpl; intuition.
Qed.

Lemma set_delete_In (x y : Z) (s : list Z) :
  In y (set_delete x s) <-> In y s /\ y <> x.
Proof.
  unfold set_delete; rewrite filter_In, negb_true_iff, Z.eqb_neq; tauto.
Qed.

Lemma set_delete_fresh (x : Z) (s : list Z) :
  ~ In x s -> set_delete x s = s.
Proof.
  intros H; unfold set_delete; induction s as [| y r IH]; [reflexivity |].
  simpl; destruct (y =? x) eqn:E.
  - apply Z.eqb_eq in E; subst; exfalso; apply H; now left.
  - simpl; f_equal; apply IH; intros C; apply H; now right.
Qed.

Lemma set_delete_add (x : Z) (s : list Z) :
  ~ In x s -> set_delete x (set_add x s) = s.
Proof.
  intros H; unfold set_add.
  destruct (existsb (Z.eqb x) s) eqn:E.
  - apply existsb_exists in E; destruct E as [z [Hz Ez]].
    apply Z.eqb_eq in Ez; subst; tauto.
  - unfold set_delete; rewrite filter_app; simpl; rewrite Z.eqb_refl; simpl.
    rewrite app_nil_r; now apply set_delete_fresh.
Qed.

Lemma map_update_id {V} (k : string) (f : V -> V) (v : V)
  (m : list (string * V)) :
  map_get k m = Some v -> f v = v -> map_update k f m = m.
Proof.
  intros G F; unfold map_get in G; induction m as [| e r IH];
    [discriminate |].
  simpl in *; destruct (String.eqb (fst e) k).
  - simpl in G; inversion G; subst v; rewrite F; now destruct e.
  - f_equal; now apply IH.
Qed.

Lemma map_set_same {V} (k : string) (v : V) (m : list (string * V)) :
  map_get k m = Some v -> map_set k v m = m.
Proof.
  intros G; unfold map_set.
  destruct (map_has k m) eqn:H.
  - now apply (map_update_id k _ v).
  - apply map_get_has in H; congruence.
Qed.

Lemma set_add_member (x : Z) (s : list Z) : In x s -> set_add x s = s.
Proof.
  intros H; unfold set_add.
  assert (X : existsb (Z.eqb x) s = true)
    by (apply existsb_exists; exists x; split; [exact H | apply Z.eqb_refl]).
  now rewrite X.
Qed.

(** The set of a workspace after a registration. *)
Lemma clients_register (st : registry) (uid w : string) (ws : Z) :
  map_get w (workspaceClients (registerUserWorkspace st uid w ws))
  = Some (set_add ws (members st w)).
Proof.
  unfold members, registerUserWorkspace; cbn [workspaceClients].
  rewrite map_get_update_same.
  destruct (map_has w (workspaceClients st)) eqn:H.
  - destruct (map_get w (workspaceClients st)) eqn:G; [reflexivity |].
    apply map_get_has in G; congruence.
  - rewrite map_get_set_same; simpl.
    apply map_get_has in H; now rewrite H.
Qed.

Lemma members_register (st : registry) (uid w : string) (ws : Z) :
  members (registerUserWorkspace st uid w ws) w = set_add ws (members st w)
  /\ forall w', w' <> w ->
       members (registerUserWorkspace st uid w ws) w' = members st w'.
Proof.
  split.
  - unfold members at 1; now rewrite clients_register.
  - unfold members, registerUserWorkspace; cbn [workspaceClients].
    intros w' N; rewrite map_get_update_other by exact N.
    destruct (map_has w (workspaceClients st)); [reflexivity |].
    now rewrite map_get_set_other.
Qed.

Lemma index_register (st : registry) (uid w : string) (ws : Z) :
  map_get uid (userWorkspaceIndex (registerUserWorkspace st uid w ws))
  = Some w
  /\ forall u, u <> uid ->
       map_get u (userWorkspaceIndex (registerUserWorkspace st uid w ws))
       = map_get u (userWorkspaceIndex st).
Proof.
  unfold registerUserWorkspace; cbn [userWorkspaceIndex]; split.
  - apply map_get_set_same.
  - intros u N; now apply map_get_set_other.
Qed.

(** The set of a workspace after a socket has closed. *)
Lemma members_remove (sockets : Z -> socket) (st : registry) (ws : Z)
  (w : string) :
  members (_removeClient sockets st ws) w
  = if match map_get (userUid (sockets ws)) (userWorkspaceIndex st) with
       | Some wid => truthy wid && String.eqb wid w
       | None => false
       end
    then set_delete ws (members st w)
    else members st w.
Proof.
  unfold members, _removeClient; cbn [workspaceClients].
  destruct (map_get (userUid (sockets ws)) (userWorkspaceIndex st))
    as [wid |]; [| reflexivity].
  destruct (truthy wid); simpl; [| reflexivity].
  destruct (String.eqb wid w) eqn:E.
  - apply String.eqb_eq in E; subst wid.
    rewrite map_get_update_same.
    destruct (map_get w (workspaceClients st)); reflexivity.
  - apply String.eqb_neq in E.
    rewrite map_get_update_other by congruence; reflexivity.
Qed.

Lemma recipients_members (sockets : Z -> socket) (st : registry)
  (w : string) :
  recipients sockets st w
  = filter (fun ws => readyState (sockets ws) =? 1) (members st w).
Proof.
  unfold recipients, members.
  destruct (map_get w (workspaceClients st)) as [[| x s] |]; reflexivity.
Qed.

Lemma get_view (sockets : Z -> socket) (st : registry) (w : string) :
  get (view sockets st) w
  = option_map (map sockets) (map_get w (workspaceClients st)).
Proof.
  unfold get, view, map_get.
  induction (workspaceClients st) as [| e r IH]; [reflexivity |].
  simpl; destruct (String.eqb (fst e) w); [reflexivity | exact IH].
Qed.

Lemma filter_map_comm {A B} (p : B -> bool) (f : A -> B) (l : list A) :
  filter p (map f l) = map f (filter (fun x => p (f x)) l).
Proof.
  induction l as [| a r IH]; [reflexivity |].
  simpl; destruct (p (f a)); simpl; now rewrite IH.
Qed.

(** What [broadcastToWorkspace] puts on the wire, in terms of the
    registry. *)
Lemma broadcast_view (sockets : Z -> socket) (st : registry) (w : string)
  (payload : event) :
  broadcastToWorkspace (view sockets st) (w, payload)
  = map (fun ws => (sockets ws, payload)) (recipients sockets st w).
Proof.
  unfold broadcastToWorkspace; cbn [fst snd].
  rewrite get_view, recipients_members; unfold members.
  destruct (map_get w (workspaceClients st)) as [s |]; [| reflexivity].
  simpl; rewrite filter_map_comm, map_map; reflexivity.
Qed.

(** X18.  Registering an open socket for a workspace adds it to the receivers
    of that workspace's broadcasts, once, however often it is registered,
    and changes the receivers of no other workspace. *)
Theorem register_then_broadcast (sockets : Z -> socket) (st : registry)
  (uid w : string) (ws : Z) (payload : event) :
  readyState (sockets ws) = 1 ->
  broadcastToWorkspace
    (view sockets (registerUserWorkspace st uid w ws)) (w, payload)
  = broadcastToWorkspace (view sockets st) (w, payload)
    ++ (if existsb (Z.eqb ws) (members st w) then []
        else [(sockets ws, payload)])
  /\ (forall w', w' <> w ->
        broadcastToWorkspace
          (view sockets (registerUserWorkspace st uid w ws)) (w', payload)
        = broadcastToWorkspace (view sockets st) (w', payload))
  /\ registerUserWorkspace (registerUserWorkspace st uid w ws) uid w ws
     = registerUserWorkspace st uid w ws.
Proof.
  intros Open.
  destruct (members_register st uid w ws) as [M O].
  split; [| split].
  - rewrite !broadcast_view, !recipients_members, M; unfold set_add.
    destruct (existsb (Z.eqb ws) (members st w)).
    + now rewrite app_nil_r.
    + rewrite filter_app, map_app; simpl.
      apply Z.eqb_eq in Open; rewrite Open; reflexivity.
  - intros w' N.
    now rewrite !broadcast_view, !recipients_members, (O w' N).
  - pose proof (clients_register st uid w ws) as C.
    destruct (index_register st uid w ws) as [I _].
    set (st1 := registerUserWorkspace st uid w ws) in *.
    unfold registerUserWorkspace at 1.
    assert (H1 : map_has w (workspaceClients st1) = true).
    { destruct (map_has w (workspaceClients st1)) eqn:H; [reflexivity |].
      apply map_get_has in H; congruence. }
    rewrite H1, (map_set_same _ _ _ I).
    rewrite (map_update_id _ _ _ _ C).
    + now destruct st1.
    + apply set_add_member, set_add_In; now left.
Qed.

Lemma register_then_broadcast_witness :
  readyState (mkSocket "u-alice" 1) = 1
  /\ broadcastToWorkspace
       (view (fun _ => mkSocket "u-alice" 1)
             (registerUserWorkspace empty "u-alice" "w1" 7))
       ("w1", HEALTH_UPDATE 3 CRITICAL)
     = [(mkSocket "u-alice" 1, HEALTH_UPDATE 3 CRITICAL)].
Proof.
  split; [reflexivity |].
  destruct (register_then_broadcast (fun _ => mkSocket "u-alice" 1) empty
              "u-alice" "w1" 7 (HEALTH_UPDATE 3 CRITICAL) eq_refl)
    as [A _].
  exact A.
Defined.

(** X19.  A socket registered under its own [userUid] for a workspace with a
    non-empty id is out of that workspace's set once it has closed, and
    the user's index entry is gone; the sets of the other workspaces and
    the entries of the other users are as before the registration, and so
    is the set of the workspace when the socket was not in it. *)
Theorem register_then_close (sockets : Z -> socket) (st : registry)
  (w : string) (ws : Z) :
  w <> "" ->
  let st' :=
    _removeClient sockets
      (registerUserWorkspace st (userUid (sockets ws)) w ws) ws in
  ~ In ws (members st' w)
  /\ (~ In ws (members st w) -> members st' w = members st w)
  /\ (forall w', w' <> w -> members st' w' = members st w')
  /\ map_get (userUid (sockets ws)) (userWorkspaceIndex st') = None
  /\ (forall u, u <> userUid (sockets ws) ->
        map_get u (userWorkspaceIndex st')
        = map_get u (userWorkspaceIndex st)).
Proof.
  intros Hw st'; subst st'.
  set (uid := userUid (sockets ws)).
  set (st1 := registerUserWorkspace st uid w ws).
  destruct (members_register st uid w ws) as [M O].
  destruct (index_register st uid w ws) as [I J].
  fold st1 in M, O, I, J.
  assert (T : truthy w = true)
    by (unfold truthy; apply negb_true_iff, String.eqb_neq; exact Hw).
  assert (R : forall w',
             members (_removeClient sockets st1 ws) w'
             = if String.eqb w w' then set_delete ws (members st1 w')
               else members st1 w').
  { intros w'; rewrite members_remove; fold uid; rewrite I, T; reflexivity. }
  refine (conj _ (conj _ (conj _ (conj _ _)))).
  - rewrite R, String.eqb_refl, set_delete_In; tauto.
  - intros F; rewrite R, String.eqb_refl, M; now apply set_delete_add.
  - intros w' N; rewrite R.
    destruct (String.eqb w w') eqn:E;
      [apply String.eqb_eq in E; congruence | now apply O].
  - unfold _removeClient; cbn [userWorkspaceIndex]; fold uid.
    apply map_get_delete_same.
  - intros u N; unfold _removeClient; cbn [userWorkspaceIndex]; fold uid.
    rewrite map_get_delete_other by exact N; now apply J.
Qed.

Lemma w1_not_empty : "w1" <> "".
Proof. discriminate. Qed.

Lemma register_then_close_witness :
  "w1" <> ""
  /\ ~ In 7 (members
               (_removeClient (fun _ => mkSocket "u-alice" 1)
                  (registerUserWorkspace empty "u-alice" "w1" 7) 7)
               "w1").
Proof.
  split; [exact w1_not_empty |].
  destruct (register_then_close (fun _ => mkSocket "u-alice" 1) empty "w1" 7
              w1_not_empty) as [A _].
  exact A.
Defined.

(** X20.  When two sockets of one user are registered for a workspace, closing
    the first removes the user's index entry, so that closing the second
    leaves it in the workspace's set. *)
Theorem second_socket_stays_registered (sockets : Z -> socket)
  (st : registry) (w : string) (s1 s2 : Z) :
  w <> "" -> s1 <> s2 ->
  userUid (sockets s1) = userUid (sockets s2) ->
  let uid := userUid (sockets s1) in
  let st2 := registerUserWorkspace (registerUserWorkspace st uid w s1)
               uid w s2 in
  let st3 := _removeClient sockets st2 s1 in
  let st4 := _removeClient sockets st3 s2 in
  In s2 (members st2 w)
  /\ ~ In s1 (members st3 w) /\ In s2 (members st3 w)
  /\ In s2 (members st4 w)
  /\ st4 = mkRegistry (workspaceClients st3) (userWorkspaceIndex st3).
Proof.
  intros Hw Hs Hu uid st2 st3 st4.
  assert (T : truthy w = true)
    by (unfold truthy; apply negb_true_iff, String.eqb_neq; exact Hw).
  set (st1 := registerUserWorkspace st uid w s1) in *.
  destruct (members_register st1 uid w s2) as [M2 _].
  destruct (index_register st1 uid w s2) as [I2 _].
  fold st2 in M2, I2.
  assert (A2 : In s2 (members st2 w))
    by (rewrite M2; apply set_add_In; now left).
  assert (M3 : members st3 w = set_delete s1 (members st2 w)).
  { unfold st3; rewrite members_remove; fold uid.
    rewrite I2, T, String.eqb_refl; reflexivity. }
  assert (I3 : map_get uid (userWorkspaceIndex st3) = None).
  { unfold st3, _removeClient; cbn [userWorkspaceIndex]; fold uid.
    apply map_get_delete_same. }
  assert (A3 : In s2 (members st3 w))
    by (rewrite M3; apply set_delete_In; split; [exact A2 | congruence]).
  assert (E4 : st4 = mkRegistry (workspaceClients st3)
                                (userWorkspaceIndex st3)).
  { unfold st4, _removeClient at 1.
    rewrite <- Hu; fold uid; rewrite I3; f_equal.
    unfold map_delete.
    clear - I3; unfold map_get in I3.
    induction (userWorkspaceIndex st3) as [| e r IH]; [reflexivity |].
    simpl in *; destruct (String.eqb (fst e) uid); [discriminate |].
    simpl; f_equal; now apply IH. }
  refine (conj A2 (conj _ (conj A3 (conj _ E4)))).
  - rewrite M3, set_delete_In; tauto.
  - rewrite E4; exact A3.
Qed.

Lemma seven_not_eight : 7 <> 8.
Proof. discriminate. Qed.

Lemma second_socket_stays_registered_witness :
  "w1" <> "" /\ 7 <> 8
  /\ In 8 (members
             (_removeClient (fun _ => mkSocket "u-alice" 3)
                (_removeClient (fun _ => mkSocket "u-alice" 3)
                   (registerUserWorkspace
                      (registerUserWorkspace empty "u-alice" "w1" 7)
                      "u-alice" "w1" 8) 7) 8)
             "w1").
Proof.
  split; [exact w1_not_empty | split; [exact seven_not_eight |]].
  destruct (second_socket_stays_registered (fun _ => mkSocket "u-alice" 3)
              empty "w1" 7 8 w1_not_empty seven_not_eight eq_refl)
    as [_ [_ [_ [A _]]]].
  exact A.
Defined.

Lemma remove_keeps_empty (sockets : Z -> socket) (st : registry) (ws : Z) :
  workspaceClients st = [] ->
  workspaceClients (_removeClient sockets st ws) = [].
Proof.
  intros E; unfold _removeClient; cbn [workspaceClients]; rewrite E.
  destruct (map_get _ _) as [wid |]; [| reflexivity].
  destruct (truthy wid); reflexivity.
Qed.

Lemma deliver_nil (calls : list broadcast) : deliver [] calls = [].
Proof.
  unfold deliver; induction calls as [| c r IH]; [reflexivity |].
  simpl; exact IH.
Qed.

(** X21.  Closing a socket adds no socket to any workspace's set; with sockets
    only ever closed, never registered, no workspace has receivers and
    no call to [broadcastToWorkspace] sends a message. *)
Theorem without_registration_nothing_is_sent (sockets : Z -> socket) :
  (forall st ws w x,
      In x (members (_removeClient sockets st ws) w) -> In x (members st w))
  /\ forall (closed : list Z) (calls : list broadcast),
       deliver (view sockets (fold_left (_removeClient sockets) closed empty))
               calls
       = [].
Proof.
  split.
  - intros st ws w x; rewrite members_remove.
    destruct (match map_get _ _ with Some _ => _ | None => _ end);
      [rewrite set_delete_In; tauto | tauto].
  - intros closed calls.
    assert (E : workspaceClients
                  (fold_left (_removeClient sockets) closed empty) = []).
    { generalize (eq_refl : workspaceClients empty = []).
      generalize empty; induction closed as [| c r IH]; intros st E;
        [exact E | simpl; apply IH, remove_keeps_empty, E]. }
    unfold view; rewrite E; apply deliver_nil.
Qed.

End RegistryProperties.

Module RateLimitProperties.
Import WsRegistry AiAlignment RegistryProperties.

Lemma checkRateLimit_other (m : rate_limit_map) (w w' : string) (now : Z) :
  w' <> w -> map_get w' (snd (checkRateLimit m w now)) = map_get w' m.
Proof.
  intros N; unfold checkRateLimit.
  destruct (map_get w m) as [e |]; cbn [snd].
  - destruct (now - windowStart e >? RATE_LIMIT_WINDOW_MS); cbn [snd];
      [now apply map_get_set_other |].
    destruct (count e >=? RATE_LIMIT_MAX_CALLS); cbn [snd];
      [reflexivity | now apply map_get_update_other].
  - now apply map_get_set_other.
Qed.

(** Inside a window, with [c] calls counted: the calls are allowed until
    ten are counted, and refused from then on. *)
Lemma check_all_in_window (w : string) (start : Z) (instants : list Z) :
  forall (m : rate_limit_map) (c : Z),
    1 <= c <= 10 ->
    map_get w m = Some (mkEntry c start) ->
    Forall (fun t => t - start <= RATE_LIMIT_WINDOW_MS) instants ->
    fst (check_all m w instants)
    = map (fun k => Z.of_nat k + c <? 10) (seq 0 (List.length instants))
    /\ map_get w (snd (check_all m w instants))
       = Some (mkEntry (Z.min 10 (c + Z.of_nat (List.length instants)))
                       start).
Proof.
  induction instants as [| t rest IH]; intros m c Hc G F.
  - simpl; split; [reflexivity |].
    rewrite G; do 2 f_equal; lia.
  - inversion F as [| ? ? Ht F']; subst.
    cbn [check_all List.length seq map fst snd].
    unfold checkRateLimit at 1 2 3; rewrite G; cbn [windowStart count].
    assert (W : (t - start >? RATE_LIMIT_WINDOW_MS) = false)
      by (rewrite Z.gtb_ltb; apply Z.ltb_ge; exact Ht).
    rewrite W; unfold RATE_LIMIT_MAX_CALLS.
    destruct (c >=? 10) eqn:E; cbn [fst snd].
    + rewrite Z.geb_leb in E; apply Z.leb_le in E.
      assert (c = 10) by lia; subst c.
      destruct (IH m 10 Hc G F') as [R S]; rewrite R, S; split.
      * f_equal; rewrite <- seq_shift, map_map.
        apply map_ext; intros k.
        transitivity false; [| symmetry]; apply Z.ltb_ge; lia.
      * do 2 f_equal; lia.
    + rewrite Z.geb_leb in E; apply Z.leb_gt in E.
      assert (G' : map_get w
                     (map_update w
                        (fun x => mkEntry (count x + 1) (windowStart x)) m)
                   = Some (mkEntry (c + 1) start))
        by (rewrite map_get_update_same, G; reflexivity).
      destruct (IH _ (c + 1) ltac:(lia) G' F') as [R S]; rewrite R, S; split.
      * f_equal; [simpl; symmetry; apply Z.ltb_lt; lia |].
        rewrite <- seq_shift, map_map.
        apply map_ext; intros k; f_equal; lia.
      * do 2 f_equal; lia.
Qed.

(** X22.  For a workspace the limiter has not seen, or whose window started
    more than 60000 ms before the first call, of the calls made within
    60000 ms of the first one exactly the first ten are allowed; the
    entries of the other workspaces are not touched. *)
Theorem rate_limit_first_ten (m : rate_limit_map) (w : string) (first : Z)
  (later : list Z) :
  match map_get w m with
  | None => True
  | Some e => first - windowStart e > RATE_LIMIT_WINDOW_MS
  end ->
  Forall (fun t => t - first <= RATE_LIMIT_WINDOW_MS) later ->
  fst (check_all m w (first :: later))
  = map (fun k => Nat.ltb k 10) (seq 0 (S (List.length later)))
  /\ (forall w', w' <> w ->
        map_get w' (snd (check_all m w (first :: later))) = map_get w' m).
Proof.
  intros Hm F; split.
  - cbn [check_all fst snd].
    assert (R : checkRateLimit m w first
                = (true, map_set w (mkEntry 1 first) m)).
    { unfold checkRateLimit.
      destruct (map_get w m) as [e |]; [| reflexivity].
      assert (W : (first - windowStart e >? RATE_LIMIT_WINDOW_MS) = true)
        by (rewrite Z.gtb_ltb; apply Z.ltb_lt; lia).
      now rewrite W. }
    rewrite R; cbn [fst snd].
    destruct (check_all_in_window w first later
                (map_set w (mkEntry 1 first) m) 1 ltac:(lia)
                (map_get_set_same _ _ _) F) as [A _].
    rewrite A; cbn [seq map]; f_equal.
    rewrite <- seq_shift, map_map.
    apply map_ext; intros k.
    destruct (Nat.ltb_spec (S k) 10).
    + apply Z.ltb_lt; lia.
    + apply Z.ltb_ge; lia.
  - intros w' N.
    clear Hm F; generalize (first :: later); intros l; revert m.
    induction l as [| t r IH]; intros m; [reflexivity |].
    cbn [check_all snd]; rewrite IH.
    now apply checkRateLimit_other.
Qed.

Lemma rate_limit_first_ten_witness :
  fst (check_all [] "w1" [0; 1; 2; 3; 4; 5; 6; 7; 8; 9; 10; 60000])
  = [true; true; true; true; true; true; true; true; true; true;
     false; false].
Proof.
  assert (F : Forall (fun t => t - 0 <= RATE_LIMIT_WINDOW_MS)
                [1; 2; 3; 4; 5; 6; 7; 8; 9; 10; 60000])
    by (repeat (constructor; [unfold RATE_LIMIT_WINDOW_MS; lia |]);
        constructor).
  destruct (rate_limit_first_ten [] "w1" 0
              [1; 2; 3; 4; 5; 6; 7; 8; 9; 10; 60000] I F) as [A _].
  exact A.
Defined.

End RateLimitProperties.

Module EndToEnd.
Import Sql SeverityClassifier BlockerService ConflictEngine Webhook.
Import Aux Vocabulary BlockerFacts.

Lemma process_feature_keeps_conflict_blockers (d : db) (w : string)
  (f : feature) (now : Z) (b : blocker) :
  In b (blockers d) -> b_type b = FILE_CONFLICT_RISK ->
  In b (blockers (fst (FeatureEngine.process_feature d w f now))).
Proof.
  intros Hb Ht.
  destruct (FeatureProperties.process_feature_blockers d w f now)
    as [[_ [_ E]] | [_ [E | [id [desc E]]]]]; rewrite E.
  - apply in_map_iff; exists b; split; [| exact Hb].
    destruct (same_key w DEPENDENCY_BLOCK (f_id f) b) eqn:K; [| reflexivity].
    apply same_key_iff in K; destruct K as [_ [K _]]; congruence.
  - exact Hb.
  - apply in_or_app; now left.
Qed.

Lemma runFeatureEngine_keeps_conflict_blockers (d : db) (w : string)
  (files : list string) (commit : string) (now : Z) (b : blocker) :
  In b (blockers d) -> b_type b = FILE_CONFLICT_RISK ->
  In b (blockers (fst (FeatureEngine.runFeatureEngine d w files commit now))).
Proof.
  intros Hb Ht; unfold FeatureEngine.runFeatureEngine.
  destruct files as [| x xs]; [exact Hb |].
  cbn [fst].
  change (blockers (fst (fst (HealthEngine.recalculate ?x w now))))
    with (blockers x).
  unfold FeatureEngine.process_all.
  generalize (@nil WsManager.broadcast).
  generalize (FeatureEngine.featuresResult d w); intros fs.
  revert d Hb; induction fs as [| f fs IH]; intros d0 Hb evs; [exact Hb |].
  rewrite FeatureRunProperties.fold_step; apply IH.
  now apply process_feature_keeps_conflict_blockers.
Qed.

Section Push.
Variable hmac_sha256_hex : string -> string -> string.
Variable secret : option string.

(** X23.  A push of a file on a feature branch that is answered 200,
    while another feature branch of the workspace holds recent activity
    on the same file and the start of the activity window is a timestamp
    when the engines run, ends with an unresolved FILE_CONFLICT_RISK
    blocker on that file, of severity MEDIUM or HIGH, once the scheduled
    engines have run. *)
Theorem overlapping_push_raises_blocker (d : db) (req : request)
  (now durationMs now' : Z) (id r a w : string) (rid : Z)
  (f b2 : string) :
  gate hmac_sha256_hex secret req = inr (id, r, a, rid) ->
  status (fst (fst (Route.post_github hmac_sha256_hex secret d req now
                      durationMs)))
  = 200 ->
  ~ logged id d ->
  workspace_by_repo d rid = Some w -> w <> "" ->
  a <> ZERO_SHA ->
  blockers_pk d ->
  In f (pushed_files req a) ->
  replace "refs/heads/" "" r <> "main" ->
  replace "refs/heads/" "" r <> "master" ->
  b2 <> replace "refs/heads/" "" r ->
  Spec.live_branch d w (window_hours d w) now' f b2 ->
  now' - Sql.hours (window_hours d w) < now ->
  window_starts d w now' ->
  exists dp,
    snd (Route.post_github hmac_sha256_hex secret d req now durationMs)
    = Some dp
    /\ exists b,
         In b (blockers
                 (fst (run_engines
                         (snd (fst (Route.post_github hmac_sha256_hex
                                      secret d req now durationMs)))
                         dp now')))
         /\ b_workspace_id b = w /\ b_type b = FILE_CONFLICT_RISK
         /\ b_reference_id b = f /\ b_resolved b = false
         /\ b_severity b <> LOW.
Proof.
  intros G S200 N W Hw Z0 PK Hf M1 M2 Hb2 L2 Hnow WS.
  destruct (WebhookProperties.post_github_status hmac_sha256_hex secret d req
              now durationMs id r a rid G S200) as [NR _].
  rewrite (WebhookProperties.post_github_ok hmac_sha256_hex secret d req now
             durationMs NR).
  rewrite (IngestProperties.handler_fresh hmac_sha256_hex secret d req now
             durationMs id r a rid G N), W.
  apply String.eqb_neq in Z0; rewrite Z0.
  apply String.eqb_neq in Hw; rewrite Hw.
  set (br := replace "refs/heads/" "" r) in *.
  set (files := pushed_files req a) in *.
  assert (Hne : files <> []) by (intros C; rewrite C in Hf; destruct Hf).
  assert (Hlen : Nat.eqb (List.length files) 0 = false)
    by (destruct files; [congruence | reflexivity]).
  rewrite Hlen; cbn [negb andb fst snd].
  eexists; split; [reflexivity |].
  set (rows := fold_left (upsert_file_activity w br a now) files
                         (file_activity d)).
  set (d3 := record_duration _ durationMs id).
  assert (FA : file_activity d3 = rows) by reflexivity.
  assert (BL : blockers d3 = blockers d) by reflexivity.
  assert (WH : window_hours d3 w = window_hours d w) by reflexivity.
  assert (PK3 : blockers_pk d3) by (unfold blockers_pk; now rewrite BL).
  assert (CS : Spec.in_conflict_set d3 w (window_hours d3 w) now' f).
  { left; exists br, b2; split; [congruence | split].
    - destruct (IngestProperties.upsert_all_has w br a now files
                  (file_activity d) f Hf) as [row [Hrow K]].
      fold rows in Hrow.
      exists row; rewrite FA, WH.
      destruct (IngestProperties.upsert_all_In w br a now files _ _ Hrow)
        as [[f' [_ [_ [_ T]]]] | [C _]]; [| exfalso; exact (C f Hf K)].
      unfold activity_key in K; injection K as K1 K2 K3.
      refine (conj Hrow (conj K1 (conj K3 (conj K2 (conj M1 (conj M2 _)))))).
      rewrite T; exact Hnow.
    - destruct L2 as [row [Hrow [A1 [A2 [A3 [A4 [A5 A6]]]]]]].
      exists row; rewrite FA, WH.
      refine (conj _ (conj A1 (conj A2 (conj A3 (conj A4 (conj A5 A6)))))).
      apply IngestProperties.upsert_all_keep; [exact Hrow |].
      intros f' _ K; unfold activity_key in K; injection K as K1 K2 K3.
      congruence. }
  unfold run_engines; cbn [fst dp_workspaceId dp_modifiedFiles dp_branch
    dp_commitHash].
  assert (WS3 : window_starts d3 w now') by exact WS.
  destruct (ConflictRunProperties.runConflictEngine_covers d3 w files br now' f
              PK3 Hne WS3 CS) as [b [Fb [Sb _]]].
  apply find_some in Fb; destruct Fb as [Hin Act].
  apply active_with_key_iff in Act; destruct Act as [A1 [A2 [A3 A4]]].
  exists b; split;
    [now apply runFeatureEngine_keeps_conflict_blockers | auto].
Qed.

End Push.

Lemma gate_feat3 :
  gate Fixtures.demo_hmac Fixtures.demo_secret Fixtures.push_feat3
  = inr ("d3", "refs/heads/feat-3", "c3", 42).
Proof. vm_compute; reflexivity. Qed.

Lemma feat3_answered :
  status (fst (fst (Route.post_github Fixtures.demo_hmac Fixtures.demo_secret
                      Fixtures.overlap_db Fixtures.push_feat3 Fixtures.t_now
                      7)))
  = 200.
Proof. vm_compute; reflexivity. Qed.

Lemma not_logged_d3 : ~ logged "d3" Fixtures.overlap_db.
Proof. intros [row [[] _]]. Qed.

Lemma workspace_42_overlap :
  workspace_by_repo Fixtures.overlap_db 42 = Some "w1".
Proof. reflexivity. Qed.

Lemma w1_truthy : "w1" <> "".
Proof. discriminate. Qed.

Lemma c3_not_zero : "c3" <> ZERO_SHA.
Proof. discriminate. Qed.

Lemma blockers_pk_overlap : blockers_pk Fixtures.overlap_db.
Proof. constructor. Qed.

Lemma a_js_pushed : In "a.js" (pushed_files Fixtures.push_feat3 "c3").
Proof. vm_compute; tauto. Qed.

Lemma feat3_not_main : replace "refs/heads/" "" "refs/heads/feat-3" <> "main".
Proof. apply String.eqb_neq; reflexivity. Qed.

Lemma feat3_not_master :
  replace "refs/heads/" "" "refs/heads/feat-3" <> "master".
Proof. apply String.eqb_neq; reflexivity. Qed.

Lemma feat1_not_feat3 :
  "feat-1" <> replace "refs/heads/" "" "refs/heads/feat-3".
Proof. apply String.eqb_neq; reflexivity. Qed.

Lemma feat1_live :
  Spec.live_branch Fixtures.overlap_db "w1"
    (window_hours Fixtures.overlap_db "w1") Fixtures.t_now "a.js" "feat-1".
Proof.
  exists (mkFileActivity 1 "w1" "feat-1" "a.js" "c1"
            (Fixtures.t_now - 600000000)).
  refine (conj _ (conj eq_refl (conj eq_refl (conj eq_refl
            (conj _ (conj _ _)))))).
  - simpl; tauto.
  - discriminate.
  - discriminate.
  - reflexivity.
Qed.

Lemma window_open :
  Fixtures.t_now - Sql.hours (window_hours Fixtures.overlap_db "w1")
  < Fixtures.t_now.
Proof. reflexivity. Qed.

Lemma window_starts_overlap :
  window_starts Fixtures.overlap_db "w1" Fixtures.t_now.
Proof. reflexivity. Qed.

Lemma overlapping_push_raises_blocker_witness :
  exists dp,
    snd (Route.post_github Fixtures.demo_hmac Fixtures.demo_secret
           Fixtures.overlap_db Fixtures.push_feat3 Fixtures.t_now 7)
    = Some dp
    /\ exists b,
         In b (blockers
                 (fst (run_engines
                         (snd (fst (Route.post_github Fixtures.demo_hmac
                                      Fixtures.demo_secret
                                      Fixtures.overlap_db
                                      Fixtures.push_feat3 Fixtures.t_now 7)))
                         dp Fixtures.t_now)))
         /\ b_workspace_id b = "w1" /\ b_type b = FILE_CONFLICT_RISK
         /\ b_reference_id b = "a.js" /\ b_resolved b = false
         /\ b_severity b <> LOW.
Proof.
  exact (overlapping_push_raises_blocker Fixtures.demo_hmac
           Fixtures.demo_secret Fixtures.overlap_db Fixtures.push_feat3
           Fixtures.t_now 7 Fixtures.t_now "d3" "refs/heads/feat-3" "c3"
           "w1" 42 "a.js" "feat-1"
           gate_feat3 feat3_answered not_logged_d3 workspace_42_overlap
           w1_truthy
           c3_not_zero blockers_pk_overlap a_js_pushed feat3_not_main
           feat3_not_master feat1_not_feat3 feat1_live window_open
           window_starts_overlap).
Defined.

End EndToEnd.
